(** * QKD simulation server: protocol engines and security metrics

    A shallow embedding of [src/app.py]: the four protocol engines
    ([BB84Protocol], [E91Protocol], [BBM92Protocol], [TeleportationQKD]),
    the security evaluator [QKDProtocol.calculate_security_metrics], the
    circuit builder [build_circuit] with [get_circuit_text], and the routes
    [get_protocols], [run_simulation], [compare_protocols] and
    [protocol_circuit], from the fields of the request to the fields of
    the response.

    Conventions of the embedding.
    - Python [int] is [Z]; list lengths, qubit and classical-bit indices are
      [nat]; keys are [list Z].
    - Python's [random] module and the Aer backend draw from hidden state.
      Here every draw is read from an explicit tape held in a [world], so a
      run is a function of the tapes; a tape that ends before the run does
      gives [Stuck] (the run is not determined by the draws supplied).
    - The evaluator's float arithmetic is an interface with two readings:
      exact rationals ([Q]) and IEEE binary64.
    - [custom_bits] is a string of ASCII characters.
    - The routes are modelled from the fields of the request on, each at
      the type the code treats it as: the protocol name and [custom_bits]
      strings, [key_length] an integer, the two flags truth values. *)

From Stdlib Require Import PrimFloat.
From Stdlib Require Uint63 FloatAxioms SpecFloat.
From Stdlib Require Import List ZArith QArith Bool Ascii String Lia Lqa.
From Stdlib Require Import DecimalString.
Import ListNotations.

Local Open Scope Z_scope.

(* ================================================================== *)
(** ** Python built-ins used by the source *)
(* ================================================================== *)

Module Py.

(** Exceptions the modelled code can raise.  The first two are both
    Python's [ValueError]: the one [int] raises on a malformed literal and
    the one the engines raise themselves (app.py:92, 242, 370, 464). *)
Inductive exn : Type :=
| ValueError_invalid_literal (literal : string)
| ValueError_custom_bits_too_short (key_length : Z)
| IndexError.

(** [len(x)] *)
Definition len {A : Type} (l : list A) : Z := Z.of_nat (List.length l).

(** [l[:k]] for a list: a negative [k] counts from the end. *)
Definition slice_to {A : Type} (l : list A) (k : Z) : list A :=
  if 0 <=? k then firstn (Z.to_nat k) l
  else firstn (Z.to_nat (len l + k)) l.

(** Value of a decimal digit. *)
Definition digit_value (c : ascii) : option Z :=
  let n := Z.of_nat (nat_of_ascii c) in
  if (48 <=? n) && (n <=? 57) then Some (n - 48) else None.

Fixpoint digits_value (acc : Z) (s : string) : option Z :=
  match s with
  | EmptyString => Some acc
  | String c rest =>
      match digit_value c with
      | Some d => digits_value (10 * acc + d) rest
      | None => None
      end
  end.

Fixpoint strip_left (s : string) : string :=
  match s with
  | String " "%char rest => strip_left rest
  | _ => s
  end.

Definition string_rev (s : string) : string :=
  string_of_list_ascii (rev (list_ascii_of_string s)).

Definition strip (s : string) : string :=
  string_rev (strip_left (string_rev (strip_left s))).

(** [int(s)] on the strings the program applies it to: one character of
    [custom_bits], or a memory string of the backend (characters ['0'],
    ['1'] and the blank between registers).  Surrounding blanks are
    ignored, as Python does; what remains must be a non-empty run of
    decimal digits.  (Signs and underscores, which Python also accepts
    inside a longer literal, are rejected: alone they are rejected by
    Python too, and a memory string has none.) *)
Definition int (s : string) : exn + Z :=
  match strip s with
  | EmptyString => inl (ValueError_invalid_literal s)
  | t => match digits_value 0 t with
         | Some v => inr v
         | None => inl (ValueError_invalid_literal s)
         end
  end.

(** [int(c)] for one character [c] of a string being iterated. *)
Definition int_of_char (c : ascii) : exn + Z := int (String c EmptyString).

(** [s[i]] for a string and a non-negative index. *)
Definition getitem (s : string) (i : nat) : exn + ascii :=
  match String.get i s with
  | Some c => inr c
  | None => inl IndexError
  end.

(** [l[i]] for a list and a non-negative index. *)
Definition list_getitem {A : Type} (l : list A) (i : nat) : exn + A :=
  match nth_error l i with
  | Some x => inr x
  | None => inl IndexError
  end.

(** [c in '01'] for a one-character string [c]. *)
Definition in_01 (c : ascii) : bool := Ascii.eqb c "0"%char || Ascii.eqb c "1"%char.

(** The test [if s:] on an optional string: [None] and [''] are false.
    [truthy s] is the string when the test succeeds. *)
Definition truthy (s : option string) : option string :=
  match s with
  | Some (String c rest) => Some (String c rest)
  | _ => None
  end.

(** [sum(...)] of integers *)
Definition sum (l : list Z) : Z := fold_left Z.add l 0.

End Py.

(* ================================================================== *)
(** ** Qiskit circuits *)
(* ================================================================== *)

Module Qiskit.

Inductive Instruction : Type :=
| XGate (q : nat)
| HGate (q : nat)
| ZGate (q : nat)
| SdgGate (q : nat)
| CXGate (control target : nat)
| Measure (q : nat) (clbit : nat)
| Barrier.

(** A circuit: its qubits, the sizes of its classical registers in the
    order they were added, and its instructions in program order. *)
Record QuantumCircuit : Type := mkCircuit {
  num_qubits : nat;
  cregs : list nat;
  data : list Instruction
}.

(** [QuantumCircuit(n, m)] *)
Definition new (n m : nat) : QuantumCircuit :=
  {| num_qubits := n; cregs := [m]; data := [] |}.

(** [QuantumCircuit(n, m)] for Python integers of either sign.  A
    register of negative size is refused, and a size of zero adds no
    register. *)
Inductive CircuitError : Type :=
| Register_size_negative (size : Z).

Definition QuantumCircuit_of (n m : Z) : CircuitError + QuantumCircuit :=
  if n <? 0 then inl (Register_size_negative n)
  else if m <? 0 then inl (Register_size_negative m)
  else inr {| num_qubits := Z.to_nat n;
              cregs := if m =? 0 then [] else [Z.to_nat m];
              data := [] |}.

Definition append (i : Instruction) (qc : QuantumCircuit) : QuantumCircuit :=
  {| num_qubits := num_qubits qc; cregs := cregs qc; data := data qc ++ [i] |}.

Definition x (q : nat) := append (XGate q).
Definition h (q : nat) := append (HGate q).
Definition z (q : nat) := append (ZGate q).
Definition sdg (q : nat) := append (SdgGate q).
Definition cx (c t : nat) := append (CXGate c t).
Definition measure (q c : nat) := append (Measure q c).

Definition num_clbits (qc : QuantumCircuit) : nat := list_sum (cregs qc).

(** [qc.measure_all()]: a new register named [meas], one bit per qubit, is
    added after the existing ones and qubit [q] is measured into its bit
    [q]. *)
Definition measure_all (qc : QuantumCircuit) : QuantumCircuit :=
  let base := num_clbits qc in
  {| num_qubits := num_qubits qc;
     cregs := cregs qc ++ [num_qubits qc];
     data := data qc ++ Barrier ::
             map (fun q => Measure q (base + q)%nat) (seq 0 (num_qubits qc)) |}.

(** [gate_if c g qc]: the statement [if c: qc.g(...)]. *)
Definition gate_if (c : bool) (g : QuantumCircuit -> QuantumCircuit)
  (qc : QuantumCircuit) : QuantumCircuit :=
  if c then g qc else qc.

(** *** What one shot can return

    The simulator is not part of the repository.  Its observable
    behaviour is fixed here by the set of classical memories a single
    shot can produce, computed exactly: amplitudes are Gaussian integers
    [(re, im)] and the Hadamard gate is left unnormalised, which scales
    every amplitude by the same positive factor and so keeps the set of
    outcomes of non-zero probability unchanged. *)

Definition amp : Type := (Z * Z)%type.
Definition a0 : amp := (0, 0).
Definition aadd (u v : amp) : amp := (fst u + fst v, snd u + snd v).
Definition asub (u v : amp) : amp := (fst u - fst v, snd u - snd v).
Definition aneg (u : amp) : amp := (- fst u, - snd u).
(** multiplication by [-i] *)
Definition amul_neg_i (u : amp) : amp := (snd u, - fst u).
Definition is_zero (u : amp) : bool := (fst u =? 0) && (snd u =? 0).

(** A state of [n] qubits lists the amplitude of every basis state; qubit
    [q] is bit [q] of the index. *)
Definition state : Type := list amp.

Definition at_ (v : state) (i : nat) : amp := nth i v a0.
Definition flip (q i : nat) : nat :=
  if Nat.testbit i q then (i - 2 ^ q)%nat else (i + 2 ^ q)%nat.
Definition tabulate (v : state) (f : nat -> amp) : state :=
  map f (seq 0 (List.length v)).

Definition apply_x (q : nat) (v : state) : state :=
  tabulate v (fun i => at_ v (flip q i)).
Definition apply_z (q : nat) (v : state) : state :=
  tabulate v (fun i => if Nat.testbit i q then aneg (at_ v i) else at_ v i).
Definition apply_sdg (q : nat) (v : state) : state :=
  tabulate v (fun i =>
    if Nat.testbit i q then amul_neg_i (at_ v i) else at_ v i).
Definition apply_h (q : nat) (v : state) : state :=
  tabulate v (fun i =>
    if Nat.testbit i q then asub (at_ v (flip q i)) (at_ v i)
    else aadd (at_ v i) (at_ v (flip q i))).
Definition apply_cx (c t : nat) (v : state) : state :=
  tabulate v (fun i => if Nat.testbit i c then at_ v (flip t i) else at_ v i).
Definition project (q : nat) (b : bool) (v : state) : state :=
  tabulate v (fun i => if Bool.eqb (Nat.testbit i q) b then at_ v i else a0).

(** Classical memory: the registers in the order they were added, bit 0
    of each first. *)
Definition Memory : Type := list (list bool).

Fixpoint set_bit (m : Memory) (c : nat) (b : bool) : Memory :=
  match m with
  | [] => []
  | r :: rest =>
      if (c <? List.length r)%nat
      then (firstn c r ++ b :: skipn (S c) r) :: rest
      else r :: set_bit rest (c - List.length r) b
  end.

(** One branch of a run: the memory written so far and the state the
    qubits are left in. *)
Definition branch : Type := (Memory * state)%type.

Definition measure_branch (q c : nat) (br : branch) : list branch :=
  flat_map (fun b =>
    let v := project q b (snd br) in
    if forallb is_zero v then [] else [(set_bit (fst br) c b, v)])
    [false; true].

Definition step (i : Instruction) (brs : list branch) : list branch :=
  match i with
  | XGate q => map (fun br => (fst br, apply_x q (snd br))) brs
  | HGate q => map (fun br => (fst br, apply_h q (snd br))) brs
  | ZGate q => map (fun br => (fst br, apply_z q (snd br))) brs
  | SdgGate q => map (fun br => (fst br, apply_sdg q (snd br))) brs
  | CXGate c t => map (fun br => (fst br, apply_cx c t (snd br))) brs
  | Measure q c => flat_map (measure_branch q c) brs
  | Barrier => brs
  end.

Definition initial (qc : QuantumCircuit) : branch :=
  (map (fun size => repeat false size) (cregs qc),
   (1, 0) :: repeat a0 (2 ^ num_qubits qc - 1)).

(** The memories one shot of [qc] can leave. *)
Definition outcomes (qc : QuantumCircuit) : list Memory :=
  map fst (fold_left (fun brs i => step i brs) (data qc) [initial qc]).

(** [get_memory()[0]]: the registers from the last added to the first,
    separated by a blank, each written from its highest bit to bit 0. *)
Definition bit_char (b : bool) : ascii := if b then "1"%char else "0"%char.
Definition register_string (r : list bool) : string :=
  string_of_list_ascii (rev (map bit_char r)).
Definition memory_string (m : Memory) : string :=
  String.concat " "%string (rev (map register_string m)).

Definition memory_eqb (m1 m2 : Memory) : bool :=
  if list_eq_dec (list_eq_dec Bool.bool_dec) m1 m2 then true else false.

(** [allowed qc m]: a shot of [qc] can return [m]. *)
Definition allowed (qc : QuantumCircuit) (m : Memory) : bool :=
  existsb (memory_eqb m) (outcomes qc).

End Qiskit.

(* ================================================================== *)
(** ** Effects: random draws and backend jobs *)
(* ================================================================== *)

(** The hidden state a run reads: the words Python's generator will
    deliver, the memories the backend will return, and the jobs submitted
    so far with the memory each returned (a log, never read back). *)
Record world : Type := mkWorld {
  entropy : list Z;
  shots : list Qiskit.Memory;
  jobs : list (Qiskit.QuantumCircuit * Qiskit.Memory)
}.

Inductive result (A : Type) : Type :=
| Ok (a : A)
| Raise (e : Py.exn)
| Stuck.
Arguments Ok {A} a.
Arguments Raise {A} e.
Arguments Stuck {A}.

Definition M (A : Type) : Type := world -> result A * world.

Definition ret {A : Type} (a : A) : M A := fun w => (Ok a, w).

Definition bind {A B : Type} (m : M A) (f : A -> M B) : M B :=
  fun w =>
    match m w with
    | (Ok a, w') => f a w'
    | (Raise e, w') => (Raise e, w')
    | (Stuck, w') => (Stuck, w')
    end.

Notation "x <- m ;; k" := (bind m (fun x => k))
  (at level 61, m at next level, right associativity).

Definition lift {A : Type} (r : Py.exn + A) : M A :=
  fun w => match r with inr a => (Ok a, w) | inl e => (Raise e, w) end.

(** What is left on the tapes. *)
Definition budget (w : world) : nat :=
  (List.length (entropy w) + List.length (shots w))%nat.

(** [while cond: body] on the loop variables [s].  The recursion is
    bounded by what is left on the tapes; for a body that reads a tape
    on every pass, as the sifting loops do, a larger bound changes
    nothing (lemma [while_fuel_enough]), and a loop that outlives the
    tapes has no result. *)
Fixpoint while_fuel {S : Type} (fuel : nat) (cond : S -> bool)
  (body : S -> M S) (s : S) : M S :=
  match fuel with
  | O => fun w => (Stuck, w)
  | Datatypes.S fuel' =>
      if cond s then s' <- body s ;; while_fuel fuel' cond body s'
      else ret s
  end.

Definition while {S : Type} (cond : S -> bool) (body : S -> M S) (s : S)
  : M S :=
  fun w => while_fuel (Datatypes.S (budget w)) cond body s w.

(** [for i in l: body] on the loop variables [s]. *)
Fixpoint for_each {A S : Type} (l : list A) (body : A -> S -> M S) (s : S)
  : M S :=
  match l with
  | [] => ret s
  | a :: rest => s' <- body a s ;; for_each rest body s'
  end.

(** [range(n)] *)
Definition range (n : Z) : list nat := seq 0 (Z.to_nat n).

(** [[f(x) for x in l]], stopping at the first exception. *)
Fixpoint map_exn {A B : Type} (f : A -> Py.exn + B) (l : list A)
  : Py.exn + list B :=
  match l with
  | [] => inr []
  | a :: rest =>
      match f a with
      | inl e => inl e
      | inr b => match map_exn f rest with
                 | inl e => inl e
                 | inr bs => inr (b :: bs)
                 end
      end
  end.

Module Random.

(** The next word of the generator. *)
Definition word : M Z :=
  fun w =>
    match entropy w with
    | [] => (Stuck, w)
    | n :: rest =>
        (Ok n, {| entropy := rest; shots := shots w; jobs := jobs w |})
    end.

(** [random.randint(a, b)]: an integer of [a..b]. *)
Definition randint (a b : Z) : M Z :=
  n <- word ;; ret (a + n mod (b - a + 1)).

(** [random.choice(seq)] *)
Definition choice {A : Type} (seq : list A) : M A :=
  n <- word ;; lift (Py.list_getitem seq (Z.to_nat (n mod Py.len seq))).

(** [random.random()]: a multiple of [2^-53] in [[0, 1)].  The program
    only compares it with 0.1, 0.2, 0.25 and 0.3; no multiple of [2^-53]
    lies between one of these and the double nearest to it, so comparing
    with the exact decimal decides as the float comparison does. *)
Definition random : M Q :=
  n <- word ;; ret (Qmake (n mod 2 ^ 53) (2 ^ 53)).

End Random.

(** [x < y] on rationals, as a boolean. *)
Definition Qltb (x y : Q) : bool := negb (Qle_bool y x).

Module Backend.

(** [backend.run(qc, shots=1, memory=True).result().get_memory()[0]] *)
Definition run (qc : Qiskit.QuantumCircuit) : M string :=
  fun w =>
    match shots w with
    | [] => (Stuck, w)
    | m :: rest =>
        (Ok (Qiskit.memory_string m),
         {| entropy := entropy w; shots := rest;
            jobs := jobs w ++ [(qc, m)] |})
    end.

End Backend.

(* ================================================================== *)
(** ** Protocol engines *)
(* ================================================================== *)

(** The dictionary every [generate_key] returns. *)
Record KeyPair : Type := mkKeyPair {
  alice_key : list Z;
  bob_key : list Z;
  protocol : string;
  eavesdropping : bool
}.

(** Loop variables of the custom-bits sifting loops. *)
Record sift : Type := mkSift {
  sift_bob_key : list Z;
  bit_index : nat
}.

(** What one pass of a sifting loop drew (kept in local variables by the
    source; reported here so that properties of a pass can be stated). *)
Record Round (B : Type) : Type := mkRound {
  alice_bit : option Z;
  alice_basis : B;
  bob_basis : B
}.
Arguments mkRound {B} _ _ _.
Arguments alice_bit {B} _.
Arguments alice_basis {B} _.
Arguments bob_basis {B} _.

(** The statement [if include_eavesdropping and random.random() < p]:
    the draw is made only when eavesdropping is on. *)
Definition eve_acts (include_eavesdropping : bool) (p : Q) : M bool :=
  if include_eavesdropping
  then u <- Random.random ;; ret (Qltb u p)
  else ret false.

(** Lines 90-95 (and 240-245, 368-373, 462-467): Alice's key in
    custom-bits mode. *)
Definition custom_alice_key (custom_bits : string) (key_length : Z)
  : Py.exn + list Z :=
  match map_exn Py.int_of_char (list_ascii_of_string custom_bits) with
  | inl e => inl e
  | inr custom_bit_list =>
      if Py.len custom_bit_list <? key_length
      then inl (Py.ValueError_custom_bits_too_short key_length)
      else inr (Py.slice_to custom_bit_list key_length)
  end.

Module BB84Protocol.

Definition name : string := "BB84".

(** Lines 105-140 (and 158-191): Alice's qubit, the optional interception
    and Bob's measurement. *)
Definition transmit (include_eavesdropping : bool)
  (alice_bit alice_basis bob_basis : Z) : M Z :=
  let qc := Qiskit.new 1 1 in
  let qc := Qiskit.gate_if (alice_bit =? 1) (Qiskit.x 0) qc in
  let qc := Qiskit.gate_if (alice_basis =? 1) (Qiskit.h 0) qc in
  intercepted <- eve_acts include_eavesdropping (3 # 10) ;;
  qc <- (if intercepted : bool then
           eve_basis <- Random.randint 0 1 ;;
           let qc := Qiskit.gate_if (eve_basis =? 1) (Qiskit.h 0) qc in
           let qc := Qiskit.measure 0 0 qc in
           memory <- Backend.run qc ;;
           eve_result <- lift (Py.int memory) ;;
           let qc := Qiskit.new 1 1 in
           let qc := Qiskit.gate_if (eve_result =? 1) (Qiskit.x 0) qc in
           let qc := Qiskit.gate_if (eve_basis =? 1) (Qiskit.h 0) qc in
           ret qc
         else ret qc) ;;
  let qc := Qiskit.gate_if (bob_basis =? 1) (Qiskit.h 0) qc in
  let qc := Qiskit.measure 0 0 qc in
  memory <- Backend.run qc ;;
  lift (Py.int memory).

(** One pass of the loop of lines 101-145. *)
Definition custom_attempt (include_eavesdropping : bool)
  (alice_key : list Z) (st : sift) : M (Round Z * sift) :=
  alice_basis <- Random.randint 0 1 ;;
  bob_basis <- Random.randint 0 1 ;;
  alice_bit <- lift (Py.list_getitem alice_key (bit_index st)) ;;
  bob_result <- transmit include_eavesdropping alice_bit alice_basis
                  bob_basis ;;
  ret (mkRound (Some alice_bit) alice_basis bob_basis,
       if alice_basis =? bob_basis
       then {| sift_bob_key := sift_bob_key st ++ [bob_result];
               bit_index := S (bit_index st) |}
       else st).

(** One pass of the loop of lines 152-196, on [(alice_key, bob_key)]. *)
Definition random_attempt (include_eavesdropping : bool)
  (keys : list Z * list Z) : M (list Z * list Z) :=
  alice_bit <- Random.randint 0 1 ;;
  alice_basis <- Random.randint 0 1 ;;
  bob_basis <- Random.randint 0 1 ;;
  bob_result <- transmit include_eavesdropping alice_bit alice_basis
                  bob_basis ;;
  ret (if alice_basis =? bob_basis
       then (fst keys ++ [alice_bit], snd keys ++ [bob_result])
       else keys).

Definition generate_key (key_length : Z) (include_eavesdropping : bool)
  (custom_bits : option string) : M KeyPair :=
  match Py.truthy custom_bits with
  | Some custom_bits =>
      alice_key <- lift (custom_alice_key custom_bits key_length) ;;
      st <- while (fun st => Py.len (sift_bob_key st) <? key_length)
              (fun st => r <- custom_attempt include_eavesdropping
                                alice_key st ;; ret (snd r))
              {| sift_bob_key := []; bit_index := 0 |} ;;
      ret (mkKeyPair alice_key (sift_bob_key st) name include_eavesdropping)
  | None =>
      keys <- while (fun keys => Py.len (fst keys) <? key_length)
                (random_attempt include_eavesdropping) ([], []) ;;
      ret (mkKeyPair (fst keys) (snd keys) name include_eavesdropping)
  end.

(** Lines 206-218: the circuit shown for BB84. *)
Definition build_circuit (key_length : Z)
  : Qiskit.CircuitError + Qiskit.QuantumCircuit :=
  let num_qubits := key_length in
  match Qiskit.QuantumCircuit_of num_qubits num_qubits with
  | inl e => inl e
  | inr qc =>
      inr (fold_left
             (fun qc i =>
                if (i mod 2 =? 0)%nat then Qiskit.measure i i qc
                else Qiskit.measure i i (Qiskit.h i qc))
             (range num_qubits) qc)
  end.

End BB84Protocol.

Module E91Protocol.

Definition name : string := "E91".

(** [if basis == 1: qc.h(q) elif basis == 2: qc.sdg(q); qc.h(q)] *)
Definition rotate (basis : Z) (q : nat) (qc : Qiskit.QuantumCircuit)
  : Qiskit.QuantumCircuit :=
  if basis =? 1 then Qiskit.h q qc
  else if basis =? 2 then Qiskit.h q (Qiskit.sdg q qc)
  else qc.

(** Lines 252-287 (and 301-336): the pair, both bases, the optional
    interception and the final measurement.  Returns the two bases and
    the memory string [measurements]. *)
Definition exchange (include_eavesdropping : bool) : M (Z * Z * string) :=
  let qc := Qiskit.new 2 2 in
  let qc := Qiskit.h 0 qc in
  let qc := Qiskit.cx 0 1 qc in
  alice_basis <- Random.randint 0 2 ;;
  bob_basis <- Random.randint 0 2 ;;
  let qc := rotate alice_basis 0 qc in
  let qc := rotate bob_basis 1 qc in
  intercepted <- eve_acts include_eavesdropping (25 # 100) ;;
  qc <- (if intercepted : bool then
           let qc := Qiskit.measure_all qc in
           eve_results <- Backend.run qc ;;
           let qc := Qiskit.new 2 2 in
           c1 <- lift (Py.getitem eve_results 1) ;;
           let qc := Qiskit.gate_if (Ascii.eqb c1 "1") (Qiskit.x 0) qc in
           c0 <- lift (Py.getitem eve_results 0) ;;
           let qc := Qiskit.gate_if (Ascii.eqb c0 "1") (Qiskit.x 1) qc in
           let qc := Qiskit.h 0 qc in
           let qc := Qiskit.cx 0 1 qc in
           u <- Random.random ;;
           if Qltb u (1 # 10)
           then q <- Random.randint 0 1 ;; ret (Qiskit.x (Z.to_nat q) qc)
           else ret qc
         else ret qc) ;;
  let qc := Qiskit.measure 0 0 qc in
  let qc := Qiskit.measure 1 1 qc in
  measurements <- Backend.run qc ;;
  ret (alice_basis, bob_basis, measurements).

(** [bob_bit = int(measurements[0])], flipped in basis 2 (lines 291-293
    and 341-343). *)
Definition bob_bit_of (alice_basis : Z) (measurements : string) : M Z :=
  c <- lift (Py.getitem measurements 0) ;;
  bob_bit <- lift (Py.int_of_char c) ;;
  ret (if alice_basis =? 2 then 1 - bob_bit else bob_bit).

(** One pass of the loop of lines 251-295.  [alice_key] is not read. *)
Definition custom_attempt (include_eavesdropping : bool) (st : sift)
  : M (Round Z * sift) :=
  r <- exchange include_eavesdropping ;;
  let '(alice_basis, bob_basis, measurements) := r in
  if alice_basis =? bob_basis then
    bob_bit <- bob_bit_of alice_basis measurements ;;
    ret (mkRound None alice_basis bob_basis,
         {| sift_bob_key := sift_bob_key st ++ [bob_bit];
            bit_index := S (bit_index st) |})
  else ret (mkRound None alice_basis bob_basis, st).

(** One pass of the loop of lines 300-345, on [(alice_key, bob_key)]. *)
Definition random_attempt (include_eavesdropping : bool)
  (keys : list Z * list Z) : M (list Z * list Z) :=
  r <- exchange include_eavesdropping ;;
  let '(alice_basis, bob_basis, measurements) := r in
  if alice_basis =? bob_basis then
    c <- lift (Py.getitem measurements 1) ;;
    alice_bit <- lift (Py.int_of_char c) ;;
    bob_bit <- bob_bit_of alice_basis measurements ;;
    ret (fst keys ++ [alice_bit], snd keys ++ [bob_bit])
  else ret keys.

Definition generate_key (key_length : Z) (include_eavesdropping : bool)
  (custom_bits : option string) : M KeyPair :=
  match Py.truthy custom_bits with
  | Some custom_bits =>
      alice_key <- lift (custom_alice_key custom_bits key_length) ;;
      st <- while (fun st => Py.len (sift_bob_key st) <? key_length)
              (fun st => r <- custom_attempt include_eavesdropping st ;;
                         ret (snd r))
              {| sift_bob_key := []; bit_index := 0 |} ;;
      ret (mkKeyPair alice_key (sift_bob_key st) name include_eavesdropping)
  | None =>
      keys <- while (fun keys => Py.len (fst keys) <? key_length)
                (random_attempt include_eavesdropping) ([], []) ;;
      ret (mkKeyPair (fst keys) (snd keys) name include_eavesdropping)
  end.

End E91Protocol.

Module BBM92Protocol.

Definition name : string := "BBM92".

Definition bases : list string := ["rectilinear"; "diagonal"]%string.

(** [if alice_basis == 'diagonal': qc.h(0)] and the same for Bob on
    qubit 1 (lines 388-389, 398-399, 420-421, 430-431). *)
Definition rotate (alice_basis bob_basis : string)
  (qc : Qiskit.QuantumCircuit) : Qiskit.QuantumCircuit :=
  let qc := Qiskit.gate_if (String.eqb alice_basis "diagonal")
              (Qiskit.h 0) qc in
  Qiskit.gate_if (String.eqb bob_basis "diagonal") (Qiskit.h 1) qc.

(** Lines 380-402 (and 412-434). *)
Definition exchange (include_eavesdropping : bool)
  : M (string * string * string) :=
  let qc := Qiskit.new 2 2 in
  let qc := Qiskit.h 0 qc in
  let qc := Qiskit.cx 0 1 qc in
  alice_basis <- Random.choice bases ;;
  bob_basis <- Random.choice bases ;;
  let qc := rotate alice_basis bob_basis qc in
  intercepted <- eve_acts include_eavesdropping (3 # 10) ;;
  qc <- (if intercepted : bool then
           let qc := Qiskit.measure_all qc in
           eve_results <- Backend.run qc ;;
           let qc := Qiskit.new 2 2 in
           c1 <- lift (Py.getitem eve_results 1) ;;
           let qc := Qiskit.gate_if (Ascii.eqb c1 "1") (Qiskit.x 0) qc in
           c0 <- lift (Py.getitem eve_results 0) ;;
           let qc := Qiskit.gate_if (Ascii.eqb c0 "1") (Qiskit.x 1) qc in
           ret (rotate alice_basis bob_basis qc)
         else ret qc) ;;
  let qc := Qiskit.measure 0 0 qc in
  let qc := Qiskit.measure 1 1 qc in
  measurements <- Backend.run qc ;;
  ret (alice_basis, bob_basis, measurements).

(** One pass of the loop of lines 379-406.  [alice_key] is not read. *)
Definition custom_attempt (include_eavesdropping : bool) (st : sift)
  : M (Round string * sift) :=
  r <- exchange include_eavesdropping ;;
  let '(alice_basis, bob_basis, measurements) := r in
  if String.eqb alice_basis bob_basis then
    c <- lift (Py.getitem measurements 0) ;;
    bob_bit <- lift (Py.int_of_char c) ;;
    ret (mkRound None alice_basis bob_basis,
         {| sift_bob_key := sift_bob_key st ++ [bob_bit];
            bit_index := S (bit_index st) |})
  else ret (mkRound None alice_basis bob_basis, st).

(** One pass of the loop of lines 411-438, on [(alice_key, bob_key)]. *)
Definition random_attempt (include_eavesdropping : bool)
  (keys : list Z * list Z) : M (list Z * list Z) :=
  r <- exchange include_eavesdropping ;;
  let '(alice_basis, bob_basis, measurements) := r in
  if String.eqb alice_basis bob_basis then
    c <- lift (Py.getitem measurements 1) ;;
    alice_bit <- lift (Py.int_of_char c) ;;
    c <- lift (Py.getitem measurements 0) ;;
    bob_bit <- lift (Py.int_of_char c) ;;
    ret (fst keys ++ [alice_bit], snd keys ++ [bob_bit])
  else ret keys.

Definition generate_key (key_length : Z) (include_eavesdropping : bool)
  (custom_bits : option string) : M KeyPair :=
  match Py.truthy custom_bits with
  | Some custom_bits =>
      alice_key <- lift (custom_alice_key custom_bits key_length) ;;
      st <- while (fun st => Py.len (sift_bob_key st) <? key_length)
              (fun st => r <- custom_attempt include_eavesdropping st ;;
                         ret (snd r))
              {| sift_bob_key := []; bit_index := 0 |} ;;
      ret (mkKeyPair alice_key (sift_bob_key st) name include_eavesdropping)
  | None =>
      keys <- while (fun keys => Py.len (fst keys) <? key_length)
                (random_attempt include_eavesdropping) ([], []) ;;
      ret (mkKeyPair (fst keys) (snd keys) name include_eavesdropping)
  end.

End BBM92Protocol.

Module TeleportationQKD.

Definition name : string := "Teleportation QKD".

(** Lines 474-499 (and 507-532): one round for [secret_bit]; returns
    [bob_bit]. *)
Definition teleport (include_eavesdropping : bool) (secret_bit : Z) : M Z :=
  let qc := Qiskit.new 3 3 in
  let qc := Qiskit.gate_if (secret_bit =? 1) (Qiskit.x 0) qc in
  let qc := Qiskit.h 1 qc in
  let qc := Qiskit.cx 1 2 qc in
  let qc := Qiskit.cx 0 1 qc in
  let qc := Qiskit.h 0 qc in
  attempt <- eve_acts include_eavesdropping (2 # 10) ;;
  qc <- (if attempt : bool then
           u <- Random.random ;;
           if Qltb u (3 # 10)
           then q <- Random.randint 0 2 ;; ret (Qiskit.x (Z.to_nat q) qc)
           else ret qc
         else ret qc) ;;
  let qc := Qiskit.measure 0 0 qc in
  let qc := Qiskit.measure 1 1 qc in
  alice_measurements <- Backend.run qc ;;
  let bob_qc := Qiskit.new 1 1 in
  c1 <- lift (Py.getitem alice_measurements 1) ;;
  let bob_qc := Qiskit.gate_if (Ascii.eqb c1 "1") (Qiskit.x 0) bob_qc in
  c0 <- lift (Py.getitem alice_measurements 0) ;;
  let bob_qc := Qiskit.gate_if (Ascii.eqb c0 "1") (Qiskit.z 0) bob_qc in
  let bob_qc := Qiskit.measure 0 0 bob_qc in
  memory <- Backend.run bob_qc ;;
  lift (Py.int memory).

(** Body of the loop of lines 472-500, on [bob_key]. *)
Definition custom_round (include_eavesdropping : bool) (alice_key : list Z)
  (i : nat) (bob_key : list Z) : M (list Z) :=
  secret_bit <- lift (Py.list_getitem alice_key i) ;;
  bob_bit <- teleport include_eavesdropping secret_bit ;;
  ret (bob_key ++ [bob_bit]).

(** Body of the loop of lines 505-534, on [(alice_key, bob_key)]. *)
Definition random_round (include_eavesdropping : bool) (i : nat)
  (keys : list Z * list Z) : M (list Z * list Z) :=
  secret_bit <- Random.randint 0 1 ;;
  bob_bit <- teleport include_eavesdropping secret_bit ;;
  ret (fst keys ++ [secret_bit], snd keys ++ [bob_bit]).

Definition generate_key (key_length : Z) (include_eavesdropping : bool)
  (custom_bits : option string) : M KeyPair :=
  match Py.truthy custom_bits with
  | Some custom_bits =>
      alice_key <- lift (custom_alice_key custom_bits key_length) ;;
      bob_key <- for_each (range key_length)
                   (custom_round include_eavesdropping alice_key) [] ;;
      ret (mkKeyPair alice_key bob_key name include_eavesdropping)
  | None =>
      keys <- for_each (range key_length)
                (random_round include_eavesdropping) ([], []) ;;
      ret (mkKeyPair (fst keys) (snd keys) name include_eavesdropping)
  end.

End TeleportationQKD.

(** The four engines behind one interface. *)
Inductive Protocol : Type := BB84 | E91 | BBM92 | Teleportation.

Definition generate_key (p : Protocol) : Z -> bool -> option string -> M KeyPair :=
  match p with
  | BB84 => BB84Protocol.generate_key
  | E91 => E91Protocol.generate_key
  | BBM92 => BBM92Protocol.generate_key
  | Teleportation => TeleportationQKD.generate_key
  end.

(* ================================================================== *)
(** ** Security evaluator *)
(* ================================================================== *)

(** The arithmetic the evaluator needs.  The source computes in Python
    floats; the evaluator is written once over this interface and read
    two ways: in exact rationals, for statements about all keys, and in
    IEEE binary64, which is what Python's floats are, for evaluation. *)
Class Number (R : Type) : Type := {
  num_of_int : Z -> R;        (* an [int] operand of [/] *)
  num_div : R -> R -> R;      (* [x / y] *)
  num_sub : R -> R -> R;      (* [x - y] *)
  num_lt : R -> R -> bool;    (* [x < y] *)
  num_0 : R;                  (* [0.0] *)
  num_1 : R;                  (* [1.0] *)
  num_0_05 : R;               (* [0.05] *)
  num_0_15 : R                (* [0.15] *)
}.

#[global] Instance exact : Number Q := {|
  num_of_int := inject_Z;
  num_div := Qdiv;
  num_sub := Qminus;
  num_lt := Qltb;
  num_0 := 0%Q;
  num_1 := 1%Q;
  num_0_05 := (5 # 100)%Q;
  num_0_15 := (15 # 100)%Q
|}.

(** The two thresholds are the doubles nearest to 0.05 and 0.15.  An
    integer below [2^53], as the length of a list is, converts exactly,
    and then the quotient of two converted integers is the correctly
    rounded quotient that Python's [int / int] returns. *)
#[global] Instance binary64 : Number PrimFloat.float := {|
  num_of_int := fun n => PrimFloat.of_uint63 (Uint63.of_Z n);
  num_div := PrimFloat.div;
  num_sub := PrimFloat.sub;
  num_lt := PrimFloat.ltb;
  num_0 := 0%float;
  num_1 := 1%float;
  num_0_05 := 0x1.999999999999ap-5%float;
  num_0_15 := 0x1.3333333333333p-3%float
|}.

Record SecurityMetrics (R : Type) : Type := mkMetrics {
  agreement_rate : R;
  qber : R;
  is_secure : bool;
  security_level : string
}.
Arguments mkMetrics {R} _ _ _ _.
Arguments agreement_rate {R} _.
Arguments qber {R} _.
Arguments is_secure {R} _.
Arguments security_level {R} _.

Module QKDProtocol.

(** Lines 28-56.  The argument [eavesdropping] is not used. *)
Definition calculate_security_metrics {R : Type} {N : Number R}
  (alice_key bob_key : list Z) (eavesdropping : bool) : SecurityMetrics R :=
  match alice_key, bob_key with
  | [], _ | _, [] =>
      {| agreement_rate := num_0; qber := num_1; is_secure := false;
         security_level := "Low" |}
  | _, _ =>
      let total := Z.min (Py.len alice_key) (Py.len bob_key) in
      let matches :=
        Py.sum (map (fun _ => 1)
                 (filter (fun ij => fst ij =? snd ij)
                    (combine (Py.slice_to alice_key total)
                             (Py.slice_to bob_key total)))) in
      let agreement_rate := num_div (num_of_int matches) (num_of_int total) in
      let qber := num_sub num_1 agreement_rate in
      let is_secure := num_lt qber num_0_15 in
      let security_level :=
        if num_lt qber num_0_05 then "High"%string
        else if num_lt qber num_0_15 then "Medium"%string
        else "Low"%string in
      {| agreement_rate := agreement_rate; qber := qber;
         is_secure := is_secure; security_level := security_level |}
  end.

(** [self.name] and [self.description], as the four constructors set
    them (lines 75, 228, 357, 450). *)
Definition name (self : Protocol) : string :=
  match self with
  | BB84 => BB84Protocol.name
  | E91 => E91Protocol.name
  | BBM92 => BBM92Protocol.name
  | Teleportation => TeleportationQKD.name
  end.

Definition description (self : Protocol) : string :=
  match self with
  | BB84 =>
      "First practical quantum key distribution protocol using photon polarization"
  | E91 => "Entanglement-based QKD protocol using Bell states"
  | BBM92 => "Bell state measurement based QKD protocol"
  | Teleportation => "QKD using quantum teleportation protocol"
  end.

(** What [get_circuit_text] can raise: Python's [TypeError] for a call
    with more positional arguments than the method takes, or the
    library's refusal of a circuit. *)
Inductive CircuitFailure : Type :=
| TypeError_positional_arguments (takes given : nat)
| Circuit_refused (e : Qiskit.CircuitError).

(** The text drawing of a circuit, [str(qc.draw(output='text'))]: the
    library's rendering, kept as the circuit it renders. *)
Inductive Drawing : Type :=
| text_of (qc : Qiskit.QuantumCircuit).

(** The call [self.build_circuit(key_length)] of line 64.  Only
    [BB84Protocol] overrides [build_circuit]; for the other engines the
    call reaches the base method (lines 58-60), which takes [self]
    alone. *)
Definition build_circuit (self : Protocol) (key_length : Z)
  : CircuitFailure + Qiskit.QuantumCircuit :=
  match self with
  | BB84 =>
      match BB84Protocol.build_circuit key_length with
      | inl e => inl (Circuit_refused e)
      | inr qc => inr qc
      end
  | _ => inl (TypeError_positional_arguments 1 2)
  end.

(** Lines 62-65. *)
Definition get_circuit_text (self : Protocol) (key_length : Z)
  : CircuitFailure + Drawing :=
  match build_circuit self key_length with
  | inl e => inl e
  | inr qc => inr (text_of qc)
  end.

End QKDProtocol.

(* ================================================================== *)
(** ** The [run_simulation] route *)
(* ================================================================== *)

(** Lines 542-547. *)
Definition protocols (protocol_name : string) : option Protocol :=
  if String.eqb protocol_name "bb84" then Some BB84
  else if String.eqb protocol_name "e91" then Some E91
  else if String.eqb protocol_name "bbm92" then Some BBM92
  else if String.eqb protocol_name "teleportation" then Some Teleportation
  else None.

(** The body of a 200 response (lines 601-612); the two rates are kept
    as numbers rather than formatted to three decimals. *)
Record Results (R : Type) : Type := mkResults {
  res_keys : KeyPair;
  res_key_length : Z;
  res_metrics : SecurityMetrics R;
  res_status : string
}.
Arguments mkResults {R} _ _ _ _.

Inductive BadRequest : Type :=
| Invalid_protocol                       (* 'Invalid protocol' *)
| Custom_bits_not_binary                 (* '... only 0s and 1s' *)
| Custom_bits_too_short (key_length : Z) (* '... at least N characters long' *).

Inductive Response (R : Type) : Type :=
| Http200 (results : Results R)
| Http400 (error : BadRequest)
| Http500 (error : Py.exn).
Arguments Http200 {R} _.
Arguments Http400 {R} _.
Arguments Http500 {R} _.

(** Lines 570-616, from the fields of the request on: [protocol_name]
    and [custom_bits] are the strings of the request, [key_length] the
    integer line 572 converts to, the two flags their truth values.  A
    request that holds another kind of JSON value in [protocol] or
    [custom_bits] is not covered.  A run that has no result gives no
    response. *)
Definition run_simulation {R : Type} {N : Number R}
  (protocol_name : string) (key_length : Z)
  (include_eavesdropping use_custom_bits : bool) (custom_bits : string)
  : world -> option (Response R) * world :=
  fun w =>
    match protocols protocol_name with
    | None => (Some (Http400 Invalid_protocol), w)
    | Some qkd_protocol =>
        let respond (run : M KeyPair) :=
          match run w with
          | (Ok key_data, w') =>
              let metrics :=
                QKDProtocol.calculate_security_metrics
                  (alice_key key_data) (bob_key key_data)
                  include_eavesdropping in
              (Some (Http200
                 {| res_keys := key_data;
                    res_key_length := Py.len (alice_key key_data);
                    res_metrics := metrics;
                    res_status :=
                      if is_secure metrics
                      then "Secure communication possible"
                      else "Security compromised - abort key exchange" |}),
               w')
          | (Raise e, w') => (Some (Http500 e), w')
          | (Stuck, w') => (None, w')
          end in
        match (if use_custom_bits then Py.truthy (Some custom_bits)
               else None) with
        | Some custom_bits =>
            if negb (forallb Py.in_01 (list_ascii_of_string custom_bits))
            then (Some (Http400 Custom_bits_not_binary), w)
            else if Z.of_nat (String.length custom_bits) <? key_length
            then (Some (Http400 (Custom_bits_too_short key_length)), w)
            else respond (generate_key qkd_protocol key_length
                            include_eavesdropping (Some custom_bits))
        | None =>
            respond (generate_key qkd_protocol key_length
                       include_eavesdropping None)
        end
    end.

(* ================================================================== *)
(** ** The other routes *)
(* ================================================================== *)

(** The dictionary of lines 542-547 as its items, in insertion order. *)
Definition protocols_items : list (string * Protocol) :=
  [("bb84", BB84); ("e91", E91); ("bbm92", BBM92);
   ("teleportation", Teleportation)]%string.

(** Lines 555-560: for every key its protocol's [name] and
    [description]; the dictionary under ['protocols'] as it is handed to
    [jsonify], its items in the order of [protocols]. *)
Definition get_protocols : list (string * (string * string)) :=
  map (fun item =>
         (fst item,
          (QKDProtocol.name (snd item), QKDProtocol.description (snd item))))
    protocols_items.

(** One entry of the comparison (lines 640-647); the two rates are kept
    as numbers, as in [Results]. *)
Record Comparison (R : Type) : Type := mkComparison {
  cmp_name : string;
  cmp_metrics : SecurityMetrics R;
  cmp_key_length : Z
}.
Arguments mkComparison {R} _ _ _.
Arguments cmp_name {R} _.
Arguments cmp_metrics {R} _.
Arguments cmp_key_length {R} _.

(** The loop of lines 630-649 over the items still to visit; [results]
    holds the entries made so far.  An exception of one engine becomes
    that engine's entry and the loop goes on. *)
Fixpoint compare_loop {R : Type} {N : Number R}
  (items : list (string * Protocol)) (key_length : Z)
  (include_eavesdropping : bool) (custom_bits : option string)
  (results : list (string * (Py.exn + Comparison R)))
  : world -> option (list (string * (Py.exn + Comparison R))) * world :=
  fun w =>
    match items with
    | [] => (Some results, w)
    | (protocol_name, protocol) :: rest =>
        match generate_key protocol key_length include_eavesdropping
                custom_bits w with
        | (Ok key_data, w') =>
            let metrics :=
              QKDProtocol.calculate_security_metrics
                (alice_key key_data) (bob_key key_data)
                include_eavesdropping in
            compare_loop rest key_length include_eavesdropping custom_bits
              (results ++
               [(protocol_name,
                 inr {| cmp_name := QKDProtocol.name protocol;
                        cmp_metrics := metrics;
                        cmp_key_length := Py.len (alice_key key_data) |})])
              w'
        | (Raise e, w') =>
            compare_loop rest key_length include_eavesdropping custom_bits
              (results ++ [(protocol_name, inl e)]) w'
        | (Stuck, w') => (None, w')
        end
    end.

(** Lines 622-651, from the fields of the request on (taken as in
    [run_simulation]): the dictionary [results] as line 651 hands it to
    [jsonify], its items in the order they were inserted. *)
Definition compare_protocols {R : Type} {N : Number R}
  (key_length : Z) (include_eavesdropping use_custom_bits : bool)
  (custom_bits : string)
  : world -> option (list (string * (Py.exn + Comparison R))) * world :=
  compare_loop protocols_items key_length include_eavesdropping
    (if use_custom_bits then Py.truthy (Some custom_bits) else None) [].

(** [jsonify] of a dictionary (lines 557, 651): Flask's JSON provider
    writes the keys in sorted order (its [sort_keys] default, which
    app.py leaves as it is), whatever the order of insertion.  Python
    compares strings by character code. *)
Fixpoint insert_sorted {V : Type} (item : string * V)
  (items : list (string * V)) : list (string * V) :=
  match items with
  | [] => [item]
  | x :: rest =>
      if String.leb (fst item) (fst x) then item :: items
      else x :: insert_sorted item rest
  end.

Definition jsonify {V : Type} (d : list (string * V)) : list (string * V) :=
  fold_right insert_sorted [] d.

(** What [protocol_circuit] answers. *)
Inductive CircuitResponse : Type :=
| Circuit200 (protocol : string) (circuit : QKDProtocol.Drawing)
    (key_length : Z)
| Circuit400                         (* 'Invalid protocol' *)
| Circuit500 (error : QKDProtocol.CircuitFailure).

(** Lines 657-666, from the two query arguments on. *)
Definition protocol_circuit (protocol_name : string) (key_length : Z)
  : CircuitResponse :=
  match protocols protocol_name with
  | None => Circuit400
  | Some proto =>
      match QKDProtocol.get_circuit_text proto key_length with
      | inr circuit_text =>
          Circuit200 (QKDProtocol.name proto) circuit_text key_length
      | inl e => Circuit500 e
      end
  end.

(** *** The rates as the responses hold them

    Lines 607-608 and 642-643 format the two rates with [f"{x:.3f}"]:
    the decimal string of the value rounded to three decimals, the
    nearest one, and the even one when two are equally near. *)

Arguments res_keys {R} _.
Arguments res_key_length {R} _.
Arguments res_metrics {R} _.
Arguments res_status {R} _.

(** The integer nearest to [q], the even one of two equally near. *)
Definition round_half_even (q : Q) : Z :=
  let n := Qnum q in
  let d := Zpos (Qden q) in
  match 2 * (n mod d) ?= d with
  | Lt => n / d
  | Gt => n / d + 1
  | Eq => if Z.even (n / d) then n / d else n / d + 1
  end.

Definition digit_char (d : Z) : ascii := ascii_of_nat (48 + Z.to_nat d).

(** The decimal string of [n] thousandths, [n >= 0]. *)
Definition thousandths_string (n : Z) : string :=
  (NilZero.string_of_uint (N.to_uint (Z.to_N (n / 1000))) ++
   String "."
     (String (digit_char (n / 100 mod 10))
        (String (digit_char (n / 10 mod 10))
           (String (digit_char (n mod 10)) EmptyString))))%string.

(** [f"{x:.3f}"] for the number of the given sign and magnitude. *)
Definition format_3f (negative : bool) (magnitude : Q) : string :=
  ((if negative then "-" else "") ++
   thousandths_string (round_half_even (magnitude * 1000)))%string.

(** [f"{x:.3f}"] in the two readings of the evaluator's arithmetic.  A
    binary64 value is formatted from its exact value: sign, mantissa
    and exponent. *)
Class Shown (R : Type) : Type := { num_format_3f : R -> string }.

#[global] Instance exact_shown : Shown Q := {|
  num_format_3f := fun q => format_3f (Qltb q 0) (if Qltb q 0 then - q else q)
|}.

#[global] Instance binary64_shown : Shown PrimFloat.float := {|
  num_format_3f := fun x =>
    match FloatOps.Prim2SF x with
    | SpecFloat.S754_zero s => format_3f s 0
    | SpecFloat.S754_finite s m e => format_3f s (inject_Z (Zpos m) * 2 ^ e)
    | SpecFloat.S754_infinity s => if s then "-inf"%string else "inf"%string
    | SpecFloat.S754_nan => "nan"%string
    end
|}.

(** The fields ['agreement_rate'] and ['qber'] of a response. *)
Definition shown_rates {R : Type} {S : Shown R} (m : SecurityMetrics R)
  : string * string :=
  (num_format_3f (agreement_rate m), num_format_3f (qber m)).

(* ================================================================== *)
(** ** Vocabulary of the statements *)
(* ================================================================== *)

(** *** Worlds and logs *)

(** Every job of the log returned a memory its circuit allows. *)
Definition faithful (js : list (Qiskit.QuantumCircuit * Qiskit.Memory))
  : Prop :=
  Forall (fun j => Qiskit.allowed (fst j) (snd j) = true) js.

(** [faithful], as a test that evaluates. *)
Definition all_allowed
  (new : list (Qiskit.QuantumCircuit * Qiskit.Memory)) : Prop :=
  forallb (fun j => Qiskit.allowed (fst j) (snd j)) new = true.

(** [w'] comes after [w]: the log only grew and nothing was put back on
    the tapes. *)
Definition after (w w' : world) : Prop :=
  (exists new, jobs w' = jobs w ++ new) /\ (budget w' <= budget w)%nat.

(** [steady m]: whatever [m] does, the world it leaves comes after the
    one it started in. *)
Definition steady {A : Type} (m : M A) : Prop :=
  forall w r w', m w = (r, w') -> after w w'.

(** [eager m]: [m] returns or raises only after reading a tape. *)
Definition eager {A : Type} (m : M A) : Prop :=
  forall w r w', m w = (r, w') -> r <> Stuck -> (budget w' < budget w)%nat.

(** [careful m]: [m] raises only after reading a tape. *)
Definition careful {A : Type} (m : M A) : Prop :=
  forall w x w', m w = (Raise x, w') -> (budget w' < budget w)%nat.

(** [shaped sizes s]: [s] is the memory string of a memory whose
    registers have the sizes [sizes]. *)
Definition shaped (sizes : list nat) (s : string) : Prop :=
  exists m, s = Qiskit.memory_string m /\
            map (@List.length bool) m = sizes.

(** [safe m post]: whenever [m] ends with a log in which every answer is
    one its circuit allows, it has not raised, and what it returned
    satisfies [post]. *)
Definition safe {A : Type} (m : M A) (post : A -> Prop) : Prop :=
  forall w r w', m w = (r, w') -> faithful (jobs w') ->
    match r with
    | Ok a => post a
    | Raise _ => False
    | Stuck => True
    end.

(** *** Passes of the loops *)

(** What a pass of a custom-bits sifting loop may do to the loop
    variables: on a basis match append one bit and advance the cursor,
    otherwise leave both alone. *)
Definition sifted {B : Type} (r : Round B) (st st' : sift) : Prop :=
  (alice_basis r = bob_basis r /\
   exists b, st' = {| sift_bob_key := sift_bob_key st ++ [b];
                      bit_index := S (bit_index st) |}) \/
  (alice_basis r <> bob_basis r /\ st' = st).

(** What a pass of a random-mode sifting loop may do to the two keys. *)
Definition grown (keys keys' : list Z * list Z) : Prop :=
  keys' = keys \/
  exists a b, keys' = (fst keys ++ [a], snd keys ++ [b]).

(** Passes still to go when the key under construction is [key] . *)
Definition to_go (k : Z) (key : list Z) : nat := Z.to_nat (k - Py.len key).

(** [drives m ent sh a new]: started on tapes that begin with [ent] and
    [sh], [m] reads exactly these, returns [a] and logs the jobs [new]. *)
Definition drives {A : Type} (m : M A) (ent : list Z)
  (sh : list Qiskit.Memory) (a : A)
  (new : list (Qiskit.QuantumCircuit * Qiskit.Memory)) : Prop :=
  forall ent' sh' js,
    m {| entropy := ent ++ ent'; shots := sh ++ sh'; jobs := js |} =
    (Ok a, {| entropy := ent'; shots := sh'; jobs := js ++ new |}).

(** [drives] for a loop, for every bound on the passes that exceeds the
    number of random words read. *)
Definition drives_loop {S : Type} (cond : S -> bool) (body : S -> M S)
  (s : S) (ent : list Z) (sh : list Qiskit.Memory) (r : S)
  (new : list (Qiskit.QuantumCircuit * Qiskit.Memory)) : Prop :=
  forall fuel, (List.length ent < fuel)%nat ->
               drives (while_fuel fuel cond body s) ent sh r new.

(** A word for which [random.random()] is 0.5: the eavesdropper, if
    there is one, lets the round pass. *)
Definition quiet (include_eavesdropping : bool) : list Z :=
  if include_eavesdropping then [4503599627370496] else [].

(** *** Keys and custom bits *)

(** [b] is 0 or 1. *)
Definition is_bit (b : Z) : Prop := b = 0 \/ b = 1.

(** The bits a string over ['0'], ['1'] spells. *)
Definition bits_of (l : list ascii) : list Z :=
  map (fun c => if Ascii.eqb c "1" then 1 else 0) l.

(** [c] is one of ['0'..'9']. *)
Definition is_digit (c : ascii) : bool :=
  match Py.digit_value c with Some _ => true | None => false end.

(** What makes the engines reject [custom_bits]: a character that is not
    a decimal digit, or fewer characters than [key_length]. *)
Definition engine_rejects (custom_bits : string) (key_length : Z) : Prop :=
  forallb is_digit (list_ascii_of_string custom_bits) = false \/
  Z.of_nat (String.length custom_bits) < key_length.

(** What makes [run_simulation] reject [custom_bits]: a character other
    than ['0'] and ['1'], or fewer characters than [key_length]. *)
Definition route_rejects (custom_bits : string) (key_length : Z) : Prop :=
  forallb Py.in_01 (list_ascii_of_string custom_bits) = false \/
  Z.of_nat (String.length custom_bits) < key_length.

(** The calls for which agreement of the two keys follows from the
    backend alone: BB84 in random mode or with binary custom bits, and
    E91 and BBM92 in random mode. *)
Definition agreement_scope (p : Protocol) (custom_bits : option string)
  : Prop :=
  match p with
  | BB84 =>
      match Py.truthy custom_bits with
      | Some s => forallb Py.in_01 (list_ascii_of_string s) = true
      | None => True
      end
  | E91 | BBM92 => Py.truthy custom_bits = None
  | Teleportation => False
  end.

(** Number of positions, among the first [min(len a, len b)], where the
    two keys hold the same bit. *)
Definition agreeing_positions (a b : list Z) : nat :=
  List.length
    (filter (fun i => nth i a 0 =? nth i b 0)
       (seq 0 (Nat.min (List.length a) (List.length b)))).

(** What a run shows apart from Alice's key: Bob's key or the failure,
    and the world it leaves. *)
Definition bob_view (r : result KeyPair * world) : result (list Z) * world :=
  (match fst r with
   | Ok kp => Ok (bob_key kp)
   | Raise x => Raise x
   | Stuck => Stuck
   end, snd r).

(** What Bob's view is in the custom-bits mode of E91 and BBM92: the
    sifting loop alone. *)
Definition pair_sifting (p : Protocol) (k : Z) (e : bool) : M sift :=
  while (fun st => Py.len (sift_bob_key st) <? k)
    (fun st =>
       match p with
       | BBM92 => r <- BBM92Protocol.custom_attempt e st ;; ret (snd r)
       | _ => r <- E91Protocol.custom_attempt e st ;; ret (snd r)
       end)
    {| sift_bob_key := []; bit_index := 0 |}.

(** *** Resources, invariants and related runs *)

(** [spent c e w w']: between [w] and [w'] at least one job was run, and
    without an eavesdropper exactly one, with [c] numbers drawn. *)
Definition spent (c : nat) (e : bool) (w w' : world) : Prop :=
  (List.length (jobs w) < List.length (jobs w'))%nat /\
  (List.length (entropy w') <= List.length (entropy w))%nat /\
  (e = false ->
   List.length (jobs w') = S (List.length (jobs w)) /\
   List.length (entropy w) = (c + List.length (entropy w'))%nat).

(** Circuits that allow the same answers. *)
Definition equi_allowed (qc1 qc2 : Qiskit.QuantumCircuit) : Prop :=
  forall m, Qiskit.allowed qc1 m = Qiskit.allowed qc2 m.

(** Worlds with the same tapes, whose logs hold the same answers, given
    to circuits that allow the same answers. *)
Definition similar (w1 w2 : world) : Prop :=
  entropy w1 = entropy w2 /\ shots w1 = shots w2 /\
  Forall2 (fun j1 j2 => equi_allowed (fst j1) (fst j2) /\ snd j1 = snd j2)
    (jobs w1) (jobs w2).

(** [alike R m1 m2]: started in similar worlds, [m1] and [m2] end in
    similar worlds, both returning (values related by [R]), both raising
    the same exception, or both without a result. *)
Definition alike {A : Type} (R : A -> A -> Prop) (m1 m2 : M A) : Prop :=
  forall w1 w2, similar w1 w2 ->
    similar (snd (m1 w1)) (snd (m2 w2)) /\
    match fst (m1 w1), fst (m2 w2) with
    | Ok a1, Ok a2 => R a1 a2
    | Raise x1, Raise x2 => x1 = x2
    | Stuck, Stuck => True
    | _, _ => False
    end.

(** The loop variables of a custom-bits sifting loop as the loop keeps
    them: the cursor counts the bits kept, and these are bits. *)
Definition sift_bits (st : sift) : Prop :=
  bit_index st = List.length (sift_bob_key st) /\
  Forall is_bit (sift_bob_key st).

(** Both keys under construction hold bits. *)
Definition key_bits (keys : list Z * list Z) : Prop :=
  Forall is_bit (fst keys) /\ Forall is_bit (snd keys).

(** Random numbers drawn for every job of a sifting engine that runs
    without an eavesdropper. *)
Definition draws_per_job (p : Protocol) (custom_bits : option string) : nat :=
  match p, Py.truthy custom_bits with
  | BB84, None => 3
  | _, _ => 2
  end.

(** The integer a memory bit reads as. *)
Definition bit_value (b : bool) : Z := if b then 1 else 0.

(** The engines accept [custom_bits]: none to use, or a string that
    passes their validation. *)
Definition accepted (custom_bits : option string) (key_length : Z) : Prop :=
  match Py.truthy custom_bits with
  | Some s => exists ak, custom_alice_key s key_length = inr ak
  | None => True
  end.

(** The first character of a string that is not a decimal digit. *)
Definition first_non_digit (s : string) : option ascii :=
  find (fun c => negb (is_digit c)) (list_ascii_of_string s).

(** Compared positions at which the keys differ. *)
Definition differing_positions (a b : list Z) : nat :=
  Nat.min (List.length a) (List.length b) - agreeing_positions a b.

(** The fields of the evaluator's result fit together: the level is one
    of the three, and [is_secure] holds exactly when it is not
    ['Low']. *)
Definition consistent {R : Type} (m : SecurityMetrics R) : Prop :=
  (is_secure m = true <-> security_level m <> "Low"%string) /\
  (security_level m = "High"%string \/ security_level m = "Medium"%string \/
   security_level m = "Low"%string).

(** *** The routes *)

(** What a response of [run_simulation] becomes as an entry of the
    comparison; a 400 response has no counterpart there. *)
Definition entry_of {R : Type} (resp : Response R)
  : option (Py.exn + Comparison R) :=
  match resp with
  | Http200 r =>
      Some (inr {| cmp_name := protocol (res_keys r);
                   cmp_metrics := res_metrics r;
                   cmp_key_length := res_key_length r |})
  | Http500 x => Some (inl x)
  | Http400 _ => None
  end.

(** Successive calls of [run_simulation], one for each name, each
    starting in the world the call before left; [results] collects the
    entries. *)
Fixpoint simulate_each {R : Type} {N : Number R} (names : list string)
  (key_length : Z) (include_eavesdropping use_custom_bits : bool)
  (custom_bits : string)
  (results : list (string * (Py.exn + Comparison R)))
  : world -> option (list (string * (Py.exn + Comparison R))) * world :=
  fun w =>
    match names with
    | [] => (Some results, w)
    | name :: rest =>
        match run_simulation name key_length include_eavesdropping
                use_custom_bits custom_bits w with
        | (Some resp, w') =>
            match entry_of resp with
            | Some entry =>
                simulate_each rest key_length include_eavesdropping
                  use_custom_bits custom_bits (results ++ [(name, entry)]) w'
            | None => (None, w')
            end
        | (None, w') => (None, w')
        end
    end.

(** *** Draws and circuits of a round *)

(** The value [random.random()] returns for the word [n]. *)
Definition random_value (n : Z) : Q := Qmake (n mod 2 ^ 53) (2 ^ 53).

(** The basis [random.choice(['rectilinear', 'diagonal'])] returns for the
    word [n]. *)
Definition chosen_basis (n : Z) : string :=
  if n mod 2 =? 0 then "rectilinear"%string else "diagonal"%string.

(** BB84: the circuit Eve measures and the one Bob measures after an
    interception. *)
Definition eve_circuit (alice_bit alice_basis eve_basis : Z)
  : Qiskit.QuantumCircuit :=
  Qiskit.measure 0 0
    (Qiskit.gate_if (eve_basis =? 1) (Qiskit.h 0)
       (Qiskit.gate_if (alice_basis =? 1) (Qiskit.h 0)
          (Qiskit.gate_if (alice_bit =? 1) (Qiskit.x 0) (Qiskit.new 1 1)))).

Definition resent_circuit (eve_result eve_basis bob_basis : Z)
  : Qiskit.QuantumCircuit :=
  Qiskit.measure 0 0
    (Qiskit.gate_if (bob_basis =? 1) (Qiskit.h 0)
       (Qiskit.gate_if (eve_basis =? 1) (Qiskit.h 0)
          (Qiskit.gate_if (eve_result =? 1) (Qiskit.x 0) (Qiskit.new 1 1)))).

(** BBM92: the circuit Eve measures and the one measured after her,
    prepared from the bits [q0], [q1] she read. *)
Definition bbm92_eve_circuit (alice_basis bob_basis : string)
  : Qiskit.QuantumCircuit :=
  Qiskit.measure_all
    (BBM92Protocol.rotate alice_basis bob_basis
       (Qiskit.cx 0 1 (Qiskit.h 0 (Qiskit.new 2 2)))).

Definition bbm92_resent_circuit (alice_basis bob_basis : string)
  (q0 q1 : bool) : Qiskit.QuantumCircuit :=
  Qiskit.measure 1 1
    (Qiskit.measure 0 0
       (BBM92Protocol.rotate alice_basis bob_basis
          (Qiskit.gate_if q1 (Qiskit.x 1)
             (Qiskit.gate_if q0 (Qiskit.x 0) (Qiskit.new 2 2))))).

(** Teleportation: Alice's circuit, for a secret bit and the qubit the
    eavesdropper flips, if any. *)
Definition alice_teleport_circuit (secret_is_1 : bool)
  (eve : option nat) : Qiskit.QuantumCircuit :=
  let qc := Qiskit.new 3 3 in
  let qc := Qiskit.gate_if secret_is_1 (Qiskit.x 0) qc in
  let qc := Qiskit.h 1 qc in
  let qc := Qiskit.cx 1 2 qc in
  let qc := Qiskit.cx 0 1 qc in
  let qc := Qiskit.h 0 qc in
  let qc := match eve with Some q => Qiskit.x q qc | None => qc end in
  Qiskit.measure 1 1 (Qiskit.measure 0 0 qc).

(** E91 and BBM92: the circuit of a round in which Alice measures in
    the first basis and Bob in the second. *)
Definition pair_stall_circuit : Qiskit.QuantumCircuit :=
  Qiskit.measure 1 1
    (Qiskit.measure 0 0
       (Qiskit.h 1 (Qiskit.cx 0 1 (Qiskit.h 0 (Qiskit.new 2 2))))).

(** The instructions BB84's [build_circuit] adds for qubit [i]. *)
Definition bb84_gates (i : nat) : list Qiskit.Instruction :=
  if (i mod 2 =? 0)%nat then [Qiskit.Measure i i]
  else [Qiskit.HGate i; Qiskit.Measure i i].

(** *** How a run can end, and what a pass can do *)

(** [starved m]: [m] ends without a result only when it asks for a
    random word or a backend answer and the tape holds none. *)
Definition starved {A : Type} (m : M A) : Prop :=
  forall w w', m w = (Stuck, w') -> entropy w' = [] \/ shots w' = [].

(** [custom_bits], when it is used, has at least [key_length]
    characters. *)
Definition long_enough (custom_bits : option string) (key_length : Z)
  : Prop :=
  match Py.truthy custom_bits with
  | Some s => key_length <= Z.of_nat (String.length s)
  | None => True
  end.

(** The two keys are equal, and the evaluator reports agreement 1 and
    QBER 0: in exact arithmetic, and in binary64 for a key length below
    [2^53], the lengths that convert to a double exactly. *)
Definition full_agreement (k : Z) (kp : KeyPair) : Prop :=
  bob_key kp = alice_key kp /\
  (let m := QKDProtocol.calculate_security_metrics (R := Q)
              (alice_key kp) (bob_key kp) false in
   (agreement_rate m == 1 /\ qber m == 0)%Q) /\
  (k < 2 ^ 53 ->
   let m := QKDProtocol.calculate_security_metrics (R := float)
              (alice_key kp) (bob_key kp) false in
   agreement_rate m = 1%float /\ qber m = 0%float).



(** *** Runs used as examples *)

(** A BB84 run: both bases are 0 and the qubit is measured as 0. *)
Definition bb84_world : world :=
  {| entropy := [0; 0]; shots := [ [[false]] ]; jobs := [] |}.

(** Two BB84 passes: bases (0,1), then (0,0) with the qubit measured
    as 1. *)
Definition retry_world : world :=
  {| entropy := [0; 1; 0; 0]; shots := [ [[true]]; [[true]] ]; jobs := [] |}.

(** A BB84 run with an eavesdropper who intercepts the first qubit. *)
Definition tapped_world : world :=
  {| entropy := [1; 1; 1; 0; 1; 0; 0; 0; 4503599627370496];
     shots := [ [[true]]; [[true]]; [[false]] ];
     jobs := [] |}.

(** An E91 run in random mode: bases (2,2), (0,1), (1,1). *)
Definition e91_world : world :=
  {| entropy := [2; 2; 0; 1; 1; 1];
     shots := [ [[true; false]]; [[true; true]]; [[false; false]] ];
     jobs := [] |}.

(** An E91 or BBM92 run in custom-bits mode: both bases are 0 and the
    pair is measured as ["00"]. *)
Definition pair_world : world :=
  {| entropy := [0; 0]; shots := [ [[false; false]] ]; jobs := [] |}.

(** A Teleportation run in random mode: the secret bit is 0, the backend
    returns ["010"] for Alice's circuit and ["1"] for Bob's. *)
Definition teleport_world : world :=
  {| entropy := [0];
     shots := [ [[false; true; false]]; [[true]] ];
     jobs := [] |}.

(** The same run with the secret bit taken from [custom_bits = "0"]. *)
Definition teleport_custom_world : world :=
  {| entropy := [];
     shots := [ [[false; true; false]]; [[true]] ];
     jobs := [] |}.

(** A backend that returns a memory without registers. *)
Definition broken_world : world :=
  {| entropy := [0; 0; 0]; shots := [ [] ]; jobs := [] |}.

(** One key bit for each of the four engines in turn, in random mode
    and without eavesdropper. *)
Definition comparison_world : world :=
  {| entropy := [0; 0; 0; 0; 0; 0; 0; 0];
     shots := [ [[false]]; [[false; false]]; [[false; false]];
                [[false; false; false]]; [[false]] ];
     jobs := [] |}.


(** A BBM92 round in which the eavesdropper intercepts: both bases
    rectilinear, Eve reads ["11"] and so do the two parties. *)
Definition tapped_pair_world : world :=
  {| entropy := [0; 0; 0];
     shots := [ [[false; false]; [true; true]]; [[true; true]] ];
     jobs := [] |}.

(* ================================================================== *)
(** ** Reasoning about runs *)
(* ================================================================== *)

Section Runs.

Context {A B : Type}.

Lemma bind_Ok (m : M A) (f : A -> M B) w b w' :
  bind m f w = (Ok b, w') ->
  exists a w1, m w = (Ok a, w1) /\ f a w1 = (Ok b, w').
Proof.
  unfold bind. destruct (m w) as [[a | e |] w1]; try discriminate.
  intros H. exists a, w1. split; [reflexivity | exact H].
Qed.

Lemma bind_Raise (m : M A) (f : A -> M B) w e w' :
  bind m f w = (Raise e, w') ->
  m w = (Raise e, w') \/
  exists a w1, m w = (Ok a, w1) /\ f a w1 = (Raise e, w').
Proof.
  unfold bind. destruct (m w) as [[a | e1 |] w1]; try discriminate.
  - intros H. right. exists a, w1. split; [reflexivity | exact H].
  - intros H. left. inversion H. reflexivity.
Qed.

Lemma ret_Ok (a a' : A) w w' : ret a w = (Ok a', w') -> a' = a /\ w' = w.
Proof. unfold ret. intros H. inversion H. split; reflexivity. Qed.

Lemma lift_Ok (r : Py.exn + A) a w w' :
  lift r w = (Ok a, w') -> r = inr a /\ w' = w.
Proof.
  unfold lift. destruct r; intros H; inversion H. split; reflexivity.
Qed.

End Runs.

Lemma run_Ok qc s w w' :
  Backend.run qc w = (Ok s, w') ->
  exists m, s = Qiskit.memory_string m /\ shots w = m :: shots w' /\
            entropy w' = entropy w /\ jobs w' = jobs w ++ [(qc, m)].
Proof.
  unfold Backend.run. destruct (shots w) eqn:E; intros H; inversion H.
  subst. simpl. eexists. repeat split.
Qed.

(** Inversion of a run that returned normally, one statement at a time. *)
Ltac run_inv H :=
  lazymatch type of H with
  | bind _ _ _ = (Ok _, _) =>
      apply bind_Ok in H; destruct H as (? & ? & ? & H);
      cbv beta zeta in H
  | ret _ _ = (Ok _, _) =>
      apply ret_Ok in H; destruct H as [? ?]
  | lift _ _ = (Ok _, _) =>
      apply lift_Ok in H; destruct H as [? ?]
  end.

Ltac runs :=
  repeat first
    [ match goal with
      | H : bind _ _ _ = (Ok _, _) |- _ => run_inv H
      | H : ret _ _ = (Ok _, _) |- _ => run_inv H
      | H : lift _ _ = (Ok _, _) |- _ => run_inv H
      | H : (_, _) = (_, _) |- _ => inversion H; clear H
      | H : (if true then _ else _) _ = _ |- _ => cbv iota in H
      | H : (if false then _ else _) _ = _ |- _ => cbv iota in H
      end
    | progress subst ].

(** *** What a run leaves of the world *)

Lemma after_refl w : after w w.
Proof. split; [exists []; symmetry; apply app_nil_r | lia]. Qed.

Lemma after_trans w1 w2 w3 : after w1 w2 -> after w2 w3 -> after w1 w3.
Proof.
  intros [[n1 J1] B1] [[n2 J2] B2]. split; [| lia].
  exists (n1 ++ n2). rewrite J2, J1. symmetry. apply app_assoc.
Qed.

Lemma faithful_before w w' :
  after w w' -> faithful (jobs w') -> faithful (jobs w).
Proof.
  intros [[new J] _] F. unfold faithful in *. rewrite J in F.
  apply Forall_app in F. tauto.
Qed.

Section Steady.

Context {A B : Type}.

Lemma steady_ret (a : A) : steady (ret a).
Proof. intros w r w' H. inversion H. apply after_refl. Qed.

Lemma steady_lift (r : Py.exn + A) : steady (lift r).
Proof. intros w r' w' H. destruct r; inversion H; apply after_refl. Qed.

Lemma steady_bind (m : M A) (f : A -> M B) :
  steady m -> (forall a, steady (f a)) -> steady (bind m f).
Proof.
  intros Hm Hf w r w'. unfold bind.
  destruct (m w) as [[a | e |] w1] eqn:E; intros H.
  - eapply after_trans; [eapply Hm, E | eapply Hf, H].
  - inversion H; subst. eapply Hm, E.
  - inversion H; subst. eapply Hm, E.
Qed.

Lemma eager_bind (m : M A) (f : A -> M B) :
  eager m -> (forall a, steady (f a)) -> eager (bind m f).
Proof.
  intros Hm Hf w r w'. unfold bind.
  destruct (m w) as [[a | e |] w1] eqn:E; intros H NS.
  - assert (budget w1 < budget w)%nat by (eapply Hm; [exact E | discriminate]).
    destruct (Hf a _ _ _ H) as [_ Hb]. lia.
  - inversion H; subst. eapply Hm; [exact E | discriminate].
  - inversion H; subst. contradiction.
Qed.

End Steady.

Lemma steady_word : steady Random.word.
Proof.
  intros w r w'. unfold Random.word. destruct (entropy w) eqn:E;
    intros H; inversion H; subst.
  - apply after_refl.
  - split; [exists []; simpl; symmetry; apply app_nil_r |].
    unfold budget. simpl. rewrite E. simpl. lia.
Qed.

Lemma eager_word : eager Random.word.
Proof.
  intros w r w'. unfold Random.word. destruct (entropy w) eqn:E;
    intros H NS; inversion H; subst.
  - contradiction.
  - unfold budget. simpl. rewrite E. simpl. lia.
Qed.

Lemma steady_run qc : steady (Backend.run qc).
Proof.
  intros w r w'. unfold Backend.run. destruct (shots w) eqn:E;
    intros H; inversion H; subst.
  - apply after_refl.
  - split; [eexists; reflexivity |].
    unfold budget. simpl. rewrite E. simpl. lia.
Qed.

Lemma eager_run qc : eager (Backend.run qc).
Proof.
  intros w r w'. unfold Backend.run. destruct (shots w) eqn:E;
    intros H NS; inversion H; subst.
  - contradiction.
  - unfold budget. simpl. rewrite E. simpl. lia.
Qed.

Lemma steady_while_fuel {S : Type} (cond : S -> bool) (body : S -> M S) :
  (forall s, steady (body s)) ->
  forall fuel s, steady (while_fuel fuel cond body s).
Proof.
  intros Hb. induction fuel as [| fuel IH]; intros s; simpl.
  - intros w r w' H. inversion H. apply after_refl.
  - destruct (cond s).
    + apply steady_bind; [apply Hb | intros; apply IH].
    + apply steady_ret.
Qed.

Lemma steady_while {S : Type} (cond : S -> bool) (body : S -> M S) s :
  (forall s, steady (body s)) -> steady (while cond body s).
Proof.
  intros Hb w r w' H. unfold while in H.
  eapply steady_while_fuel; eauto.
Qed.

Lemma steady_for_each {A S : Type} (body : A -> S -> M S) :
  (forall a s, steady (body a s)) ->
  forall l s, steady (for_each l body s).
Proof.
  intros Hb. induction l as [| a l IH]; intros s; simpl.
  - apply steady_ret.
  - apply steady_bind; [apply Hb | intros; apply IH].
Qed.

(** Proves [steady] for straight-line code over the primitives. *)
Ltac steady_tac :=
  repeat first
    [ apply steady_ret
    | apply steady_lift
    | apply steady_word
    | apply steady_run
    | apply steady_bind; [| intros ]
    | match goal with
      | |- steady (if ?b then _ else _) => destruct b
      | |- steady (let '(_, _) := ?r in _) => destruct r
      | |- steady (match ?r with _ => _ end) => destruct r
      | |- steady (Random.randint _ _) => unfold Random.randint
      | |- steady Random.random => unfold Random.random
      | |- steady (Random.choice _) => unfold Random.choice
      | |- steady (eve_acts _ _) => unfold eve_acts
      end ].

Lemma eager_randint a b : eager (Random.randint a b).
Proof.
  unfold Random.randint. apply eager_bind; [apply eager_word |].
  intros. steady_tac.
Qed.

Lemma eager_choice {A : Type} (l : list A) : eager (Random.choice l).
Proof.
  unfold Random.choice. apply eager_bind; [apply eager_word |].
  intros. steady_tac.
Qed.

Lemma steady_teleport e s : steady (TeleportationQKD.teleport e s).
Proof. unfold TeleportationQKD.teleport. steady_tac. Qed.

(** *** Loops *)

Lemma while_fuel_inv {S : Type} (I : S -> world -> Prop) (cond : S -> bool)
  (body : S -> M S) :
  (forall s w s' w',
      cond s = true -> I s w -> body s w = (Ok s', w') -> I s' w') ->
  forall fuel s w s' w',
    I s w -> while_fuel fuel cond body s w = (Ok s', w') ->
    I s' w' /\ cond s' = false.
Proof.
  intros Hbody. induction fuel as [| fuel IH]; intros s w s' w' Hs H.
  - discriminate.
  - simpl in H. destruct (cond s) eqn:C.
    + run_inv H. eapply IH; [| exact H]. eapply Hbody; eauto.
    + run_inv H. subst. split; assumption.
Qed.

Lemma while_inv {S : Type} (I : S -> world -> Prop) (cond : S -> bool)
  (body : S -> M S) s w s' w' :
  (forall s w s' w',
      cond s = true -> I s w -> body s w = (Ok s', w') -> I s' w') ->
  I s w -> while cond body s w = (Ok s', w') ->
  I s' w' /\ cond s' = false.
Proof. intros Hbody Hs H. eapply while_fuel_inv; eauto. Qed.

Lemma for_each_inv {A S : Type} (I : list A -> S -> world -> Prop)
  (body : A -> S -> M S) :
  (forall done a s w s' w',
      I done s w -> body a s w = (Ok s', w') -> I (done ++ [a]) s' w') ->
  forall l done s w s' w',
    I done s w -> for_each l body s w = (Ok s', w') -> I (done ++ l) s' w'.
Proof.
  intros Hbody. induction l as [| a l IH]; intros done s w s' w' Hs H.
  - simpl in H. run_inv H. subst. rewrite app_nil_r. exact Hs.
  - simpl in H. run_inv H.
    replace (done ++ a :: l) with ((done ++ [a]) ++ l)
      by (rewrite <- app_assoc; reflexivity).
    eapply IH; [| exact H]. eapply Hbody; eauto.
Qed.

(** *** One pass of each loop *)

Lemma bb84_custom_attempt_Ok e ak st w r st' w' :
  BB84Protocol.custom_attempt e ak st w = (Ok (r, st'), w') ->
  alice_bit r = nth_error ak (bit_index st) /\ sifted r st st'.
Proof.
  unfold BB84Protocol.custom_attempt. intros H. runs.
  match goal with
  | G : Py.list_getitem _ _ = inr ?b |- _ =>
      unfold Py.list_getitem in G;
      destruct (nth_error ak (bit_index st)) eqn:N; inversion G; subst
  end.
  split; [reflexivity |]. unfold sifted. simpl.
  match goal with |- context [?a =? ?b] => destruct (a =? b) eqn:E end.
  - left. apply Z.eqb_eq in E. split; [exact E | eexists; reflexivity].
  - right. apply Z.eqb_neq in E. split; [exact E | reflexivity].
Qed.

Lemma e91_custom_attempt_Ok e st w r st' w' :
  E91Protocol.custom_attempt e st w = (Ok (r, st'), w') ->
  alice_bit r = None /\ sifted r st st'.
Proof.
  unfold E91Protocol.custom_attempt. intros H.
  run_inv H. destruct x as [[ab bb] ms].
  destruct (ab =? bb) eqn:E; runs.
  - split; [reflexivity |]. left. simpl. apply Z.eqb_eq in E.
    split; [exact E | eexists; reflexivity].
  - split; [reflexivity |]. right. simpl. apply Z.eqb_neq in E.
    split; [exact E | reflexivity].
Qed.

Lemma bbm92_custom_attempt_Ok e st w r st' w' :
  BBM92Protocol.custom_attempt e st w = (Ok (r, st'), w') ->
  alice_bit r = None /\ sifted r st st'.
Proof.
  unfold BBM92Protocol.custom_attempt. intros H.
  run_inv H. destruct x as [[ab bb] ms].
  destruct (String.eqb ab bb) eqn:E; runs.
  - split; [reflexivity |]. left. simpl. apply String.eqb_eq in E.
    split; [exact E | eexists; reflexivity].
  - split; [reflexivity |]. right. simpl. apply String.eqb_neq in E.
    split; [exact E | reflexivity].
Qed.

Lemma bb84_random_attempt_Ok e keys w keys' w' :
  BB84Protocol.random_attempt e keys w = (Ok keys', w') -> grown keys keys'.
Proof.
  unfold BB84Protocol.random_attempt. intros H. runs.
  match goal with |- context [?a =? ?b] => destruct (a =? b) end.
  - right. eexists _, _. reflexivity.
  - left. reflexivity.
Qed.

Lemma e91_random_attempt_Ok e keys w keys' w' :
  E91Protocol.random_attempt e keys w = (Ok keys', w') -> grown keys keys'.
Proof.
  unfold E91Protocol.random_attempt. intros H.
  run_inv H. destruct x as [[ab bb] ms]. destruct (ab =? bb); runs.
  - right. eexists _, _. reflexivity.
  - left. reflexivity.
Qed.

Lemma bbm92_random_attempt_Ok e keys w keys' w' :
  BBM92Protocol.random_attempt e keys w = (Ok keys', w') -> grown keys keys'.
Proof.
  unfold BBM92Protocol.random_attempt. intros H.
  run_inv H. destruct x as [[ab bb] ms]. destruct (String.eqb ab bb); runs.
  - right. eexists _, _. reflexivity.
  - left. reflexivity.
Qed.

(** *** Lengths *)

Lemma len_app {A : Type} (l : list A) (a : A) :
  Py.len (l ++ [a]) = Py.len l + 1.
Proof. unfold Py.len. rewrite length_app. simpl. lia. Qed.

Lemma map_exn_length {A B : Type} (f : A -> Py.exn + B) l bs :
  map_exn f l = inr bs -> List.length bs = List.length l.
Proof.
  revert bs. induction l as [| a l IH]; simpl; intros bs H.
  - inversion H. reflexivity.
  - destruct (f a); [discriminate |].
    destruct (map_exn f l); [discriminate |].
    inversion H. simpl. f_equal. apply IH. reflexivity.
Qed.

Lemma custom_alice_key_inr s k ak :
  custom_alice_key s k = inr ak ->
  exists l, map_exn Py.int_of_char (list_ascii_of_string s) = inr l /\
            k <= Py.len l /\ ak = Py.slice_to l k.
Proof.
  unfold custom_alice_key.
  destruct (map_exn Py.int_of_char (list_ascii_of_string s)) as [| l];
    [discriminate |].
  destruct (Py.len l <? k) eqn:E; [discriminate |].
  intros H. inversion H. apply Z.ltb_ge in E. exists l. auto.
Qed.

Lemma slice_to_len {A : Type} (l : list A) k :
  0 <= k <= Py.len l -> Py.len (Py.slice_to l k) = k.
Proof.
  intros [H0 H1]. unfold Py.slice_to.
  destruct (0 <=? k) eqn:E; [| apply Z.leb_gt in E; lia].
  unfold Py.len in *. rewrite length_firstn. lia.
Qed.

Lemma custom_alice_key_len s k ak :
  0 <= k -> custom_alice_key s k = inr ak -> Py.len ak = k.
Proof.
  intros Hk H. apply custom_alice_key_inr in H.
  destruct H as (l & _ & Hl & ->). apply slice_to_len. lia.
Qed.

(** A custom-bits sifting loop stops with [bob_key] exactly [key_length]
    long, and the cursor has kept pace with it. *)
Lemma sift_loop_Ok (body : sift -> M sift) k st w st' w' :
  (forall st w st' w',
      body st w = (Ok st', w') ->
      st' = st \/
      exists b, st' = {| sift_bob_key := sift_bob_key st ++ [b];
                         bit_index := S (bit_index st) |}) ->
  Py.len (sift_bob_key st) <= k ->
  bit_index st = List.length (sift_bob_key st) ->
  while (fun st => Py.len (sift_bob_key st) <? k) body st w = (Ok st', w') ->
  Py.len (sift_bob_key st') = k /\
  bit_index st' = List.length (sift_bob_key st').
Proof.
  intros Hbody Hle Hidx H.
  apply (while_inv
           (fun st _ => Py.len (sift_bob_key st) <= k /\
                        bit_index st = List.length (sift_bob_key st)))
    in H.
  - destruct H as [[H1 H2] H3]. apply Z.ltb_ge in H3. split; [lia | exact H2].
  - intros s w1 s' w1' C [I1 I2] B. apply Z.ltb_lt in C.
    destruct (Hbody _ _ _ _ B) as [-> | [b ->]]; [split; assumption |].
    simpl. rewrite len_app, length_app. simpl. split; lia.
  - split; assumption.
Qed.

(** A random-mode sifting loop stops with both keys exactly [key_length]
    long. *)
Lemma grow_loop_Ok (body : list Z * list Z -> M (list Z * list Z)) k
  keys w keys' w' :
  (forall keys w keys' w', body keys w = (Ok keys', w') -> grown keys keys') ->
  Py.len (fst keys) <= k ->
  List.length (fst keys) = List.length (snd keys) ->
  while (fun keys => Py.len (fst keys) <? k) body keys w = (Ok keys', w') ->
  Py.len (fst keys') = k /\ Py.len (snd keys') = k.
Proof.
  intros Hbody Hle Heq H.
  apply (while_inv
           (fun keys _ => Py.len (fst keys) <= k /\
                          List.length (fst keys) = List.length (snd keys)))
    in H.
  - destruct H as [[H1 H2] H3]. apply Z.ltb_ge in H3.
    unfold Py.len in *. split; lia.
  - intros s w1 s' w1' C [I1 I2] B. apply Z.ltb_lt in C.
    destruct (Hbody _ _ _ _ B) as [-> | (a & b & ->)]; [split; assumption |].
    simpl. rewrite len_app, !length_app. simpl. split; lia.
  - split; assumption.
Qed.

Lemma range_length k : Py.len (range k) = Z.max 0 k.
Proof. unfold Py.len, range. rewrite length_seq. lia. Qed.

Lemma teleport_custom_loop_Ok e ak l bob w bob' w' :
  for_each l (TeleportationQKD.custom_round e ak) bob w = (Ok bob', w') ->
  Py.len bob' = Py.len bob + Py.len l.
Proof.
  intros H.
  apply (for_each_inv
           (fun done b _ => Py.len b = Py.len bob + Py.len done)
           _) with (done := []) in H.
  - exact H.
  - intros done a s w1 s' w1' I B. unfold TeleportationQKD.custom_round in B.
    runs. rewrite !len_app. lia.
  - unfold Py.len. simpl. lia.
Qed.

Lemma teleport_random_loop_Ok e l keys w keys' w' :
  for_each l (TeleportationQKD.random_round e) keys w = (Ok keys', w') ->
  Py.len (fst keys') = Py.len (fst keys) + Py.len l /\
  Py.len (snd keys') = Py.len (snd keys) + Py.len l.
Proof.
  intros H.
  apply (for_each_inv
           (fun done ks _ =>
              Py.len (fst ks) = Py.len (fst keys) + Py.len done /\
              Py.len (snd ks) = Py.len (snd keys) + Py.len done)
           _) with (done := []) in H.
  - exact H.
  - intros done a s w1 s' w1' [I1 I2] B.
    unfold TeleportationQKD.random_round in B.
    runs. simpl. rewrite !len_app. lia.
  - unfold Py.len. simpl. lia.
Qed.

Lemma sift_body_cases {B : Type} (attempt : sift -> M (Round B * sift))
  st w st' w' :
  (forall st w r st' w',
      attempt st w = (Ok (r, st'), w') -> sifted r st st') ->
  (r <- attempt st ;; ret (snd r)) w = (Ok st', w') ->
  st' = st \/
  exists b, st' = {| sift_bob_key := sift_bob_key st ++ [b];
                     bit_index := S (bit_index st) |}.
Proof.
  intros Hat H. runs.
  match goal with G : attempt _ _ = (Ok ?x, _) |- _ => destruct x as [r s'] end.
  match goal with G : attempt _ _ = _ |- _ => apply Hat in G;
    destruct G as [[_ [b ->]] | [_ ->]] end.
  - right. exists b. reflexivity.
  - left. reflexivity.
Qed.

Lemma generate_key_lengths p k e cb w kp w' :
  1 <= k ->
  generate_key p k e cb w = (Ok kp, w') ->
  Py.len (alice_key kp) = k /\ Py.len (bob_key kp) = k.
Proof.
  intros Hk H.
  destruct p; simpl in H;
    [ unfold BB84Protocol.generate_key in H
    | unfold E91Protocol.generate_key in H
    | unfold BBM92Protocol.generate_key in H
    | unfold TeleportationQKD.generate_key in H ];
    destruct (Py.truthy cb) as [s |];
    run_inv H;
    try (match goal with
         | G : lift (custom_alice_key _ _) _ = _ |- _ =>
             run_inv G; subst;
             match goal with
             | G' : custom_alice_key _ _ = _ |- _ =>
                 apply custom_alice_key_len in G'; [| lia]
             end
         end);
    try run_inv H; runs; simpl.
  - split; [reflexivity |].
    match goal with G : while _ _ _ _ = _ |- _ =>
      apply sift_loop_Ok in G; [apply G | | unfold Py.len; simpl; lia
                                | reflexivity ] end.
    intros st1 w1 st1' w1' B. eapply sift_body_cases; [| exact B].
    intros. eapply bb84_custom_attempt_Ok; eassumption.
  - match goal with G : while _ _ _ _ = _ |- _ =>
      apply grow_loop_Ok in G; [exact G | | unfold Py.len; simpl; lia
                                | reflexivity ] end.
    intros. eapply bb84_random_attempt_Ok; eassumption.
  - split; [reflexivity |].
    match goal with G : while _ _ _ _ = _ |- _ =>
      apply sift_loop_Ok in G; [apply G | | unfold Py.len; simpl; lia
                                | reflexivity ] end.
    intros st1 w1 st1' w1' B. eapply sift_body_cases; [| exact B].
    intros. eapply e91_custom_attempt_Ok; eassumption.
  - match goal with G : while _ _ _ _ = _ |- _ =>
      apply grow_loop_Ok in G; [exact G | | unfold Py.len; simpl; lia
                                | reflexivity ] end.
    intros. eapply e91_random_attempt_Ok; eassumption.
  - split; [reflexivity |].
    match goal with G : while _ _ _ _ = _ |- _ =>
      apply sift_loop_Ok in G; [apply G | | unfold Py.len; simpl; lia
                                | reflexivity ] end.
    intros st1 w1 st1' w1' B. eapply sift_body_cases; [| exact B].
    intros. eapply bbm92_custom_attempt_Ok; eassumption.
  - match goal with G : while _ _ _ _ = _ |- _ =>
      apply grow_loop_Ok in G; [exact G | | unfold Py.len; simpl; lia
                                | reflexivity ] end.
    intros. eapply bbm92_random_attempt_Ok; eassumption.
  - split; [reflexivity |].
    match goal with G : for_each _ _ _ _ = _ |- _ =>
      apply teleport_custom_loop_Ok in G; rewrite G, range_length end.
    unfold Py.len. simpl. lia.
  - match goal with G : for_each _ _ _ _ = _ |- _ =>
      apply teleport_random_loop_Ok in G; destruct G as [G1 G2];
      rewrite G1, G2, range_length end.
    unfold Py.len. simpl. lia.
Qed.

(** *** The oracle contract on the circuits the engines submit *)

Lemma memory_eqb_eq m1 m2 : Qiskit.memory_eqb m1 m2 = true -> m1 = m2.
Proof.
  unfold Qiskit.memory_eqb.
  destruct (list_eq_dec (list_eq_dec bool_dec) m1 m2); [auto | discriminate].
Qed.

Lemma allowed_In qc m :
  Qiskit.allowed qc m = true -> In m (Qiskit.outcomes qc).
Proof.
  unfold Qiskit.allowed. intros H. apply existsb_exists in H.
  destruct H as (m' & Hin & E). apply memory_eqb_eq in E. subst. exact Hin.
Qed.

Lemma faithful_last js qc m :
  faithful (js ++ [(qc, m)]) -> In m (Qiskit.outcomes qc).
Proof.
  unfold faithful. intros F. apply Forall_app in F. destruct F as [_ F].
  inversion F; subst. apply allowed_In. assumption.
Qed.

Lemma randint_range a b v w w' :
  Random.randint a b w = (Ok v, w') -> a <= b -> a <= v <= b.
Proof.
  unfold Random.randint. intros H Hab. runs.
  match goal with |- context [?n mod ?d] =>
    pose proof (Z.mod_pos_bound n d) end.
  lia.
Qed.

Lemma choice_In {A : Type} (l : list A) a w w' :
  Random.choice l w = (Ok a, w') -> In a l.
Proof.
  unfold Random.choice. intros H. runs.
  match goal with G : Py.list_getitem _ _ = _ |- _ =>
    unfold Py.list_getitem in G end.
  match goal with G : context [nth_error ?l ?i] |- _ =>
    destruct (nth_error l i) eqn:N; inversion G; subst end.
  eapply nth_error_In. eassumption.
Qed.

(** Single-qubit contract (spec 4.1): a bit prepared and measured in the
    same basis is read back unchanged. *)
Lemma single_qubit_contract (bit basis : Z) m :
  (bit = 0 \/ bit = 1) -> (basis = 0 \/ basis = 1) ->
  In m (Qiskit.outcomes
          (Qiskit.measure 0 0
             (Qiskit.gate_if (basis =? 1) (Qiskit.h 0)
                (Qiskit.gate_if (basis =? 1) (Qiskit.h 0)
                   (Qiskit.gate_if (bit =? 1) (Qiskit.x 0)
                      (Qiskit.new 1 1)))))) ->
  Py.int (Qiskit.memory_string m) = inr bit.
Proof.
  intros [-> | ->] [-> | ->] H; vm_compute in H;
    destruct H as [<- | []]; reflexivity.
Qed.

(** Entangled-pair contract (spec 4.1): measured in the same basis the
    two bits are equal in bases 0 and 1 and complementary in basis 2.
    The memory string reads [c1 c0]. *)
Lemma entangled_pair_contract (basis : Z) m :
  (basis = 0 \/ basis = 1 \/ basis = 2) ->
  In m (Qiskit.outcomes
          (Qiskit.measure 1 1
             (Qiskit.measure 0 0
                (E91Protocol.rotate basis 1
                   (E91Protocol.rotate basis 0
                      (Qiskit.cx 0 1 (Qiskit.h 0 (Qiskit.new 2 2)))))))) ->
  let s := Qiskit.memory_string m in
  if basis =? 2 then s = "10"%string \/ s = "01"%string
  else s = "00"%string \/ s = "11"%string.
Proof.
  intros [-> | [-> | ->]] H; vm_compute in H;
    destruct H as [<- | [<- | []]]; vm_compute; auto.
Qed.

Lemma bbm92_pair_contract (basis : string) m :
  In basis BBM92Protocol.bases ->
  In m (Qiskit.outcomes
          (Qiskit.measure 1 1
             (Qiskit.measure 0 0
                (BBM92Protocol.rotate basis basis
                   (Qiskit.cx 0 1 (Qiskit.h 0 (Qiskit.new 2 2))))))) ->
  let s := Qiskit.memory_string m in s = "00"%string \/ s = "11"%string.
Proof.
  intros [<- | [<- | []]] H; vm_compute in H;
    destruct H as [<- | [<- | []]]; vm_compute; auto.
Qed.

(** *** Rounds without an eavesdropper *)

Lemma bb84_transmit_noiseless bit basis w r w' :
  (bit = 0 \/ bit = 1) -> (basis = 0 \/ basis = 1) ->
  BB84Protocol.transmit false bit basis basis w = (Ok r, w') ->
  faithful (jobs w') -> r = bit.
Proof.
  intros Hbit Hbasis H F. unfold BB84Protocol.transmit, eve_acts in H.
  runs.
  match goal with G : Backend.run _ _ = _ |- _ =>
    apply run_Ok in G; destruct G as (m & -> & _ & _ & J) end.
  rewrite J in F. apply faithful_last in F.
  apply (single_qubit_contract bit basis m Hbit Hbasis) in F.
  congruence.
Qed.

Lemma e91_exchange_noiseless w ab bb ms w' :
  E91Protocol.exchange false w = (Ok (ab, bb, ms), w') ->
  faithful (jobs w') -> ab = bb ->
  if ab =? 2 then ms = "10"%string \/ ms = "01"%string
  else ms = "00"%string \/ ms = "11"%string.
Proof.
  intros H F E. unfold E91Protocol.exchange, eve_acts in H. runs.
  match goal with G : Backend.run _ _ = _ |- _ =>
    apply run_Ok in G; destruct G as (m & -> & _ & _ & J) end.
  rewrite J in F. apply faithful_last in F.
  match goal with G : Random.randint 0 2 _ = (Ok _, _) |- _ =>
    apply randint_range in G; [| lia] end.
  apply entangled_pair_contract; [lia | exact F].
Qed.

Lemma bbm92_exchange_noiseless w ab bb ms w' :
  BBM92Protocol.exchange false w = (Ok (ab, bb, ms), w') ->
  faithful (jobs w') -> ab = bb ->
  ms = "00"%string \/ ms = "11"%string.
Proof.
  intros H F E. unfold BBM92Protocol.exchange, eve_acts in H. runs.
  match goal with G : Backend.run _ _ = _ |- _ =>
    apply run_Ok in G; destruct G as (m & -> & _ & _ & J) end.
  rewrite J in F. apply faithful_last in F.
  match goal with G : Random.choice _ _ = (Ok _, _) |- _ =>
    apply choice_In in G end.
  eapply bbm92_pair_contract; eassumption.
Qed.

Lemma bb84_random_attempt_noiseless keys w keys' w' :
  BB84Protocol.random_attempt false keys w = (Ok keys', w') ->
  faithful (jobs w') -> fst keys = snd keys -> fst keys' = snd keys'.
Proof.
  unfold BB84Protocol.random_attempt. intros H F E. runs.
  match goal with |- context [?a =? ?b] => destruct (a =? b) eqn:B end;
    [| exact E].
  apply Z.eqb_eq in B. subst. simpl. rewrite E. f_equal. f_equal.
  repeat match goal with G : Random.randint 0 1 _ = _ |- _ =>
    apply randint_range in G; [| lia] end.
  symmetry. eapply bb84_transmit_noiseless; [| | eassumption | exact F]; lia.
Qed.

Lemma e91_random_attempt_noiseless keys w keys' w' :
  E91Protocol.random_attempt false keys w = (Ok keys', w') ->
  faithful (jobs w') -> fst keys = snd keys -> fst keys' = snd keys'.
Proof.
  unfold E91Protocol.random_attempt. intros H F E.
  run_inv H. destruct x as [[ab bb] ms].
  destruct (ab =? bb) eqn:B; runs; [| exact E].
  apply Z.eqb_eq in B. unfold E91Protocol.bob_bit_of in *. runs.
  match goal with G : E91Protocol.exchange _ _ = _ |- _ =>
    apply e91_exchange_noiseless in G; [| exact F | reflexivity] end.
  simpl. rewrite E. f_equal.
  f_equal.
  match goal with G : context [?b =? 2] |- _ => destruct (b =? 2) end;
    match goal with G : _ \/ _ |- _ => destruct G as [-> | ->] end;
    repeat match goal with
      | G : Py.getitem _ _ = inr _ |- _ => vm_compute in G; inversion G; clear G
      end; subst;
    repeat match goal with
      | G : Py.int_of_char _ = inr _ |- _ => vm_compute in G; inversion G; clear G
      end; reflexivity.
Qed.

Lemma bbm92_random_attempt_noiseless keys w keys' w' :
  BBM92Protocol.random_attempt false keys w = (Ok keys', w') ->
  faithful (jobs w') -> fst keys = snd keys -> fst keys' = snd keys'.
Proof.
  unfold BBM92Protocol.random_attempt. intros H F E.
  run_inv H. destruct x as [[ab bb] ms].
  destruct (String.eqb ab bb) eqn:B; runs; [| exact E].
  apply String.eqb_eq in B.
  match goal with G : BBM92Protocol.exchange _ _ = _ |- _ =>
    apply bbm92_exchange_noiseless in G; [| exact F | exact B] end.
  simpl. rewrite E. f_equal. f_equal.
  match goal with G : _ \/ _ |- _ => destruct G as [-> | ->] end;
    repeat match goal with
      | G : Py.getitem _ _ = inr _ |- _ => vm_compute in G; inversion G; clear G
      end; subst;
    repeat match goal with
      | G : Py.int_of_char _ = inr _ |- _ => vm_compute in G; inversion G; clear G
      end; reflexivity.
Qed.

(** A random-mode sifting loop whose passes keep the two keys equal
    returns equal keys. *)
Lemma equal_loop_Ok (body : list Z * list Z -> M (list Z * list Z)) k
  keys w keys' w' :
  (forall s, steady (body s)) ->
  (forall keys w keys' w',
      body keys w = (Ok keys', w') -> faithful (jobs w') ->
      fst keys = snd keys -> fst keys' = snd keys') ->
  fst keys = snd keys ->
  while (fun keys => Py.len (fst keys) <? k) body keys w = (Ok keys', w') ->
  faithful (jobs w') -> fst keys' = snd keys'.
Proof.
  intros St Hbody E H F.
  apply (while_inv
           (fun keys w => faithful (jobs w) -> fst keys = snd keys)) in H.
  - apply H. exact F.
  - intros s w1 s' w1' _ I B F'. eapply Hbody; [exact B | exact F' |].
    apply I. eapply faithful_before; [| exact F']. eapply St. exact B.
  - intros _. exact E.
Qed.

Lemma firstn_snoc {A : Type} (l : list A) i x :
  nth_error l i = Some x -> firstn (S i) l = firstn i l ++ [x].
Proof.
  revert i. induction l as [| a l IH]; intros [| i] H; simpl in *;
    try discriminate.
  - inversion H. reflexivity.
  - f_equal. apply IH. exact H.
Qed.

Lemma bb84_custom_attempt_noiseless ak st w r st' w' :
  Forall is_bit ak ->
  BB84Protocol.custom_attempt false ak st w = (Ok (r, st'), w') ->
  faithful (jobs w') ->
  sift_bob_key st = firstn (bit_index st) ak ->
  sift_bob_key st' = firstn (bit_index st') ak.
Proof.
  unfold BB84Protocol.custom_attempt. intros Hak H F E. runs.
  match goal with |- context [?a =? ?b] => destruct (a =? b) eqn:B end;
    [| exact E].
  apply Z.eqb_eq in B. subst. cbn [sift_bob_key bit_index].
  match goal with G : Py.list_getitem _ _ = inr ?b |- _ =>
    unfold Py.list_getitem in G;
    destruct (nth_error ak (bit_index st)) eqn:N; inversion G; subst
  end.
  rewrite (firstn_snoc _ _ _ N), E. f_equal. f_equal.
  match goal with G : Random.randint 0 1 _ = _ |- _ =>
    apply randint_range in G; [| lia] end.
  eapply bb84_transmit_noiseless; [| | eassumption | exact F].
  - eapply Forall_forall in Hak; [exact Hak |].
    eapply nth_error_In. exact N.
  - lia.
Qed.

Lemma in_01_value c :
  Py.in_01 c = true ->
  Py.int_of_char c = inr 0 \/ Py.int_of_char c = inr 1.
Proof.
  unfold Py.in_01. intros H. apply orb_true_iff in H.
  destruct H as [H | H]; apply Ascii.eqb_eq in H; subst; auto.
Qed.

Lemma binary_custom_bits l bs :
  forallb Py.in_01 l = true -> map_exn Py.int_of_char l = inr bs ->
  Forall is_bit bs.
Proof.
  revert bs. induction l as [| c l IH]; simpl; intros bs V H.
  - inversion H. constructor.
  - apply andb_true_iff in V. destruct V as [Vc Vl].
    destruct (in_01_value c Vc) as [E | E]; rewrite E in H;
      destruct (map_exn Py.int_of_char l) as [| bs']; try discriminate;
      inversion H; subst; constructor; try (apply IH; auto);
      unfold is_bit; auto.
Qed.

Lemma Forall_first {A : Type} (P : A -> Prop) n l :
  Forall P l -> Forall P (firstn n l).
Proof.
  intros H. rewrite Forall_forall in *. intros x Hx. apply H.
  rewrite <- (firstn_skipn n l). apply in_or_app. left. exact Hx.
Qed.

Lemma Forall_slice_to {A : Type} (P : A -> Prop) l k :
  Forall P l -> Forall P (Py.slice_to l k).
Proof.
  intros H. unfold Py.slice_to. destruct (0 <=? k); apply Forall_first;
    exact H.
Qed.

Lemma binary_alice_key s k ak :
  forallb Py.in_01 (list_ascii_of_string s) = true ->
  custom_alice_key s k = inr ak -> Forall is_bit ak.
Proof.
  intros V H. apply custom_alice_key_inr in H.
  destruct H as (l & Hl & _ & ->). apply Forall_slice_to.
  eapply binary_custom_bits; eassumption.
Qed.

Lemma steady_bb84_custom_body e ak st :
  steady (r <- BB84Protocol.custom_attempt e ak st ;; ret (snd r)).
Proof.
  unfold BB84Protocol.custom_attempt. steady_tac.
Qed.

Lemma bb84_custom_loop_noiseless ak k st w st' w' :
  Forall is_bit ak ->
  while (fun st => Py.len (sift_bob_key st) <? k)
    (fun st => r <- BB84Protocol.custom_attempt false ak st ;; ret (snd r))
    st w = (Ok st', w') ->
  faithful (jobs w') ->
  sift_bob_key st = firstn (bit_index st) ak ->
  sift_bob_key st' = firstn (bit_index st') ak.
Proof.
  intros Hak H F E.
  apply (while_inv
           (fun st w => faithful (jobs w) ->
                        sift_bob_key st = firstn (bit_index st) ak)) in H.
  - apply H. exact F.
  - intros s w1 s' w1' _ I B F'.
    assert (Aft : after w1 w1') by (eapply steady_bb84_custom_body; exact B).
    runs.
    match goal with G : BB84Protocol.custom_attempt _ _ _ _ = (Ok ?x, _) |- _ =>
      destruct x as [r s2]; simpl;
      eapply bb84_custom_attempt_noiseless; [exact Hak | exact G | exact F' |]
    end.
    apply I. eapply faithful_before; eassumption.
  - intros _. exact E.
Qed.

(** *** The evaluator *)

Lemma sum_ones {A : Type} (l : list A) :
  Py.sum (map (fun _ => 1) l) = Py.len l.
Proof.
  unfold Py.sum, Py.len.
  assert (G : forall acc, fold_left Z.add (map (fun _ : A => 1) l) acc
                          = acc + Z.of_nat (List.length l)).
  { induction l as [| a l IH]; intros acc; simpl; [lia |].
    rewrite IH. lia. }
  rewrite G. lia.
Qed.

Lemma filter_seq_shift (f : nat -> bool) n s :
  List.length (filter f (seq (S s) n)) =
  List.length (filter (fun i => f (S i)) (seq s n)).
Proof.
  revert s. induction n as [| n IH]; intros s; simpl; [reflexivity |].
  destruct (f (S s)); simpl; rewrite IH; reflexivity.
Qed.

Lemma combine_agreeing a b :
  List.length (filter (fun ij => fst ij =? snd ij) (combine a b)) =
  agreeing_positions a b.
Proof.
  unfold agreeing_positions. revert b.
  induction a as [| x a IH]; intros [| y b]; simpl; try reflexivity.
  destruct (x =? y); simpl; rewrite filter_seq_shift, IH; reflexivity.
Qed.

Lemma slices_combine (a b : list Z) :
  let total := Z.min (Py.len a) (Py.len b) in
  combine (Py.slice_to a total) (Py.slice_to b total) = combine a b.
Proof.
  simpl. unfold Py.slice_to, Py.len.
  destruct (0 <=? _) eqn:E; [| apply Z.leb_gt in E; lia].
  replace (Z.to_nat (Z.min (Z.of_nat (List.length a))
                       (Z.of_nat (List.length b))))
    with (Nat.min (List.length a) (List.length b)) by lia.
  rewrite <- combine_firstn. apply firstn_all2.
  rewrite length_combine. lia.
Qed.

Lemma metrics_nonempty {R : Type} {N : Number R} a b e :
  a <> [] -> b <> [] ->
  let total := Z.min (Py.len a) (Py.len b) in
  let rate :=
    num_div (num_of_int (Z.of_nat (agreeing_positions a b)))
      (num_of_int total) in
  QKDProtocol.calculate_security_metrics a b e =
  {| agreement_rate := rate;
     qber := num_sub num_1 rate;
     is_secure := num_lt (num_sub num_1 rate) num_0_15;
     security_level :=
       if num_lt (num_sub num_1 rate) num_0_05 then "High"%string
       else if num_lt (num_sub num_1 rate) num_0_15 then "Medium"%string
       else "Low"%string |}.
Proof.
  intros Ha Hb. destruct a as [| x a]; [contradiction |].
  destruct b as [| y b]; [contradiction |].
  unfold QKDProtocol.calculate_security_metrics.
  rewrite slices_combine, sum_ones.
  replace (Py.len (filter (fun ij => fst ij =? snd ij)
                     (combine (x :: a) (y :: b))))
    with (Z.of_nat (agreeing_positions (x :: a) (y :: b)))
    by (unfold Py.len; rewrite combine_agreeing; reflexivity).
  reflexivity.
Qed.

Lemma agreeing_self a : agreeing_positions a a = List.length a.
Proof.
  rewrite <- combine_agreeing. induction a as [| x a IH]; simpl;
    [reflexivity |].
  rewrite Z.eqb_refl. simpl. f_equal. exact IH.
Qed.

Lemma Qltb_lt x y : Qltb x y = true <-> (x < y)%Q.
Proof.
  unfold Qltb. rewrite negb_true_iff. split.
  - intros H. apply Qnot_le_lt. intros L. apply Qle_bool_iff in L. congruence.
  - intros H. destruct (Qle_bool y x) eqn:E; [| reflexivity].
    apply Qle_bool_iff in E. apply Qlt_not_le in H. contradiction.
Qed.

Lemma metrics_equal_keys a e :
  a <> [] ->
  let m := QKDProtocol.calculate_security_metrics (R := Q) a a e in
  (agreement_rate m == 1)%Q /\ (qber m == 0)%Q /\
  is_secure m = true /\ security_level m = "High"%string.
Proof.
  intros Ha. cbv zeta. rewrite (metrics_nonempty a a e Ha Ha).
  cbn [agreement_rate qber is_secure security_level].
  cbn [num_div num_sub num_lt num_of_int num_1 num_0_05 num_0_15 exact].
  rewrite agreeing_self, Z.min_id. fold (Py.len a).
  assert (P : 0 < Py.len a).
  { unfold Py.len. destruct a; [contradiction | simpl; lia]. }
  assert (R : (inject_Z (Py.len a) / inject_Z (Py.len a) == 1)%Q).
  { apply Qmult_inv_r. unfold inject_Z, Qeq. simpl. lia. }
  assert (Q0 : (1 - inject_Z (Py.len a) / inject_Z (Py.len a) == 0)%Q).
  { rewrite R. reflexivity. }
  assert (L5 : Qltb (1 - inject_Z (Py.len a) / inject_Z (Py.len a))
                 (5 # 100) = true).
  { apply Qltb_lt. rewrite Q0. reflexivity. }
  assert (L15 : Qltb (1 - inject_Z (Py.len a) / inject_Z (Py.len a))
                  (15 # 100) = true).
  { apply Qltb_lt. rewrite Q0. reflexivity. }
  rewrite L5, L15. repeat split; assumption.
Qed.

Lemma steady_bb84_random_attempt e keys :
  steady (BB84Protocol.random_attempt e keys).
Proof. unfold BB84Protocol.random_attempt. steady_tac. Qed.

Lemma steady_e91_random_attempt e keys :
  steady (E91Protocol.random_attempt e keys).
Proof. unfold E91Protocol.random_attempt. steady_tac. Qed.

Lemma steady_bbm92_random_attempt e keys :
  steady (BBM92Protocol.random_attempt e keys).
Proof. unfold BBM92Protocol.random_attempt. steady_tac. Qed.

Lemma noiseless_keys_equal p k cb w kp w' :
  1 <= k -> agreement_scope p cb ->
  generate_key p k false cb w = (Ok kp, w') ->
  faithful (jobs w') ->
  bob_key kp = alice_key kp.
Proof.
  intros Hk Hs H F. destruct p; simpl in Hs, H.
  - unfold BB84Protocol.generate_key in H.
    destruct (Py.truthy cb) as [s |]; runs; simpl.
    + match goal with G : custom_alice_key _ _ = inr ?ak |- _ =>
        pose proof (binary_alice_key _ _ _ Hs G) as Bits;
        assert (Len : Py.len ak = k)
          by (eapply custom_alice_key_len; [| exact G]; lia)
      end.
      match goal with G : while _ _ _ _ = _ |- _ =>
        pose proof (bb84_custom_loop_noiseless _ _ _ _ _ _ Bits G F
                      eq_refl) as Eq;
        apply sift_loop_Ok in G;
          [destruct G as [L I] | | unfold Py.len; simpl; lia | reflexivity]
      end.
      * rewrite Eq, I. apply firstn_all2. unfold Py.len in *. lia.
      * intros st1 w1 st1' w1' B. eapply sift_body_cases; [| exact B].
        intros. eapply bb84_custom_attempt_Ok; eassumption.
    + symmetry.
      match goal with G : while _ _ _ _ = _ |- _ =>
        eapply equal_loop_Ok; [ | | | exact G | exact F] end.
      * intros. apply steady_bb84_random_attempt.
      * intros. eapply bb84_random_attempt_noiseless; eassumption.
      * reflexivity.
  - unfold E91Protocol.generate_key in H. rewrite Hs in H. runs. simpl.
    symmetry.
    match goal with G : while _ _ _ _ = _ |- _ =>
      eapply equal_loop_Ok; [ | | | exact G | exact F] end.
    + intros. apply steady_e91_random_attempt.
    + intros. eapply e91_random_attempt_noiseless; eassumption.
    + reflexivity.
  - unfold BBM92Protocol.generate_key in H. rewrite Hs in H. runs. simpl.
    symmetry.
    match goal with G : while _ _ _ _ = _ |- _ =>
      eapply equal_loop_Ok; [ | | | exact G | exact F] end.
    + intros. apply steady_bbm92_random_attempt.
    + intros. eapply bbm92_random_attempt_noiseless; eassumption.
    + reflexivity.
  - contradiction.
Qed.

Lemma len_pos_nonempty {A : Type} (l : list A) : 1 <= Py.len l -> l <> [].
Proof. intros H E. subst. unfold Py.len in H. simpl in H. lia. Qed.

Lemma faithful_check js :
  forallb (fun j => Qiskit.allowed (fst j) (snd j)) js = true ->
  faithful js.
Proof.
  intros H. apply Forall_forall. intros j Hj.
  rewrite forallb_forall in H. apply H. exact Hj.
Qed.

(** Evaluates a closed run and checks its log. *)
Ltac run_closed :=
  split; [vm_compute; reflexivity | apply faithful_check; vm_compute; reflexivity].

(* ================================================================== *)
(** ** Exceptions come after the first draw *)
(* ================================================================== *)

Section Careful.

Context {A B : Type}.

Lemma careful_ret (a : A) : careful (ret a).
Proof. intros w x w' H. discriminate. Qed.

Lemma careful_lift_inr (a : A) : careful (lift (inr a)).
Proof. intros w x w' H. discriminate. Qed.

Lemma careful_bind (m : M A) (f : A -> M B) :
  careful m -> steady m -> (forall a, careful (f a)) -> careful (bind m f).
Proof.
  intros Cm Sm Cf w x w' H. apply bind_Raise in H.
  destruct H as [H | (a & w1 & H1 & H2)].
  - eapply Cm. exact H.
  - apply Sm in H1. destruct H1 as [_ L]. apply Cf in H2. lia.
Qed.

Lemma careful_bind_eager (m : M A) (f : A -> M B) :
  eager m -> (forall a, steady (f a)) -> careful (bind m f).
Proof.
  intros Em Sf w x w' H.
  eapply (eager_bind m f Em Sf); [exact H | discriminate].
Qed.

End Careful.

Lemma eager_random : eager Random.random.
Proof.
  unfold Random.random. apply eager_bind; [apply eager_word |].
  intros. steady_tac.
Qed.

Lemma careful_while_fuel {S : Type} (cond : S -> bool) (body : S -> M S) :
  (forall s, careful (body s)) -> (forall s, steady (body s)) ->
  forall fuel s, careful (while_fuel fuel cond body s).
Proof.
  intros Cb Sb. induction fuel as [| fuel IH]; intros s; simpl.
  - intros w x w' H. discriminate.
  - destruct (cond s).
    + apply careful_bind; [apply Cb | apply Sb | intros; apply IH].
    + apply careful_ret.
Qed.

Lemma careful_while {S : Type} (cond : S -> bool) (body : S -> M S) s :
  (forall s, careful (body s)) -> (forall s, steady (body s)) ->
  careful (while cond body s).
Proof.
  intros Cb Sb w x w' H. unfold while in H.
  eapply careful_while_fuel; eauto.
Qed.

Lemma careful_for_each {A S : Type} (body : A -> S -> M S) l :
  (forall a s, In a l -> careful (body a s)) ->
  (forall a s, steady (body a s)) ->
  forall s, careful (for_each l body s).
Proof.
  intros Cb Sb. induction l as [| a l IH]; intros s; simpl.
  - apply careful_ret.
  - apply careful_bind; [apply Cb; left; reflexivity | apply Sb |].
    intros. apply IH. intros. apply Cb. right. assumption.
Qed.

Lemma eager_e91_exchange e : eager (E91Protocol.exchange e).
Proof.
  unfold E91Protocol.exchange.
  apply eager_bind; [apply eager_randint | intros; steady_tac].
Qed.

Lemma eager_bbm92_exchange e : eager (BBM92Protocol.exchange e).
Proof.
  unfold BBM92Protocol.exchange.
  apply eager_bind; [apply eager_choice | intros; steady_tac].
Qed.

Ltac eager_prim :=
  first [ apply eager_word | apply eager_randint | apply eager_choice
        | apply eager_run | apply eager_random
        | apply eager_e91_exchange | apply eager_bbm92_exchange ].

(** Proves [careful] for straight-line code over the primitives. *)
Ltac careful_tac :=
  repeat first
    [ apply careful_ret
    | apply careful_bind_eager; [eager_prim | intros; steady_tac]
    | apply careful_bind; [| steady_tac | intros]
    | match goal with
      | |- careful (if ?b then _ else _) => destruct b
      | |- careful (eve_acts _ _) => unfold eve_acts
      end ].

Lemma careful_teleport e s : careful (TeleportationQKD.teleport e s).
Proof. unfold TeleportationQKD.teleport. careful_tac. Qed.

Lemma careful_bb84_custom_body e ak st :
  careful (r <- BB84Protocol.custom_attempt e ak st ;; ret (snd r)).
Proof. unfold BB84Protocol.custom_attempt. careful_tac. Qed.

Lemma careful_bb84_random_attempt e keys :
  careful (BB84Protocol.random_attempt e keys).
Proof. unfold BB84Protocol.random_attempt. careful_tac. Qed.

Lemma careful_e91_custom_body e st :
  careful (r <- E91Protocol.custom_attempt e st ;; ret (snd r)).
Proof.
  unfold E91Protocol.custom_attempt. careful_tac.
Qed.

Lemma careful_e91_random_attempt e keys :
  careful (E91Protocol.random_attempt e keys).
Proof.
  unfold E91Protocol.random_attempt. careful_tac.
Qed.

Lemma careful_bbm92_custom_body e st :
  careful (r <- BBM92Protocol.custom_attempt e st ;; ret (snd r)).
Proof.
  unfold BBM92Protocol.custom_attempt. careful_tac.
Qed.

Lemma careful_bbm92_random_attempt e keys :
  careful (BBM92Protocol.random_attempt e keys).
Proof.
  unfold BBM92Protocol.random_attempt. careful_tac.
Qed.

Lemma careful_teleport_random_round e i keys :
  careful (TeleportationQKD.random_round e i keys).
Proof. unfold TeleportationQKD.random_round. careful_tac. Qed.

(* ================================================================== *)
(** ** The bound on the loops is no restriction *)
(* ================================================================== *)

(** A loop whose body reads a tape on every pass gives the same result
    for every bound above what is left on the tapes. *)
Lemma while_fuel_enough {S : Type} (cond : S -> bool) (body : S -> M S) :
  (forall s, eager (body s)) ->
  forall f1 f2 s w,
    (budget w < f1)%nat -> (budget w < f2)%nat ->
    while_fuel f1 cond body s w = while_fuel f2 cond body s w.
Proof.
  intros Eb. induction f1 as [| f1 IH]; intros f2 s w H1 H2; [lia |].
  destruct f2 as [| f2]; [lia |]. simpl.
  destruct (cond s); [| reflexivity].
  unfold bind. destruct (body s w) as [[s' | x |] w'] eqn:E; try reflexivity.
  assert (budget w' < budget w)%nat by (eapply Eb; [exact E | discriminate]).
  apply IH; lia.
Qed.

Lemma eager_bb84_custom_body e ak st :
  eager (r <- BB84Protocol.custom_attempt e ak st ;; ret (snd r)).
Proof.
  apply eager_bind; [| intros; steady_tac].
  unfold BB84Protocol.custom_attempt.
  apply eager_bind; [apply eager_randint | intros; steady_tac].
Qed.

Lemma eager_bb84_random_attempt e keys :
  eager (BB84Protocol.random_attempt e keys).
Proof.
  unfold BB84Protocol.random_attempt.
  apply eager_bind; [apply eager_randint | intros; steady_tac].
Qed.

Lemma eager_e91_custom_body e st :
  eager (r <- E91Protocol.custom_attempt e st ;; ret (snd r)).
Proof.
  apply eager_bind; [| intros; steady_tac].
  unfold E91Protocol.custom_attempt.
  apply eager_bind; [apply eager_e91_exchange | intros; steady_tac].
Qed.

Lemma eager_e91_random_attempt e keys :
  eager (E91Protocol.random_attempt e keys).
Proof.
  unfold E91Protocol.random_attempt.
  apply eager_bind; [apply eager_e91_exchange | intros; steady_tac].
Qed.

Lemma eager_bbm92_custom_body e st :
  eager (r <- BBM92Protocol.custom_attempt e st ;; ret (snd r)).
Proof.
  apply eager_bind; [| intros; steady_tac].
  unfold BBM92Protocol.custom_attempt.
  apply eager_bind; [apply eager_bbm92_exchange | intros; steady_tac].
Qed.

Lemma eager_bbm92_random_attempt e keys :
  eager (BBM92Protocol.random_attempt e keys).
Proof.
  unfold BBM92Protocol.random_attempt.
  apply eager_bind; [apply eager_bbm92_exchange | intros; steady_tac].
Qed.

(** Each of the six sifting loops of the engines, run with any bound
    above what is left on the tapes, does what [while] does. *)
Lemma sifting_loops_unbounded e ak k fuel w :
  (budget w < fuel)%nat ->
  let custom st := Py.len (sift_bob_key st) <? k in
  let random (keys : list Z * list Z) := Py.len (fst keys) <? k in
  let st0 := {| sift_bob_key := []; bit_index := 0 |} in
  while_fuel fuel custom
    (fun st => r <- BB84Protocol.custom_attempt e ak st ;; ret (snd r))
    st0 w =
  while custom
    (fun st => r <- BB84Protocol.custom_attempt e ak st ;; ret (snd r))
    st0 w /\
  while_fuel fuel custom
    (fun st => r <- E91Protocol.custom_attempt e st ;; ret (snd r)) st0 w =
  while custom
    (fun st => r <- E91Protocol.custom_attempt e st ;; ret (snd r)) st0 w /\
  while_fuel fuel custom
    (fun st => r <- BBM92Protocol.custom_attempt e st ;; ret (snd r)) st0 w =
  while custom
    (fun st => r <- BBM92Protocol.custom_attempt e st ;; ret (snd r)) st0 w /\
  while_fuel fuel random (BB84Protocol.random_attempt e) ([], []) w =
  while random (BB84Protocol.random_attempt e) ([], []) w /\
  while_fuel fuel random (E91Protocol.random_attempt e) ([], []) w =
  while random (E91Protocol.random_attempt e) ([], []) w /\
  while_fuel fuel random (BBM92Protocol.random_attempt e) ([], []) w =
  while random (BBM92Protocol.random_attempt e) ([], []) w.
Proof.
  intros Hf custom random st0. unfold while.
  repeat split; apply while_fuel_enough; try lia; intros.
  - apply eager_bb84_custom_body.
  - apply eager_e91_custom_body.
  - apply eager_bbm92_custom_body.
  - apply eager_bb84_random_attempt.
  - apply eager_e91_random_attempt.
  - apply eager_bbm92_random_attempt.
Qed.

(** In a Teleportation round without eavesdropper Bob's circuit is a
    fresh qubit, flipped exactly when the middle character of Alice's
    memory string is ['1']; whenever the backend's answer for that
    circuit is one it allows, Bob's bit is that character, whatever the
    secret bit was. *)
Lemma bob_reads_alices_bit s w b w' :
  TeleportationQKD.teleport false s w = (Ok b, w') ->
  exists qc1 m1 qc2 m2 c,
    jobs w' = jobs w ++ [(qc1, m1); (qc2, m2)] /\
    Py.getitem (Qiskit.memory_string m1) 1 = inr c /\
    (Qiskit.allowed qc2 m2 = true ->
     b = if Ascii.eqb c "1" then 1 else 0).
Proof.
  intros H. unfold TeleportationQKD.teleport, eve_acts in H. runs.
  repeat match goal with G : Backend.run _ _ = _ |- _ =>
    apply run_Ok in G; destruct G as (? & ? & ? & ? & ?) end.
  subst.
  match goal with
  | J1 : jobs ?w1 = jobs w ++ [(?qc1, ?m1)],
    J2 : jobs ?w2 = jobs ?w1 ++ [(?qc2, ?m2)],
    G : Py.getitem _ 1 = inr ?c |- _ =>
      exists qc1, m1, qc2, m2, c; rewrite J2, J1, <- app_assoc;
      split; [reflexivity | split; [exact G |]]
  end.
  intros A. apply allowed_In in A.
  repeat match goal with
    | A : context [Ascii.eqb ?c "1"] |- _ =>
        is_var c; destruct (Ascii.eqb c "1")
    end;
    vm_compute in A; destruct A as [<- | []];
    match goal with G : Py.int _ = inr _ |- _ =>
      vm_compute in G; inversion G; reflexivity end.
Qed.

(* ================================================================== *)
(** ** Validation of custom bits *)
(* ================================================================== *)

Lemma int_of_char_digit c :
  Py.int_of_char c =
  match Py.digit_value c with
  | Some d => inr d
  | None => inl (Py.ValueError_invalid_literal (String c EmptyString))
  end.
Proof. destruct c as [[] [] [] [] [] [] [] []]; reflexivity. Qed.

Lemma map_exn_digits l :
  (exists bs, map_exn Py.int_of_char l = inr bs) <->
  forallb is_digit l = true.
Proof.
  induction l as [| c l IH]; simpl.
  - split; [reflexivity | intros; eexists; reflexivity].
  - rewrite int_of_char_digit. unfold is_digit at 1.
    destruct (Py.digit_value c) as [d |]; simpl.
    + rewrite <- IH. destruct (map_exn Py.int_of_char l) as [x | bs].
      * split; intros [bs' H]; discriminate.
      * split; intros _; eexists; reflexivity.
    + split; [intros [bs H]; discriminate | discriminate].
Qed.

Lemma string_length_chars s :
  List.length (list_ascii_of_string s) = String.length s.
Proof. induction s; simpl; congruence. Qed.

Lemma custom_alice_key_rejects s k :
  (exists x, custom_alice_key s k = inl x) <-> engine_rejects s k.
Proof.
  unfold custom_alice_key, engine_rejects.
  pose proof (map_exn_digits (list_ascii_of_string s)) as D.
  destruct (map_exn Py.int_of_char (list_ascii_of_string s)) as [x | bs] eqn:E.
  - split; [| intros; eexists; reflexivity].
    intros _. left. destruct (forallb is_digit _); [| reflexivity].
    destruct D as [_ D]. destruct (D eq_refl). discriminate.
  - assert (Hd : forallb is_digit (list_ascii_of_string s) = true)
      by (apply D; eexists; reflexivity).
    rewrite Hd. apply map_exn_length in E. unfold Py.len. rewrite E.
    rewrite string_length_chars.
    destruct (Z.of_nat (String.length s) <? k) eqn:L.
    + apply Z.ltb_lt in L. split; [auto | intros; eexists; reflexivity].
    + apply Z.ltb_ge in L. split; [intros [x H]; discriminate |].
      intros [H | H]; [discriminate | lia].
Qed.

Lemma truthy_nonempty s : s <> EmptyString -> Py.truthy (Some s) = Some s.
Proof. destruct s; [contradiction | reflexivity]. Qed.

Lemma generate_key_rejected p k e s x w :
  s <> EmptyString -> custom_alice_key s k = inl x ->
  generate_key p k e (Some s) w = (Raise x, w).
Proof.
  intros N H. destruct p; simpl;
    [ unfold BB84Protocol.generate_key
    | unfold E91Protocol.generate_key
    | unfold BBM92Protocol.generate_key
    | unfold TeleportationQKD.generate_key ];
    rewrite (truthy_nonempty s N); unfold bind, lift; rewrite H; reflexivity.
Qed.

Lemma careful_teleport_custom_round e ak i bob :
  (i < List.length ak)%nat ->
  careful (TeleportationQKD.custom_round e ak i bob).
Proof.
  intros Hi. unfold TeleportationQKD.custom_round, Py.list_getitem.
  destruct (nth_error ak i) eqn:N.
  - apply careful_bind; [apply careful_lift_inr | apply steady_lift |].
    intros. apply careful_bind; [apply careful_teleport | apply steady_teleport |].
    intros. apply careful_ret.
  - apply nth_error_None in N. lia.
Qed.

Lemma steady_teleport_custom_round e ak i bob :
  steady (TeleportationQKD.custom_round e ak i bob).
Proof. unfold TeleportationQKD.custom_round. steady_tac. Qed.

Lemma steady_teleport_random_round e i keys :
  steady (TeleportationQKD.random_round e i keys).
Proof. unfold TeleportationQKD.random_round. steady_tac. Qed.

Lemma steady_e91_custom_body e st :
  steady (r <- E91Protocol.custom_attempt e st ;; ret (snd r)).
Proof. unfold E91Protocol.custom_attempt. steady_tac. Qed.

Lemma steady_bbm92_custom_body e st :
  steady (r <- BBM92Protocol.custom_attempt e st ;; ret (snd r)).
Proof. unfold BBM92Protocol.custom_attempt. steady_tac. Qed.

Lemma careful_after_lift {A B : Type} (a : A) (f : A -> M B) :
  careful (f a) -> careful (bind (lift (inr a)) f).
Proof. intros C w x w' H. unfold bind, lift in H. eapply C. exact H. Qed.

(** Once Alice's key is fixed, whatever the engines raise comes after a
    draw. *)
Lemma generate_key_accepted p k e s ak :
  s <> EmptyString -> custom_alice_key s k = inr ak ->
  careful (generate_key p k e (Some s)).
Proof.
  intros N H.
  assert (R : forall i, In i (range k) -> (i < List.length ak)%nat).
  { intros i Hi. unfold range in Hi. apply in_seq in Hi.
    destruct (Z_le_gt_dec 0 k) as [P | P]; [| lia].
    apply custom_alice_key_len in H; [| exact P].
    unfold Py.len in H. lia. }
  destruct p; simpl;
    [ unfold BB84Protocol.generate_key
    | unfold E91Protocol.generate_key
    | unfold BBM92Protocol.generate_key
    | unfold TeleportationQKD.generate_key ];
    rewrite (truthy_nonempty s N), H;
    apply careful_after_lift;
    (apply careful_bind; [| | intros; apply careful_ret]).
  - apply careful_while; intros;
      [apply careful_bb84_custom_body | apply steady_bb84_custom_body].
  - apply steady_while. intros. apply steady_bb84_custom_body.
  - apply careful_while; intros;
      [apply careful_e91_custom_body | apply steady_e91_custom_body].
  - apply steady_while. intros. apply steady_e91_custom_body.
  - apply careful_while; intros;
      [apply careful_bbm92_custom_body | apply steady_bbm92_custom_body].
  - apply steady_while. intros. apply steady_bbm92_custom_body.
  - apply careful_for_each.
    + intros i bob Hi. apply careful_teleport_custom_round. apply R. exact Hi.
    + intros. apply steady_teleport_custom_round.
  - apply steady_for_each. intros. apply steady_teleport_custom_round.
Qed.

(** In random mode whatever the engines raise comes after a draw. *)
Lemma generate_key_random_careful p k e cb :
  Py.truthy cb = None -> careful (generate_key p k e cb).
Proof.
  intros H.
  destruct p; simpl;
    [ unfold BB84Protocol.generate_key
    | unfold E91Protocol.generate_key
    | unfold BBM92Protocol.generate_key
    | unfold TeleportationQKD.generate_key ];
    rewrite H;
    (apply careful_bind; [| | intros; apply careful_ret]).
  - apply careful_while; intros;
      [apply careful_bb84_random_attempt | apply steady_bb84_random_attempt].
  - apply steady_while. intros. apply steady_bb84_random_attempt.
  - apply careful_while; intros;
      [apply careful_e91_random_attempt | apply steady_e91_random_attempt].
  - apply steady_while. intros. apply steady_e91_random_attempt.
  - apply careful_while; intros;
      [apply careful_bbm92_random_attempt | apply steady_bbm92_random_attempt].
  - apply steady_while. intros. apply steady_bbm92_random_attempt.
  - apply careful_for_each; intros;
      [apply careful_teleport_random_round
      | apply steady_teleport_random_round].
  - apply steady_for_each. intros. apply steady_teleport_random_round.
Qed.

Lemma careful_never_at_once {A : Type} (m : M A) w x :
  careful m -> m w <> (Raise x, w).
Proof. intros C H. apply C in H. lia. Qed.

Lemma run_simulation_rejects {R : Type} {N : Number R} name p k e s w :
  protocols name = Some p -> s <> EmptyString ->
  (exists err,
      run_simulation (R := R) name k e true s w = (Some (Http400 err), w))
  <-> route_rejects s k.
Proof.
  intros Hp Ne. unfold run_simulation, route_rejects. rewrite Hp.
  rewrite (truthy_nonempty s Ne).
  destruct (forallb Py.in_01 (list_ascii_of_string s)); simpl.
  - destruct (Z.of_nat (String.length s) <? k) eqn:L.
    + apply Z.ltb_lt in L. split; [auto | intros; eexists; reflexivity].
    + apply Z.ltb_ge in L. split.
      * intros [err H].
        destruct (generate_key p k e (Some s) w) as [[kp | x |] w1];
          discriminate.
      * intros [H | H]; [discriminate | lia].
  - split; [auto | intros; eexists; reflexivity].
Qed.

(* ================================================================== *)
(** ** Alice's key in custom-bits mode *)
(* ================================================================== *)

Lemma binary_parse l :
  forallb Py.in_01 l = true -> map_exn Py.int_of_char l = inr (bits_of l).
Proof.
  induction l as [| c l IH]; simpl; intros H; [reflexivity |].
  apply andb_true_iff in H. destruct H as [Hc Hl].
  rewrite (IH Hl). unfold Py.in_01 in Hc. apply orb_true_iff in Hc.
  destruct Hc as [Hc | Hc]; apply Ascii.eqb_eq in Hc; subst; reflexivity.
Qed.

Lemma generate_key_custom_alice p k e s w kp w' :
  s <> EmptyString ->
  generate_key p k e (Some s) w = (Ok kp, w') ->
  custom_alice_key s k = inr (alice_key kp).
Proof.
  intros N H. destruct p; simpl in H;
    [ unfold BB84Protocol.generate_key in H
    | unfold E91Protocol.generate_key in H
    | unfold BBM92Protocol.generate_key in H
    | unfold TeleportationQKD.generate_key in H ];
    rewrite (truthy_nonempty s N) in H; run_inv H;
    match goal with G : lift _ _ = _ |- _ => run_inv G end; runs;
    simpl; assumption.
Qed.

(* ================================================================== *)
(** ** Bob's view of a run *)
(* ================================================================== *)

Lemma pair_engine_custom_run p k e s ak :
  p = E91 \/ p = BBM92 ->
  s <> EmptyString -> custom_alice_key s k = inr ak ->
  forall w,
    generate_key p k e (Some s) w =
    (st <- pair_sifting p k e ;;
     ret (mkKeyPair ak (sift_bob_key st)
            (match p with BBM92 => BBM92Protocol.name
                        | _ => E91Protocol.name end) e)) w.
Proof.
  intros [-> | ->] N H w; simpl;
    [ unfold E91Protocol.generate_key | unfold BBM92Protocol.generate_key ];
    rewrite (truthy_nonempty s N), H; reflexivity.
Qed.

Lemma bob_view_pair_engines p k e s ak w :
  p = E91 \/ p = BBM92 ->
  s <> EmptyString -> custom_alice_key s k = inr ak ->
  bob_view (generate_key p k e (Some s) w) =
  (match fst (pair_sifting p k e w) with
   | Ok st => Ok (sift_bob_key st)
   | Raise x => Raise x
   | Stuck => Stuck
   end, snd (pair_sifting p k e w)).
Proof.
  intros Hp N H. rewrite (pair_engine_custom_run p k e s ak Hp N H).
  unfold bob_view, bind.
  destruct (pair_sifting p k e w) as [[st | x |] w1]; reflexivity.
Qed.

(* ================================================================== *)
(** ** Runs that complete *)
(* ================================================================== *)

Lemma bb84_random_attempt_drives e keys :
  drives (BB84Protocol.random_attempt e keys) ([0; 0; 0] ++ quiet e)
    [ [[false]] ] (fst keys ++ [0], snd keys ++ [0])
    [(Qiskit.measure 0 0 (Qiskit.new 1 1), [[false]])].
Proof.
  destruct e; intros ent' sh' js; vm_compute; reflexivity.
Qed.

Lemma all_allowed_app n1 n2 :
  all_allowed n1 -> all_allowed n2 -> all_allowed (n1 ++ n2).
Proof.
  unfold all_allowed. intros H1 H2. rewrite forallb_app, H1, H2. reflexivity.
Qed.

Lemma drives_ret {A : Type} (a : A) : drives (ret a) [] [] a [].
Proof. intros ent' sh' js. unfold ret. simpl. rewrite app_nil_r. reflexivity. Qed.

Lemma drives_bind {A B : Type} (m : M A) (f : A -> M B) e1 s1 a n1 e2 s2 b n2 :
  drives m e1 s1 a n1 -> drives (f a) e2 s2 b n2 ->
  drives (bind m f) (e1 ++ e2) (s1 ++ s2) b (n1 ++ n2).
Proof.
  intros H1 H2 ent' sh' js. unfold bind.
  rewrite <- !app_assoc, H1, H2, app_assoc. reflexivity.
Qed.

Lemma drives_after_lift {A B : Type} (a : A) (f : A -> M B) e s b n :
  drives (f a) e s b n -> drives (bind (lift (inr a)) f) e s b n.
Proof. intros H ent' sh' js. unfold bind, lift. apply H. Qed.

Lemma drives_loop_while {S : Type} (cond : S -> bool) (body : S -> M S)
  s ent sh r new :
  drives_loop cond body s ent sh r new ->
  drives (while cond body s) ent sh r new.
Proof.
  intros H ent' sh' js. unfold while. apply H. unfold budget. simpl.
  rewrite length_app. lia.
Qed.

(** A loop whose every pass can be driven, reads a random word and
    brings the end nearer, can be driven to its end. *)
Lemma loop_can_finish {S : Type} (cond : S -> bool) (body : S -> M S)
  (I : S -> Prop) (mu : S -> nat) :
  (forall s, I s -> cond s = true ->
     exists e1 s1 s' n1,
       e1 <> [] /\ drives (body s) e1 s1 s' n1 /\ all_allowed n1 /\
       I s' /\ (mu s' < mu s)%nat) ->
  forall s, I s ->
    exists ent sh r new,
      drives_loop cond body s ent sh r new /\ all_allowed new.
Proof.
  intros Hbody s. remember (mu s) as n eqn:En.
  assert (Hn : (mu s <= n)%nat) by lia. clear En. revert s Hn.
  induction n as [| n IH]; intros s Hn Hs.
  - destruct (cond s) eqn:C.
    + destruct (Hbody s Hs C) as (? & ? & ? & ? & _ & _ & _ & _ & L). lia.
    + exists [], [], s, []. split; [| reflexivity].
      intros fuel Hf. destruct fuel; [simpl in Hf; lia |].
      simpl. rewrite C. apply drives_ret.
  - destruct (cond s) eqn:C.
    + destruct (Hbody s Hs C) as (e1 & s1 & s' & n1 & Ne & D & A1 & Is' & L).
      destruct (IH s' ltac:(lia) Is') as (e2 & s2 & r & n2 & D2 & A2).
      exists (e1 ++ e2), (s1 ++ s2), r, (n1 ++ n2).
      split; [| apply all_allowed_app; assumption].
      intros fuel Hf. destruct fuel; [lia |].
      simpl. rewrite C. eapply drives_bind; [exact D |].
      apply D2. rewrite length_app in Hf.
      destruct e1; [contradiction | simpl in Hf; lia].
    + exists [], [], s, []. split; [| reflexivity].
      intros fuel Hf. destruct fuel; [simpl in Hf; lia |].
      simpl. rewrite C. apply drives_ret.
Qed.

Lemma for_each_can_finish {A S : Type} (body : A -> S -> M S) l :
  (forall a s, In a l ->
     exists e1 s1 s' n1, drives (body a s) e1 s1 s' n1 /\ all_allowed n1) ->
  forall s,
    exists ent sh r new,
      drives (for_each l body s) ent sh r new /\ all_allowed new.
Proof.
  induction l as [| a l IH]; intros Hbody s.
  - exists [], [], s, []. split; [apply drives_ret | reflexivity].
  - destruct (Hbody a s (or_introl eq_refl)) as (e1 & s1 & s' & n1 & D & A1).
    destruct (IH (fun a s H => Hbody a s (or_intror H)) s')
      as (e2 & s2 & r & n2 & D2 & A2).
    exists (e1 ++ e2), (s1 ++ s2), r, (n1 ++ n2).
    split; [| apply all_allowed_app; assumption].
    simpl. eapply drives_bind; eassumption.
Qed.

Lemma e91_random_attempt_drives e keys :
  drives (E91Protocol.random_attempt e keys) ([0; 0] ++ quiet e)
    [ [[false; false]] ] (fst keys ++ [0], snd keys ++ [0])
    [(Qiskit.measure 1 1
        (Qiskit.measure 0 0 (Qiskit.cx 0 1 (Qiskit.h 0 (Qiskit.new 2 2)))),
      [[false; false]])].
Proof.
  destruct e; intros ent' sh' js; vm_compute; reflexivity.
Qed.

Lemma bbm92_random_attempt_drives e keys :
  drives (BBM92Protocol.random_attempt e keys) ([0; 0] ++ quiet e)
    [ [[false; false]] ] (fst keys ++ [0], snd keys ++ [0])
    [(Qiskit.measure 1 1
        (Qiskit.measure 0 0 (Qiskit.cx 0 1 (Qiskit.h 0 (Qiskit.new 2 2)))),
      [[false; false]])].
Proof.
  destruct e; intros ent' sh' js; vm_compute; reflexivity.
Qed.

Lemma e91_custom_body_drives e st :
  drives (r <- E91Protocol.custom_attempt e st ;; ret (snd r))
    ([0; 0] ++ quiet e) [ [[false; false]] ]
    {| sift_bob_key := sift_bob_key st ++ [0];
       bit_index := S (bit_index st) |}
    [(Qiskit.measure 1 1
        (Qiskit.measure 0 0 (Qiskit.cx 0 1 (Qiskit.h 0 (Qiskit.new 2 2)))),
      [[false; false]])].
Proof.
  destruct e; intros ent' sh' js; vm_compute; reflexivity.
Qed.

Lemma bbm92_custom_body_drives e st :
  drives (r <- BBM92Protocol.custom_attempt e st ;; ret (snd r))
    ([0; 0] ++ quiet e) [ [[false; false]] ]
    {| sift_bob_key := sift_bob_key st ++ [0];
       bit_index := S (bit_index st) |}
    [(Qiskit.measure 1 1
        (Qiskit.measure 0 0 (Qiskit.cx 0 1 (Qiskit.h 0 (Qiskit.new 2 2)))),
      [[false; false]])].
Proof.
  destruct e; intros ent' sh' js; vm_compute; reflexivity.
Qed.

Lemma teleport_random_round_drives e i keys :
  drives (TeleportationQKD.random_round e i keys) ([0] ++ quiet e)
    [ [[false; false; false]]; [[false]] ]
    (fst keys ++ [0], snd keys ++ [0])
    [(Qiskit.measure 1 1
        (Qiskit.measure 0 0
           (Qiskit.h 0 (Qiskit.cx 0 1 (Qiskit.cx 1 2
              (Qiskit.h 1 (Qiskit.new 3 3)))))),
      [[false; false; false]]);
     (Qiskit.measure 0 0 (Qiskit.new 1 1), [[false]])].
Proof.
  destruct e; intros ent' sh' js;
    match goal with |- _ = (_, {| entropy := _; shots := _;
                                  jobs := js ++ [?a; ?b] |}) =>
      replace (js ++ [a; b]) with ((js ++ [a]) ++ [b])
        by (rewrite <- app_assoc; reflexivity)
    end; vm_compute; reflexivity.
Qed.

Lemma bb84_custom_body_drives e ak st b :
  nth_error ak (bit_index st) = Some b ->
  drives (r <- BB84Protocol.custom_attempt e ak st ;; ret (snd r))
    ([0; 0] ++ quiet e) [ [[b =? 1]] ]
    {| sift_bob_key := sift_bob_key st ++ [if b =? 1 then 1 else 0];
       bit_index := S (bit_index st) |}
    [(Qiskit.measure 0 0
        (Qiskit.gate_if (b =? 1) (Qiskit.x 0) (Qiskit.new 1 1)),
      [[b =? 1]])].
Proof.
  intros N. unfold BB84Protocol.custom_attempt, Py.list_getitem.
  rewrite N.
  destruct b as [| [p | p |] | p]; destruct e; intros ent' sh' js;
    vm_compute; reflexivity.
Qed.

Lemma teleport_custom_round_drives e ak i bob b :
  nth_error ak i = Some b ->
  drives (TeleportationQKD.custom_round e ak i bob) (quiet e)
    [ [[false; false; false]]; [[false]] ] (bob ++ [0])
    [(Qiskit.measure 1 1
        (Qiskit.measure 0 0
           (Qiskit.h 0 (Qiskit.cx 0 1 (Qiskit.cx 1 2
              (Qiskit.h 1
                 (Qiskit.gate_if (b =? 1) (Qiskit.x 0)
                    (Qiskit.new 3 3))))))),
      [[false; false; false]]);
     (Qiskit.measure 0 0 (Qiskit.new 1 1), [[false]])].
Proof.
  intros N. unfold TeleportationQKD.custom_round, Py.list_getitem.
  rewrite N.
  destruct b as [| [p | p |] | p]; destruct e; intros ent' sh' js;
    match goal with |- _ = (_, {| entropy := _; shots := _;
                                  jobs := js ++ [?a; ?b] |}) =>
      replace (js ++ [a; b]) with ((js ++ [a]) ++ [b])
        by (rewrite <- app_assoc; reflexivity)
    end; vm_compute; reflexivity.
Qed.

Lemma quiet_round_nonempty (l : list Z) e : l <> [] -> l ++ quiet e <> [].
Proof. destruct l; [contradiction | discriminate]. Qed.

Lemma to_go_app k key b :
  (Py.len key <? k) = true -> (to_go k (key ++ [b]) < to_go k key)%nat.
Proof.
  intros H. apply Z.ltb_lt in H. unfold to_go. rewrite len_app. lia.
Qed.

Lemma sifting_can_finish (body : sift -> M sift) k st
  (circuit : Qiskit.QuantumCircuit) (m : Qiskit.Memory) e :
  (forall st, drives (body st) ([0; 0] ++ quiet e) [m]
                {| sift_bob_key := sift_bob_key st ++ [0];
                   bit_index := S (bit_index st) |} [(circuit, m)]) ->
  Qiskit.allowed circuit m = true ->
  exists ent sh r new,
    drives (while (fun st => Py.len (sift_bob_key st) <? k) body st)
      ent sh r new /\ all_allowed new.
Proof.
  intros D A.
  destruct (loop_can_finish (fun st => Py.len (sift_bob_key st) <? k) body
              (fun _ => True) (fun st => to_go k (sift_bob_key st)))
    with (s := st) as (ent & sh & r & new & L & Al).
  - intros s _ C. eexists _, _, _, _.
    refine (conj _ (conj (D s) (conj _ (conj I _)))).
    + apply quiet_round_nonempty; discriminate.
    + unfold all_allowed; simpl; rewrite A; reflexivity.
    + simpl. apply to_go_app. exact C.
  - exact I.
  - exists ent, sh, r, new. split; [apply drives_loop_while; exact L | exact Al].
Qed.

Lemma growing_can_finish (body : list Z * list Z -> M (list Z * list Z)) k
  keys (round : list Z) (sh1 : list Qiskit.Memory)
  (new1 : list (Qiskit.QuantumCircuit * Qiskit.Memory)) e :
  round <> [] ->
  (forall keys, drives (body keys) (round ++ quiet e) sh1
                  (fst keys ++ [0], snd keys ++ [0]) new1) ->
  all_allowed new1 ->
  exists ent sh r new,
    drives (while (fun keys => Py.len (fst keys) <? k) body keys)
      ent sh r new /\ all_allowed new.
Proof.
  intros Ne D A.
  destruct (loop_can_finish (fun keys => Py.len (fst keys) <? k) body
              (fun _ => True) (fun keys => to_go k (fst keys)))
    with (s := keys) as (ent & sh & r & new & L & Al).
  - intros s _ C. eexists _, _, _, _.
    refine (conj _ (conj (D s) (conj A (conj I _)))).
    + apply quiet_round_nonempty; exact Ne.
    + simpl. apply to_go_app. exact C.
  - exact I.
  - exists ent, sh, r, new. split; [apply drives_loop_while; exact L | exact Al].
Qed.

Lemma bb84_custom_can_finish e ak k :
  (Py.len ak = k \/ k <= 0) ->
  exists ent sh r new,
    drives (while (fun st => Py.len (sift_bob_key st) <? k)
              (fun st => r <- BB84Protocol.custom_attempt e ak st ;;
                         ret (snd r))
              {| sift_bob_key := []; bit_index := 0 |})
      ent sh r new /\ all_allowed new.
Proof.
  intros Hk.
  destruct (loop_can_finish (fun st => Py.len (sift_bob_key st) <? k)
              (fun st => r <- BB84Protocol.custom_attempt e ak st ;;
                         ret (snd r))
              (fun st => bit_index st = List.length (sift_bob_key st))
              (fun st => to_go k (sift_bob_key st)))
    with (s := {| sift_bob_key := []; bit_index := 0 |})
    as (ent & sh & r & new & L & Al).
  - intros s Is C.
    assert (Lt : (bit_index s < List.length ak)%nat).
    { apply Z.ltb_lt in C. unfold Py.len in *. lia. }
    destruct (nth_error ak (bit_index s)) as [b |] eqn:N;
      [| apply nth_error_None in N; lia].
    eexists _, _, _, _.
    refine (conj _ (conj (bb84_custom_body_drives e ak s b N)
                      (conj _ (conj _ _)))).
    + apply quiet_round_nonempty; discriminate.
    + unfold all_allowed; simpl; destruct (b =? 1); reflexivity.
    + simpl; rewrite length_app; simpl; lia.
    + simpl. apply to_go_app. exact C.
  - reflexivity.
  - exists ent, sh, r, new. split; [apply drives_loop_while; exact L | exact Al].
Qed.

(** Every call the engine accepts can be driven to its end: there are
    draws and backend answers, all of them ones the submitted circuits
    allow, on which it returns, whatever the log held before and
    whatever follows on the tapes. *)
Lemma generate_key_can_be_driven p k e cb :
  match Py.truthy cb with
  | Some s => ~ engine_rejects s k
  | None => True
  end ->
  exists ent sh kp new,
    drives (generate_key p k e cb) ent sh kp new /\ all_allowed new.
Proof.
  intros Acc.
  assert (G : exists ent sh kp new,
             drives (generate_key p k e cb) ent sh kp new /\ all_allowed new).
  { destruct (Py.truthy cb) as [s |] eqn:T.
    - destruct (custom_alice_key s k) as [x | ak] eqn:E.
      { exfalso. apply Acc. apply custom_alice_key_rejects. eauto. }
      assert (Len : Py.len ak = k \/ k <= 0).
      { destruct (Z_le_gt_dec k 0); [right; assumption | left].
        eapply custom_alice_key_len; [| exact E]. lia. }
      destruct p; simpl;
        [ unfold BB84Protocol.generate_key
        | unfold E91Protocol.generate_key
        | unfold BBM92Protocol.generate_key
        | unfold TeleportationQKD.generate_key ]; rewrite T, E.
      + destruct (bb84_custom_can_finish e ak k Len)
          as (ent & sh & r & new & D & A).
        eexists ent, sh, _, new. split; [| exact A].
        apply drives_after_lift.
        rewrite <- (app_nil_r ent), <- (app_nil_r sh), <- (app_nil_r new).
        eapply drives_bind; [exact D | apply drives_ret].
      + destruct (sifting_can_finish
                    (fun st => r <- E91Protocol.custom_attempt e st ;;
                               ret (snd r)) k
                    {| sift_bob_key := []; bit_index := 0 |} _ _ e
                    (e91_custom_body_drives e) eq_refl)
          as (ent & sh & r & new & D & A).
        eexists ent, sh, _, new. split; [| exact A].
        apply drives_after_lift.
        rewrite <- (app_nil_r ent), <- (app_nil_r sh), <- (app_nil_r new).
        eapply drives_bind; [exact D | apply drives_ret].
      + destruct (sifting_can_finish
                    (fun st => r <- BBM92Protocol.custom_attempt e st ;;
                               ret (snd r)) k
                    {| sift_bob_key := []; bit_index := 0 |} _ _ e
                    (bbm92_custom_body_drives e) eq_refl)
          as (ent & sh & r & new & D & A).
        eexists ent, sh, _, new. split; [| exact A].
        apply drives_after_lift.
        rewrite <- (app_nil_r ent), <- (app_nil_r sh), <- (app_nil_r new).
        eapply drives_bind; [exact D | apply drives_ret].
      + destruct (for_each_can_finish
                    (TeleportationQKD.custom_round e ak) (range k))
          with (s := @nil Z) as (ent & sh & r & new & D & A).
        { intros i bob Hi. unfold range in Hi. apply in_seq in Hi.
          assert (Lt : (i < List.length ak)%nat)
            by (unfold Py.len in Len; lia).
          destruct (nth_error ak i) as [b |] eqn:N;
            [| apply nth_error_None in N; lia].
          eexists _, _, _, _.
          split; [apply teleport_custom_round_drives; exact N |].
          unfold all_allowed. simpl. destruct (b =? 1); reflexivity. }
        eexists ent, sh, _, new. split; [| exact A].
        apply drives_after_lift.
        rewrite <- (app_nil_r ent), <- (app_nil_r sh), <- (app_nil_r new).
        eapply drives_bind; [exact D | apply drives_ret].
    - destruct p; simpl;
        [ unfold BB84Protocol.generate_key
        | unfold E91Protocol.generate_key
        | unfold BBM92Protocol.generate_key
        | unfold TeleportationQKD.generate_key ]; rewrite T.
      + destruct (growing_can_finish (BB84Protocol.random_attempt e) k
                    ([], []) [0; 0; 0] _ _ e ltac:(discriminate)
                    (bb84_random_attempt_drives e) eq_refl)
          as (ent & sh & r & new & D & A).
        eexists ent, sh, _, new. split; [| exact A].
        rewrite <- (app_nil_r ent), <- (app_nil_r sh), <- (app_nil_r new).
        eapply drives_bind; [exact D | apply drives_ret].
      + destruct (growing_can_finish (E91Protocol.random_attempt e) k
                    ([], []) [0; 0] _ _ e ltac:(discriminate)
                    (e91_random_attempt_drives e) eq_refl)
          as (ent & sh & r & new & D & A).
        eexists ent, sh, _, new. split; [| exact A].
        rewrite <- (app_nil_r ent), <- (app_nil_r sh), <- (app_nil_r new).
        eapply drives_bind; [exact D | apply drives_ret].
      + destruct (growing_can_finish (BBM92Protocol.random_attempt e) k
                    ([], []) [0; 0] _ _ e ltac:(discriminate)
                    (bbm92_random_attempt_drives e) eq_refl)
          as (ent & sh & r & new & D & A).
        eexists ent, sh, _, new. split; [| exact A].
        rewrite <- (app_nil_r ent), <- (app_nil_r sh), <- (app_nil_r new).
        eapply drives_bind; [exact D | apply drives_ret].
      + destruct (for_each_can_finish
                    (TeleportationQKD.random_round e) (range k))
          with (s := (@nil Z, @nil Z)) as (ent & sh & r & new & D & A).
        { intros i keys _. eexists _, _, _, _.
          split; [apply teleport_random_round_drives | reflexivity]. }
        eexists ent, sh, _, new. split; [| exact A].
        rewrite <- (app_nil_r ent), <- (app_nil_r sh), <- (app_nil_r new).
        eapply drives_bind; [exact D | apply drives_ret]. }
  exact G.
Qed.

(** Every call the engine accepts
    has a run that completes, on tapes whose backend answers are all
    ones the submitted circuits allow. *)
Theorem generate_key_can_complete p k e cb :
  match Py.truthy cb with
  | Some s => ~ engine_rejects s k
  | None => True
  end ->
  exists w kp w',
    generate_key p k e cb w = (Ok kp, w') /\ jobs w = [] /\
    faithful (jobs w').
Proof.
  intros Acc.
  destruct (generate_key_can_be_driven p k e cb Acc)
    as (ent & sh & kp & new & D & A).
  exists {| entropy := ent ++ []; shots := sh ++ []; jobs := [] |}, kp,
         {| entropy := []; shots := []; jobs := [] ++ new |}.
  split; [apply D |]. split; [reflexivity |].
  simpl. apply faithful_check. exact A.
Qed.

(* ================================================================== *)
(** ** A backend that keeps to the circuits *)
(* ================================================================== *)

Lemma set_bit_shape m c b :
  map (@List.length bool) (Qiskit.set_bit m c b) = map (@List.length bool) m.
Proof.
  revert c. induction m as [| r m IH]; intros c; cbn [Qiskit.set_bit map];
    [reflexivity |].
  destruct (c <? List.length r)%nat eqn:E; cbn [map].
  - f_equal. apply Nat.ltb_lt in E.
    rewrite length_app. cbn [List.length].
    rewrite length_firstn, length_skipn. lia.
  - f_equal. apply IH.
Qed.

Lemma step_shape sizes i brs :
  Forall (fun br : Qiskit.branch => map (@List.length bool) (fst br) = sizes)
    brs ->
  Forall (fun br : Qiskit.branch => map (@List.length bool) (fst br) = sizes)
    (Qiskit.step i brs).
Proof.
  intros H. rewrite Forall_forall in *.
  destruct i; simpl; intros br Hbr;
    try (apply in_map_iff in Hbr; destruct Hbr as (br0 & <- & Hin); simpl;
         apply H; exact Hin);
    try (apply H; exact Hbr).
  apply in_flat_map in Hbr. destruct Hbr as (br0 & Hin & Hbr).
  unfold Qiskit.measure_branch in Hbr. apply in_flat_map in Hbr.
  destruct Hbr as (b & _ & Hbr).
  destruct (forallb Qiskit.is_zero _); [contradiction |].
  destruct Hbr as [<- | []]. simpl. rewrite set_bit_shape. apply H. exact Hin.
Qed.

(** A shot leaves a memory with the registers of the circuit. *)
Lemma outcomes_shape qc m :
  In m (Qiskit.outcomes qc) ->
  map (@List.length bool) m = Qiskit.cregs qc.
Proof.
  unfold Qiskit.outcomes. intros H. apply in_map_iff in H.
  destruct H as (br & <- & Hin).
  assert (G : forall l brs,
             Forall (fun br : Qiskit.branch =>
                       map (@List.length bool) (fst br) = Qiskit.cregs qc)
               brs ->
             Forall (fun br : Qiskit.branch =>
                       map (@List.length bool) (fst br) = Qiskit.cregs qc)
               (fold_left (fun brs i => Qiskit.step i brs) l brs)).
  { induction l as [| i l IH]; intros brs Hb; simpl; [exact Hb |].
    apply IH. apply step_shape. exact Hb. }
  assert (G0 : Forall (fun br : Qiskit.branch =>
                         map (@List.length bool) (fst br) = Qiskit.cregs qc)
                 [Qiskit.initial qc]).
  { constructor; [| constructor]. unfold Qiskit.initial. simpl.
    rewrite map_map. rewrite <- (map_id (Qiskit.cregs qc)) at 2.
    apply map_ext. intros n. apply repeat_length. }
  apply (G (Qiskit.data qc)) in G0. rewrite Forall_forall in G0.
  apply G0. exact Hin.
Qed.

Section Safe.

Context {A B : Type}.

Lemma safe_ret (a : A) (P : A -> Prop) : P a -> safe (ret a) P.
Proof. intros H w r w' E _. inversion E. exact H. Qed.

Lemma safe_lift (v : Py.exn + A) a (P : A -> Prop) :
  v = inr a -> P a -> safe (lift v) P.
Proof. intros -> H w r w' E _. inversion E. exact H. Qed.

Lemma safe_lift_eq (v : Py.exn + A) a :
  v = inr a -> safe (lift v) (fun a' => a' = a).
Proof. intros H. eapply safe_lift; [exact H | reflexivity]. Qed.

Lemma safe_bind (m : M A) (f : A -> M B) (P : A -> Prop) (Q : B -> Prop) :
  safe m P -> (forall a, P a -> safe (f a) Q) -> (forall a, steady (f a)) ->
  safe (bind m f) Q.
Proof.
  intros Hm Hf Sf w r w'. unfold bind.
  destruct (m w) as [[a | x |] w1] eqn:E; intros H F.
  - eapply Hf; [| exact H | exact F].
    apply (Hm _ _ _ E). eapply faithful_before; [| exact F].
    eapply Sf. exact H.
  - inversion H; subst. apply (Hm _ _ _ E F).
  - inversion H; subst. exact I.
Qed.

Lemma safe_weaken (m : M A) (P Q : A -> Prop) :
  safe m P -> (forall a, P a -> Q a) -> safe m Q.
Proof.
  intros Hm HPQ w r w' E F. specialize (Hm _ _ _ E F).
  destruct r; auto.
Qed.

End Safe.

Lemma safe_word : safe Random.word (fun _ => True).
Proof.
  intros w r w'. unfold Random.word. destruct (entropy w);
    intros H _; inversion H; exact I.
Qed.

Lemma safe_randint a b :
  a <= b -> safe (Random.randint a b) (fun v => a <= v <= b).
Proof.
  intros Hab. unfold Random.randint.
  eapply safe_bind; [apply safe_word | | intros; steady_tac].
  intros n _. apply safe_ret.
  pose proof (Z.mod_pos_bound n (b - a + 1)). lia.
Qed.

Lemma safe_random : safe Random.random (fun _ => True).
Proof.
  unfold Random.random.
  eapply safe_bind; [apply safe_word | | intros; steady_tac].
  intros n _. apply safe_ret. exact I.
Qed.

Lemma safe_choice {A : Type} (l : list A) :
  l <> [] -> safe (Random.choice l) (fun a => In a l).
Proof.
  intros Hl. unfold Random.choice.
  eapply safe_bind; [apply safe_word | | intros; steady_tac].
  intros n _.
  assert (P : 0 < Py.len l).
  { unfold Py.len. destruct l; [contradiction | simpl; lia]. }
  pose proof (Z.mod_pos_bound n (Py.len l) P) as Bd.
  destruct (nth_error l (Z.to_nat (n mod Py.len l))) as [a |] eqn:E.
  - eapply safe_lift; [unfold Py.list_getitem; rewrite E; reflexivity |].
    eapply nth_error_In. exact E.
  - apply nth_error_None in E. unfold Py.len in *. lia.
Qed.

Lemma safe_eve_acts e p : safe (eve_acts e p) (fun _ => True).
Proof.
  unfold eve_acts. destruct e.
  - eapply safe_bind; [apply safe_random | | intros; steady_tac].
    intros. apply safe_ret. exact I.
  - apply safe_ret. exact I.
Qed.

Lemma safe_run qc : safe (Backend.run qc) (shaped (Qiskit.cregs qc)).
Proof.
  intros w r w'. unfold Backend.run. destruct (shots w) as [| m rest];
    intros H F; inversion H; subst; [exact I |].
  simpl in F. apply faithful_last in F.
  exists m. split; [reflexivity | apply outcomes_shape; exact F].
Qed.

Lemma safe_while_fuel {S : Type} (I : S -> Prop) (cond : S -> bool)
  (body : S -> M S) :
  (forall s, I s -> cond s = true -> safe (body s) I) ->
  (forall s, steady (body s)) ->
  forall fuel s, I s ->
    safe (while_fuel fuel cond body s) (fun s' => I s' /\ cond s' = false).
Proof.
  intros Hb Sb. induction fuel as [| fuel IH]; intros s Hs; simpl.
  - intros w r w' H _. inversion H. exact Logic.I.
  - destruct (cond s) eqn:C.
    + eapply safe_bind; [apply Hb; assumption | |].
      * intros s' Hs'. apply IH. exact Hs'.
      * intros. apply steady_while_fuel. exact Sb.
    + apply safe_ret. split; assumption.
Qed.

Lemma safe_while {S : Type} (I : S -> Prop) (cond : S -> bool)
  (body : S -> M S) s :
  (forall s, I s -> cond s = true -> safe (body s) I) ->
  (forall s, steady (body s)) ->
  I s -> safe (while cond body s) (fun s' => I s' /\ cond s' = false).
Proof.
  intros Hb Sb Hs w r w' H. unfold while in H.
  eapply safe_while_fuel; eauto.
Qed.

Lemma safe_for_each {A S : Type} (I : S -> Prop) (body : A -> S -> M S) l :
  (forall a s, In a l -> I s -> safe (body a s) I) ->
  (forall a s, steady (body a s)) ->
  forall s, I s -> safe (for_each l body s) I.
Proof.
  intros Hb Sb. induction l as [| a l IH]; intros s Hs; simpl.
  - apply safe_ret. exact Hs.
  - eapply safe_bind; [apply Hb; [left; reflexivity | exact Hs] | |].
    + intros s' Hs'. apply IH; [| exact Hs'].
      intros. apply Hb; [right |]; assumption.
    + intros. apply steady_for_each. exact Sb.
Qed.

(** *** Memory strings of the engines' circuits *)

Lemma shaped_1 s :
  shaped [1%nat] s ->
  exists b, s = String (Qiskit.bit_char b) EmptyString.
Proof.
  intros (m & -> & Hm).
  destruct m as [| [| b [| ? ?]] [| ? ?]]; try discriminate.
  exists b. reflexivity.
Qed.

Lemma shaped_2 s :
  shaped [2%nat] s ->
  exists b1 b0,
    s = String (Qiskit.bit_char b1) (String (Qiskit.bit_char b0) EmptyString).
Proof.
  intros (m & -> & Hm).
  destruct m as [| [| b0 [| b1 [| ? ?]]] [| ? ?]]; try discriminate.
  exists b1, b0. reflexivity.
Qed.

Lemma shaped_3 s :
  shaped [3%nat] s ->
  exists b2 b1 b0,
    s = String (Qiskit.bit_char b2)
          (String (Qiskit.bit_char b1)
             (String (Qiskit.bit_char b0) EmptyString)).
Proof.
  intros (m & -> & Hm).
  destruct m as [| [| b0 [| b1 [| b2 [| ? ?]]]] [| ? ?]]; try discriminate.
  exists b2, b1, b0. reflexivity.
Qed.

Lemma shaped_2_2 s :
  shaped [2%nat; 2%nat] s ->
  exists m1 m0 c1 c0,
    s = String (Qiskit.bit_char m1)
          (String (Qiskit.bit_char m0)
             (String " "
                (String (Qiskit.bit_char c1)
                   (String (Qiskit.bit_char c0) EmptyString)))).
Proof.
  intros (m & -> & Hm).
  destruct m as [| [| c0 [| c1 [| ? ?]]]
                   [| [| m0 [| m1 [| ? ?]]] [| ? ?]]]; try discriminate.
  exists m1, m0, c1, c0. reflexivity.
Qed.

Lemma int_bit b :
  Py.int (String (Qiskit.bit_char b) EmptyString) = inr (bit_value b).
Proof. destruct b; reflexivity. Qed.

Lemma int_of_char_bit b : Py.int_of_char (Qiskit.bit_char b) = inr (bit_value b).
Proof. destruct b; reflexivity. Qed.

Lemma bit_value_bit b : is_bit (bit_value b).
Proof. destruct b; [right | left]; reflexivity. Qed.

(** Brings [Qiskit.cregs] of a circuit the engines build to its value. *)
Ltac cregs_norm :=
  unfold E91Protocol.rotate, BBM92Protocol.rotate in *;
  unfold Qiskit.gate_if in *;
  repeat match goal with
    | H : context [if ?c then _ else _] |- _ => destruct c
    | |- context [if ?c then _ else _] => destruct c
    end;
  simpl Qiskit.cregs in *.

Lemma steady_bb84_transmit e a ab bb :
  steady (BB84Protocol.transmit e a ab bb).
Proof. unfold BB84Protocol.transmit. steady_tac. Qed.

Lemma safe_bb84_transmit e a ab bb :
  safe (BB84Protocol.transmit e a ab bb) is_bit.
Proof.
  unfold BB84Protocol.transmit.
  eapply safe_bind; [apply safe_eve_acts | | intros; steady_tac].
  intros intercepted _.
  apply (safe_bind _ _ (fun qc => Qiskit.cregs qc = [1%nat]));
    [| | intros; steady_tac].
  - destruct intercepted.
    + eapply safe_bind; [apply safe_randint; lia | | intros; steady_tac].
      intros eve_basis _.
      eapply safe_bind; [apply safe_run | | intros; steady_tac].
      intros memory Hm.
      assert (Sh : shaped [1%nat] memory) by (cregs_norm; exact Hm).
      apply shaped_1 in Sh. destruct Sh as [b ->].
      eapply safe_bind;
        [apply safe_lift_eq; apply int_bit | | intros; steady_tac].
      intros eve_result _. apply safe_ret. cregs_norm; reflexivity.
    + apply safe_ret. cregs_norm; reflexivity.
  - intros qc Hqc.
    eapply safe_bind; [apply safe_run | | intros; steady_tac].
    intros memory Hm.
    assert (Sh : shaped [1%nat] memory)
      by (cregs_norm; rewrite Hqc in Hm; exact Hm).
    apply shaped_1 in Sh. destruct Sh as [b ->].
    eapply safe_lift; [apply int_bit | apply bit_value_bit].
Qed.

Lemma steady_e91_exchange e : steady (E91Protocol.exchange e).
Proof. unfold E91Protocol.exchange. steady_tac. Qed.

Lemma steady_bbm92_exchange e : steady (BBM92Protocol.exchange e).
Proof. unfold BBM92Protocol.exchange. steady_tac. Qed.

Lemma steady_bob_bit_of ab ms : steady (E91Protocol.bob_bit_of ab ms).
Proof. unfold E91Protocol.bob_bit_of. steady_tac. Qed.

(** [steady] for code that calls the rounds of the engines. *)
Ltac steady_calls :=
  repeat (steady_tac;
          try first [ apply steady_bb84_transmit | apply steady_e91_exchange
                    | apply steady_bbm92_exchange | apply steady_bob_bit_of
                    | apply steady_teleport ]).

Lemma safe_e91_exchange e :
  safe (E91Protocol.exchange e) (fun r => shaped [2%nat] (snd r)).
Proof.
  unfold E91Protocol.exchange.
  eapply safe_bind; [apply safe_randint; lia | | intros; steady_tac].
  intros alice_basis _.
  eapply safe_bind; [apply safe_randint; lia | | intros; steady_tac].
  intros bob_basis _.
  eapply safe_bind; [apply safe_eve_acts | | intros; steady_tac].
  intros intercepted _.
  apply (safe_bind _ _ (fun qc => Qiskit.cregs qc = [2%nat]));
    [| | intros; steady_tac].
  - destruct intercepted.
    + eapply safe_bind; [apply safe_run | | intros; steady_tac].
      intros eve_results Hm.
      assert (Sh : shaped [2%nat; 2%nat] eve_results)
        by (cregs_norm; exact Hm).
      apply shaped_2_2 in Sh. destruct Sh as (m1 & m0 & c1 & c0 & ->).
      eapply safe_bind;
        [apply safe_lift_eq; reflexivity | | intros; steady_tac].
      intros ? ->.
      eapply safe_bind;
        [apply safe_lift_eq; reflexivity | | intros; steady_tac].
      intros ? ->.
      eapply safe_bind; [apply safe_random | | intros; steady_tac].
      intros u _. destruct (Qltb u (1 # 10)).
      * eapply safe_bind; [apply safe_randint; lia | | intros; steady_tac].
        intros q _. apply safe_ret. cregs_norm; reflexivity.
      * apply safe_ret. cregs_norm; reflexivity.
    + apply safe_ret. cregs_norm; reflexivity.
  - intros qc Hqc.
    eapply safe_bind; [apply safe_run | | intros; steady_tac].
    intros measurements Hm. apply safe_ret. simpl.
    simpl Qiskit.cregs in Hm. rewrite Hqc in Hm. exact Hm.
Qed.

Lemma safe_bob_bit_of alice_basis measurements :
  shaped [2%nat] measurements ->
  safe (E91Protocol.bob_bit_of alice_basis measurements) is_bit.
Proof.
  intros Sh. apply shaped_2 in Sh. destruct Sh as (b1 & b0 & ->).
  unfold E91Protocol.bob_bit_of.
  eapply safe_bind; [apply safe_lift_eq; reflexivity | | intros; steady_tac].
  intros ? ->.
  eapply safe_bind;
    [apply safe_lift_eq; apply int_of_char_bit | | intros; steady_tac].
  intros ? ->. apply safe_ret.
  destruct (alice_basis =? 2); destruct b1; unfold is_bit; simpl; auto.
Qed.

Lemma safe_bbm92_exchange e :
  safe (BBM92Protocol.exchange e) (fun r => shaped [2%nat] (snd r)).
Proof.
  unfold BBM92Protocol.exchange.
  eapply safe_bind;
    [apply safe_choice; discriminate | | intros; steady_tac].
  intros alice_basis _.
  eapply safe_bind;
    [apply safe_choice; discriminate | | intros; steady_tac].
  intros bob_basis _.
  eapply safe_bind; [apply safe_eve_acts | | intros; steady_tac].
  intros intercepted _.
  apply (safe_bind _ _ (fun qc => Qiskit.cregs qc = [2%nat]));
    [| | intros; steady_tac].
  - destruct intercepted.
    + eapply safe_bind; [apply safe_run | | intros; steady_tac].
      intros eve_results Hm.
      assert (Sh : shaped [2%nat; 2%nat] eve_results)
        by (cregs_norm; exact Hm).
      apply shaped_2_2 in Sh. destruct Sh as (m1 & m0 & c1 & c0 & ->).
      eapply safe_bind;
        [apply safe_lift_eq; reflexivity | | intros; steady_tac].
      intros ? ->.
      eapply safe_bind;
        [apply safe_lift_eq; reflexivity | | intros; steady_tac].
      intros ? ->. apply safe_ret. cregs_norm; reflexivity.
    + apply safe_ret. cregs_norm; reflexivity.
  - intros qc Hqc.
    eapply safe_bind; [apply safe_run | | intros; steady_tac].
    intros measurements Hm. apply safe_ret. simpl.
    simpl Qiskit.cregs in Hm. rewrite Hqc in Hm. exact Hm.
Qed.

Lemma safe_teleport e secret_bit :
  safe (TeleportationQKD.teleport e secret_bit) is_bit.
Proof.
  unfold TeleportationQKD.teleport.
  eapply safe_bind; [apply safe_eve_acts | | intros; steady_tac].
  intros attempt _.
  apply (safe_bind _ _ (fun qc => Qiskit.cregs qc = [3%nat]));
    [| | intros; steady_tac].
  - destruct attempt.
    + eapply safe_bind; [apply safe_random | | intros; steady_tac].
      intros u _. destruct (Qltb u (3 # 10)).
      * eapply safe_bind; [apply safe_randint; lia | | intros; steady_tac].
        intros q _. apply safe_ret. cregs_norm; reflexivity.
      * apply safe_ret. cregs_norm; reflexivity.
    + apply safe_ret. cregs_norm; reflexivity.
  - intros qc Hqc.
    eapply safe_bind; [apply safe_run | | intros; steady_tac].
    intros alice_measurements Hm.
    simpl Qiskit.cregs in Hm. rewrite Hqc in Hm.
    apply shaped_3 in Hm. destruct Hm as (b2 & b1 & b0 & ->).
    eapply safe_bind;
      [apply safe_lift_eq; reflexivity | | intros; steady_tac].
    intros ? ->.
    eapply safe_bind;
      [apply safe_lift_eq; reflexivity | | intros; steady_tac].
    intros ? ->.
    eapply safe_bind; [apply safe_run | | intros; steady_tac].
    intros memory Hm.
    assert (Sh : shaped [1%nat] memory) by (cregs_norm; exact Hm).
    apply shaped_1 in Sh. destruct Sh as [b ->].
    eapply safe_lift; [apply int_bit | apply bit_value_bit].
Qed.

(** *** One pass of each loop, under a backend that keeps to the circuits *)

Lemma Forall_snoc {A : Type} (P : A -> Prop) l a :
  Forall P l -> P a -> Forall P (l ++ [a]).
Proof.
  intros Hl Ha. apply Forall_app. split; [exact Hl |].
  constructor; [exact Ha | constructor].
Qed.

Lemma safe_bb84_custom_body e ak k st :
  k <= Py.len ak -> sift_bits st ->
  (Py.len (sift_bob_key st) <? k) = true ->
  safe (r <- BB84Protocol.custom_attempt e ak st ;; ret (snd r)) sift_bits.
Proof.
  intros Hk [Hi Hb] C. apply Z.ltb_lt in C.
  destruct (nth_error ak (bit_index st)) as [bit |] eqn:N;
    [| apply nth_error_None in N; unfold Py.len in *; lia].
  apply (safe_bind _ _ (fun r => sift_bits (snd r)));
    [| intros; apply safe_ret; assumption | intros; steady_tac].
  unfold BB84Protocol.custom_attempt.
  eapply safe_bind; [apply safe_randint; lia | | intros; steady_calls].
  intros alice_basis _.
  eapply safe_bind; [apply safe_randint; lia | | intros; steady_calls].
  intros bob_basis _.
  eapply safe_bind;
    [apply safe_lift_eq; unfold Py.list_getitem; rewrite N; reflexivity
    | | intros; steady_calls].
  intros ? ->.
  eapply safe_bind; [apply safe_bb84_transmit | | intros; steady_tac].
  intros bob_result Hr. apply safe_ret. simpl.
  destruct (alice_basis =? bob_basis); [| split; assumption].
  split; simpl.
  - rewrite length_app. simpl. lia.
  - apply Forall_snoc; assumption.
Qed.

Lemma safe_bb84_random_attempt e keys :
  key_bits keys -> safe (BB84Protocol.random_attempt e keys) key_bits.
Proof.
  intros [Ha Hb]. unfold BB84Protocol.random_attempt.
  eapply safe_bind; [apply safe_randint; lia | | intros; steady_calls].
  intros alice_bit Hbit.
  eapply safe_bind; [apply safe_randint; lia | | intros; steady_calls].
  intros alice_basis _.
  eapply safe_bind; [apply safe_randint; lia | | intros; steady_calls].
  intros bob_basis _.
  eapply safe_bind; [apply safe_bb84_transmit | | intros; steady_tac].
  intros bob_result Hr. apply safe_ret.
  destruct (alice_basis =? bob_basis); [| split; assumption].
  split; simpl; apply Forall_snoc; try assumption.
  unfold is_bit. cbv beta in *. lia.
Qed.

Lemma safe_e91_custom_body e st :
  sift_bits st ->
  safe (r <- E91Protocol.custom_attempt e st ;; ret (snd r)) sift_bits.
Proof.
  intros [Hi Hb].
  apply (safe_bind _ _ (fun r => sift_bits (snd r)));
    [| intros; apply safe_ret; assumption | intros; steady_tac].
  unfold E91Protocol.custom_attempt.
  eapply safe_bind; [apply safe_e91_exchange | | intros; steady_calls].
  intros [[alice_basis bob_basis] measurements] Sh. simpl in Sh.
  destruct (alice_basis =? bob_basis).
  - eapply safe_bind;
      [apply safe_bob_bit_of; exact Sh | | intros; steady_tac].
    intros bob_bit Hbit. apply safe_ret. split; simpl.
    + rewrite length_app. simpl. lia.
    + apply Forall_snoc; assumption.
  - apply safe_ret. split; assumption.
Qed.

Lemma safe_e91_random_attempt e keys :
  key_bits keys -> safe (E91Protocol.random_attempt e keys) key_bits.
Proof.
  intros [Ha Hb]. unfold E91Protocol.random_attempt.
  eapply safe_bind; [apply safe_e91_exchange | | intros; steady_calls].
  intros [[alice_basis bob_basis] measurements] Sh. simpl in Sh.
  destruct (alice_basis =? bob_basis); [| apply safe_ret; split; assumption].
  pose proof Sh as Sh2. apply shaped_2 in Sh2.
  destruct Sh2 as (b1 & b0 & E). rewrite E at 1.
  eapply safe_bind; [apply safe_lift_eq; reflexivity | | intros; steady_calls].
  intros ? ->.
  eapply safe_bind;
    [apply safe_lift_eq; apply int_of_char_bit | | intros; steady_calls].
  intros ? ->.
  eapply safe_bind;
    [apply safe_bob_bit_of; exact Sh | | intros; steady_tac].
  intros bob_bit Hbit. apply safe_ret.
  split; simpl; apply Forall_snoc; try assumption. apply bit_value_bit.
Qed.

Lemma safe_bbm92_custom_body e st :
  sift_bits st ->
  safe (r <- BBM92Protocol.custom_attempt e st ;; ret (snd r)) sift_bits.
Proof.
  intros [Hi Hb].
  apply (safe_bind _ _ (fun r => sift_bits (snd r)));
    [| intros; apply safe_ret; assumption | intros; steady_tac].
  unfold BBM92Protocol.custom_attempt.
  eapply safe_bind; [apply safe_bbm92_exchange | | intros; steady_calls].
  intros [[alice_basis bob_basis] measurements] Sh. simpl in Sh.
  destruct (String.eqb alice_basis bob_basis);
    [| apply safe_ret; split; assumption].
  apply shaped_2 in Sh. destruct Sh as (b1 & b0 & ->).
  eapply safe_bind; [apply safe_lift_eq; reflexivity | | intros; steady_tac].
  intros ? ->.
  eapply safe_bind;
    [apply safe_lift_eq; apply int_of_char_bit | | intros; steady_tac].
  intros ? ->. apply safe_ret. split; simpl.
  - rewrite length_app. simpl. lia.
  - apply Forall_snoc; [assumption | apply bit_value_bit].
Qed.

Lemma safe_bbm92_random_attempt e keys :
  key_bits keys -> safe (BBM92Protocol.random_attempt e keys) key_bits.
Proof.
  intros [Ha Hb]. unfold BBM92Protocol.random_attempt.
  eapply safe_bind; [apply safe_bbm92_exchange | | intros; steady_calls].
  intros [[alice_basis bob_basis] measurements] Sh. simpl in Sh.
  destruct (String.eqb alice_basis bob_basis);
    [| apply safe_ret; split; assumption].
  apply shaped_2 in Sh. destruct Sh as (b1 & b0 & ->).
  eapply safe_bind; [apply safe_lift_eq; reflexivity | | intros; steady_tac].
  intros ? ->.
  eapply safe_bind;
    [apply safe_lift_eq; apply int_of_char_bit | | intros; steady_tac].
  intros ? ->.
  eapply safe_bind; [apply safe_lift_eq; reflexivity | | intros; steady_tac].
  intros ? ->.
  eapply safe_bind;
    [apply safe_lift_eq; apply int_of_char_bit | | intros; steady_tac].
  intros ? ->. apply safe_ret.
  split; simpl; apply Forall_snoc; try assumption; apply bit_value_bit.
Qed.

Lemma safe_teleport_custom_round e ak i bob :
  (i < List.length ak)%nat -> Forall is_bit bob ->
  safe (TeleportationQKD.custom_round e ak i bob) (Forall is_bit).
Proof.
  intros Hi Hb. unfold TeleportationQKD.custom_round.
  destruct (nth_error ak i) as [bit |] eqn:N;
    [| apply nth_error_None in N; lia].
  eapply safe_bind;
    [apply safe_lift_eq; unfold Py.list_getitem; rewrite N; reflexivity
    | | intros; steady_calls].
  intros ? ->.
  eapply safe_bind; [apply safe_teleport | | intros; steady_tac].
  intros bob_bit Hbit. apply safe_ret. apply Forall_snoc; assumption.
Qed.

Lemma safe_teleport_random_round e i keys :
  key_bits keys -> safe (TeleportationQKD.random_round e i keys) key_bits.
Proof.
  intros [Ha Hb]. unfold TeleportationQKD.random_round.
  eapply safe_bind; [apply safe_randint; lia | | intros; steady_calls].
  intros secret_bit Hs.
  eapply safe_bind; [apply safe_teleport | | intros; steady_tac].
  intros bob_bit Hbit. apply safe_ret.
  split; simpl; apply Forall_snoc; try assumption. unfold is_bit. cbv beta in *. lia.
Qed.

Lemma custom_alice_key_long s k ak :
  custom_alice_key s k = inr ak -> k <= Py.len ak.
Proof.
  intros H. destruct (Z_le_gt_dec 0 k) as [P | P].
  - apply custom_alice_key_len in H; [lia | exact P].
  - unfold Py.len. lia.
Qed.

Lemma sift_bits_start : sift_bits {| sift_bob_key := []; bit_index := 0 |}.
Proof. split; [reflexivity | constructor]. Qed.

Lemma key_bits_start : key_bits ([], []).
Proof. split; constructor. Qed.

(** Under a backend that keeps to the circuits, an engine that has
    accepted its arguments does not raise, and the keys it returns hold
    bits. *)
Lemma generate_key_safe p k e cb :
  accepted cb k ->
  safe (generate_key p k e cb)
    (fun kp => Forall is_bit (bob_key kp) /\
               (Py.truthy cb = None -> Forall is_bit (alice_key kp))).
Proof.
  unfold accepted. destruct (Py.truthy cb) as [s |] eqn:T.
  - intros [ak Hak].
    pose proof (custom_alice_key_long _ _ _ Hak) as Len.
    assert (R : forall i, In i (range k) -> (i < List.length ak)%nat).
    { intros i Hi. unfold range in Hi. apply in_seq in Hi.
      unfold Py.len in Len. lia. }
    destruct p; simpl;
      [ unfold BB84Protocol.generate_key
      | unfold E91Protocol.generate_key
      | unfold BBM92Protocol.generate_key
      | unfold TeleportationQKD.generate_key ];
      rewrite T;
      (eapply safe_bind; [apply safe_lift_eq; exact Hak | intros ? -> |]).
    + eapply safe_bind.
      * apply (safe_while sift_bits);
          [ intros st Hst C; eapply safe_bb84_custom_body; eassumption
          | intros; apply steady_bb84_custom_body
          | apply sift_bits_start ].
      * intros st [[_ Hb] _]. apply safe_ret. simpl.
        split; [exact Hb | discriminate].
      * intros; steady_tac.
    + intros. apply steady_bind; [| intros; apply steady_ret].
      apply steady_while. intros. apply steady_bb84_custom_body.
    + eapply safe_bind.
      * apply (safe_while sift_bits);
          [ intros st Hst C; apply safe_e91_custom_body; assumption
          | intros; apply steady_e91_custom_body
          | apply sift_bits_start ].
      * intros st [[_ Hb] _]. apply safe_ret. simpl.
        split; [exact Hb | discriminate].
      * intros; steady_tac.
    + intros. apply steady_bind; [| intros; apply steady_ret].
      apply steady_while. intros. apply steady_e91_custom_body.
    + eapply safe_bind.
      * apply (safe_while sift_bits);
          [ intros st Hst C; apply safe_bbm92_custom_body; assumption
          | intros; apply steady_bbm92_custom_body
          | apply sift_bits_start ].
      * intros st [[_ Hb] _]. apply safe_ret. simpl.
        split; [exact Hb | discriminate].
      * intros; steady_tac.
    + intros. apply steady_bind; [| intros; apply steady_ret].
      apply steady_while. intros. apply steady_bbm92_custom_body.
    + eapply safe_bind.
      * apply (safe_for_each (Forall is_bit));
          [ intros i bob Hi Hb; apply safe_teleport_custom_round;
            [apply R; exact Hi | exact Hb]
          | intros; apply steady_teleport_custom_round
          | constructor ].
      * intros bob Hb. apply safe_ret. simpl.
        split; [exact Hb | discriminate].
      * intros; steady_tac.
    + intros. apply steady_bind; [| intros; apply steady_ret].
      apply steady_for_each. intros. apply steady_teleport_custom_round.
  - intros _.
    destruct p; simpl;
      [ unfold BB84Protocol.generate_key
      | unfold E91Protocol.generate_key
      | unfold BBM92Protocol.generate_key
      | unfold TeleportationQKD.generate_key ];
      rewrite T.
    + eapply safe_bind.
      * apply (safe_while key_bits);
          [ intros keys Hk C; apply safe_bb84_random_attempt; assumption
          | intros; apply steady_bb84_random_attempt
          | apply key_bits_start ].
      * intros keys [[Ha Hb] _]. apply safe_ret. simpl. split; auto.
      * intros; steady_tac.
    + eapply safe_bind.
      * apply (safe_while key_bits);
          [ intros keys Hk C; apply safe_e91_random_attempt; assumption
          | intros; apply steady_e91_random_attempt
          | apply key_bits_start ].
      * intros keys [[Ha Hb] _]. apply safe_ret. simpl. split; auto.
      * intros; steady_tac.
    + eapply safe_bind.
      * apply (safe_while key_bits);
          [ intros keys Hk C; apply safe_bbm92_random_attempt; assumption
          | intros; apply steady_bbm92_random_attempt
          | apply key_bits_start ].
      * intros keys [[Ha Hb] _]. apply safe_ret. simpl. split; auto.
      * intros; steady_tac.
    + eapply safe_bind.
      * apply (safe_for_each key_bits);
          [ intros i keys Hi Hk; apply safe_teleport_random_round; assumption
          | intros; apply steady_teleport_random_round
          | apply key_bits_start ].
      * intros keys [Ha Hb]. apply safe_ret. simpl. split; auto.
      * intros; steady_tac.
Qed.

Lemma truthy_Some cb s :
  Py.truthy cb = Some s -> cb = Some s /\ s <> EmptyString.
Proof.
  destruct cb as [[| c rest] |]; simpl; intros H; inversion H.
  split; [reflexivity | discriminate].
Qed.

Lemma in_01_digit c : Py.in_01 c = true -> is_digit c = true.
Proof.
  unfold Py.in_01. intros H. apply orb_true_iff in H.
  destruct H as [H | H]; apply Ascii.eqb_eq in H; subst; reflexivity.
Qed.

Lemma binary_digits l :
  forallb Py.in_01 l = true -> forallb is_digit l = true.
Proof.
  intros H. rewrite forallb_forall in *. intros c Hc.
  apply in_01_digit. apply H. exact Hc.
Qed.

(* ================================================================== *)
(** ** How runs end, and what a pass does *)
(* ================================================================== *)

(** Passes in which the bases differ. *)

Lemma bb84_random_attempt_stalls e keys :
  drives (BB84Protocol.random_attempt e keys) ([0; 0; 1] ++ quiet e)
    [ [[false]] ] keys
    [(Qiskit.measure 0 0 (Qiskit.h 0 (Qiskit.new 1 1)), [[false]])].
Proof.
  destruct keys; destruct e; intros ent' sh' js; vm_compute; reflexivity.
Qed.

Lemma bb84_custom_body_stalls e ak st b :
  nth_error ak (bit_index st) = Some b ->
  drives (r <- BB84Protocol.custom_attempt e ak st ;; ret (snd r))
    ([0; 1] ++ quiet e) [ [[false]] ] st
    [(Qiskit.measure 0 0
        (Qiskit.h 0 (Qiskit.gate_if (b =? 1) (Qiskit.x 0) (Qiskit.new 1 1))),
      [[false]])].
Proof.
  intros N. unfold BB84Protocol.custom_attempt, Py.list_getitem.
  rewrite N.
  destruct st; destruct b as [| [p | p |] | p]; destruct e;
    intros ent' sh' js; vm_compute; reflexivity.
Qed.

Lemma e91_random_attempt_stalls e keys :
  drives (E91Protocol.random_attempt e keys) ([0; 1] ++ quiet e)
    [ [[false; false]] ] keys [(pair_stall_circuit, [[false; false]])].
Proof.
  destruct keys; destruct e; intros ent' sh' js; vm_compute; reflexivity.
Qed.

Lemma e91_custom_body_stalls e st :
  drives (r <- E91Protocol.custom_attempt e st ;; ret (snd r))
    ([0; 1] ++ quiet e) [ [[false; false]] ] st
    [(pair_stall_circuit, [[false; false]])].
Proof.
  destruct st; destruct e; intros ent' sh' js; vm_compute; reflexivity.
Qed.

Lemma bbm92_random_attempt_stalls e keys :
  drives (BBM92Protocol.random_attempt e keys) ([0; 1] ++ quiet e)
    [ [[false; false]] ] keys [(pair_stall_circuit, [[false; false]])].
Proof.
  destruct keys; destruct e; intros ent' sh' js; vm_compute; reflexivity.
Qed.

Lemma bbm92_custom_body_stalls e st :
  drives (r <- BBM92Protocol.custom_attempt e st ;; ret (snd r))
    ([0; 1] ++ quiet e) [ [[false; false]] ] st
    [(pair_stall_circuit, [[false; false]])].
Proof.
  destruct st; destruct e; intros ent' sh' js; vm_compute; reflexivity.
Qed.

(** *** Runs without a result *)

Section Starved.

Context {A B : Type}.

Lemma starved_ret (a : A) : starved (ret a).
Proof. intros w w' H. inversion H. Qed.

Lemma starved_lift (r : Py.exn + A) : starved (lift r).
Proof. intros w w' H. destruct r; inversion H. Qed.

Lemma starved_bind (m : M A) (f : A -> M B) :
  starved m -> (forall a, starved (f a)) -> starved (bind m f).
Proof.
  intros Hm Hf w w'. unfold bind.
  destruct (m w) as [[a | e |] w1] eqn:E; intros H.
  - eapply Hf, H.
  - inversion H.
  - inversion H; subst. eapply Hm, E.
Qed.

End Starved.

Lemma starved_word : starved Random.word.
Proof.
  intros w w'. unfold Random.word. destruct (entropy w) eqn:E;
    intros H; inversion H; subst. left. exact E.
Qed.

Lemma starved_run qc : starved (Backend.run qc).
Proof.
  intros w w'. unfold Backend.run. destruct (shots w) eqn:E;
    intros H; inversion H; subst. right. exact E.
Qed.

Lemma starved_while_fuel {S : Type} (cond : S -> bool) (body : S -> M S) :
  (forall s, eager (body s)) -> (forall s, starved (body s)) ->
  forall fuel s w w',
    (budget w < fuel)%nat ->
    while_fuel fuel cond body s w = (Stuck, w') ->
    entropy w' = [] \/ shots w' = [].
Proof.
  intros Eb Sb. induction fuel as [| fuel IH]; intros s w w' Hf H; [lia |].
  simpl in H. destruct (cond s); [| inversion H].
  unfold bind in H. destruct (body s w) as [[s' | x |] w1] eqn:E.
  - assert (budget w1 < budget w)%nat by (eapply Eb; [exact E | discriminate]).
    eapply IH; [| exact H]. lia.
  - inversion H.
  - inversion H; subst. eapply Sb, E.
Qed.

Lemma starved_while {S : Type} (cond : S -> bool) (body : S -> M S) s :
  (forall s, eager (body s)) -> (forall s, starved (body s)) ->
  starved (while cond body s).
Proof.
  intros Eb Sb w w' H. unfold while in H.
  eapply starved_while_fuel; [exact Eb | exact Sb | | exact H]. lia.
Qed.

Lemma starved_for_each {A S : Type} (l : list A) (body : A -> S -> M S) :
  (forall a s, starved (body a s)) -> forall s, starved (for_each l body s).
Proof.
  intros Sb. induction l as [| a l IH]; intros s; simpl.
  - apply starved_ret.
  - apply starved_bind; [apply Sb | exact IH].
Qed.

Lemma starved_randint a b : starved (Random.randint a b).
Proof.
  apply starved_bind; [apply starved_word | intros; apply starved_ret].
Qed.

Lemma starved_random : starved Random.random.
Proof.
  apply starved_bind; [apply starved_word | intros; apply starved_ret].
Qed.

Lemma starved_choice {A : Type} (l : list A) : starved (Random.choice l).
Proof.
  apply starved_bind; [apply starved_word | intros; apply starved_lift].
Qed.

Lemma starved_eve_acts e p : starved (eve_acts e p).
Proof.
  destruct e; simpl; [| apply starved_ret].
  apply starved_bind; [apply starved_random | intros; apply starved_ret].
Qed.

(** Every statement of the engines is built from these. *)
Ltac starved_tac :=
  repeat first
    [ apply starved_ret
    | apply starved_lift
    | apply starved_randint
    | apply starved_random
    | apply starved_choice
    | apply starved_eve_acts
    | apply starved_run
    | apply starved_for_each
    | apply starved_bind
    | progress intros
    | match goal with
      | |- starved (if ?c then _ else _) => destruct c
      | |- starved (match ?x with _ => _ end) => destruct x
      | |- starved (let '(_, _) := ?x in _) => destruct x
      end ].

Lemma starved_bb84_transmit e a ab bb :
  starved (BB84Protocol.transmit e a ab bb).
Proof.
  unfold BB84Protocol.transmit. starved_tac.
Qed.

Lemma starved_e91_exchange e : starved (E91Protocol.exchange e).
Proof.
  unfold E91Protocol.exchange. starved_tac.
Qed.

Lemma starved_bbm92_exchange e : starved (BBM92Protocol.exchange e).
Proof.
  unfold BBM92Protocol.exchange. starved_tac.
Qed.

Lemma starved_teleport e s : starved (TeleportationQKD.teleport e s).
Proof.
  unfold TeleportationQKD.teleport. starved_tac.
Qed.

Lemma starved_generate_key p k e cb : starved (generate_key p k e cb).
Proof.
  destruct p; simpl;
    [ unfold BB84Protocol.generate_key
    | unfold E91Protocol.generate_key
    | unfold BBM92Protocol.generate_key
    | unfold TeleportationQKD.generate_key ];
    destruct (Py.truthy cb).
  - apply starved_bind; [apply starved_lift | intros ak].
    apply starved_bind; [| intros; apply starved_ret].
    apply starved_while; [intros; apply eager_bb84_custom_body |].
    intros st. unfold BB84Protocol.custom_attempt.
    apply starved_bind; [| intros; apply starved_ret].
    apply starved_bind; [apply starved_randint | intros].
    apply starved_bind; [apply starved_randint | intros].
    apply starved_bind; [apply starved_lift | intros].
    apply starved_bind; [apply starved_bb84_transmit | intros].
    apply starved_ret.
  - apply starved_bind; [| intros; apply starved_ret].
    apply starved_while; [intros; apply eager_bb84_random_attempt |].
    intros st. unfold BB84Protocol.random_attempt.
    apply starved_bind; [apply starved_randint | intros].
    apply starved_bind; [apply starved_randint | intros].
    apply starved_bind; [apply starved_randint | intros].
    apply starved_bind; [apply starved_bb84_transmit | intros].
    apply starved_ret.
  - apply starved_bind; [apply starved_lift | intros ak].
    apply starved_bind; [| intros; apply starved_ret].
    apply starved_while; [intros; apply eager_e91_custom_body |].
    intros st. unfold E91Protocol.custom_attempt, E91Protocol.bob_bit_of.
    apply starved_bind; [| intros; apply starved_ret].
    apply starved_bind; [apply starved_e91_exchange |].
    intros [[ab bb] ms]. starved_tac.
  - apply starved_bind; [| intros; apply starved_ret].
    apply starved_while; [intros; apply eager_e91_random_attempt |].
    intros st. unfold E91Protocol.random_attempt, E91Protocol.bob_bit_of.
    apply starved_bind; [apply starved_e91_exchange |].
    intros [[ab bb] ms]. starved_tac.
  - apply starved_bind; [apply starved_lift | intros ak].
    apply starved_bind; [| intros; apply starved_ret].
    apply starved_while; [intros; apply eager_bbm92_custom_body |].
    intros st. unfold BBM92Protocol.custom_attempt.
    apply starved_bind; [| intros; apply starved_ret].
    apply starved_bind; [apply starved_bbm92_exchange |].
    intros [[ab bb] ms]. starved_tac.
  - apply starved_bind; [| intros; apply starved_ret].
    apply starved_while; [intros; apply eager_bbm92_random_attempt |].
    intros st. unfold BBM92Protocol.random_attempt.
    apply starved_bind; [apply starved_bbm92_exchange |].
    intros [[ab bb] ms]. starved_tac.
  - apply starved_bind; [apply starved_lift | intros ak].
    apply starved_bind; [| intros; apply starved_ret].
    apply starved_for_each. intros i bob.
    unfold TeleportationQKD.custom_round.
    apply starved_bind; [apply starved_lift | intros].
    apply starved_bind; [apply starved_teleport | intros; apply starved_ret].
  - apply starved_bind; [| intros; apply starved_ret].
    apply starved_for_each. intros i keys.
    unfold TeleportationQKD.random_round.
    apply starved_bind; [apply starved_randint | intros].
    apply starved_bind; [apply starved_teleport | intros; apply starved_ret].
Qed.

(** *** Binary64 quotients *)

Lemma digits2_pos_size p : SpecFloat.digits2_pos p = Pos.size p.
Proof. induction p; simpl; congruence. Qed.

Lemma digits2_pos_shift p n :
  SpecFloat.digits2_pos (Pos.iter xO p n) = (SpecFloat.digits2_pos p + n)%positive.
Proof.
  induction n as [| n IH] using Pos.peano_ind.
  - simpl. lia.
  - rewrite Pos.iter_succ. simpl. rewrite IH. lia.
Qed.

(** A mantissa of 53 digits with an exponent in range is kept as it
    is. *)
Lemma binary_round_aux_exact m e :
  SpecFloat.digits2_pos m = 53%positive -> -1074 <= e <= 971 ->
  SpecFloat.binary_round_aux FloatOps.prec FloatOps.emax false (Zpos m) e
    SpecFloat.loc_Exact =
  SpecFloat.S754_finite false m e.
Proof.
  intros D He.
  assert (F : SpecFloat.fexp FloatOps.prec FloatOps.emax (53 + e) - e = 0).
  { unfold SpecFloat.fexp, SpecFloat.emin, FloatOps.prec, FloatOps.emax.
    lia. }
  unfold SpecFloat.binary_round_aux, SpecFloat.shr_fexp.
  cbn [SpecFloat.Zdigits2 SpecFloat.shr_record_of_loc]. rewrite D, F.
  cbn [SpecFloat.shr SpecFloat.shr_m SpecFloat.loc_of_shr_record
       SpecFloat.round_nearest_even SpecFloat.Zdigits2
       SpecFloat.shr_record_of_loc].
  rewrite D, F.
  cbn [SpecFloat.shr SpecFloat.shr_m].
  replace (e <=? FloatOps.emax - FloatOps.prec) with true; [reflexivity |].
  symmetry. apply Z.leb_le. unfold FloatOps.prec, FloatOps.emax. lia.
Qed.

(** An integer of [1 .. 2^53 - 1] converts to a finite double that is
    not zero. *)
Lemma binary64_of_int_finite n :
  1 <= n < 2 ^ 53 ->
  exists m e,
    FloatOps.Prim2SF (num_of_int (R := float) n) =
    SpecFloat.S754_finite false m e.
Proof.
  intros Hn. cbn [num_of_int binary64].
  rewrite FloatAxioms.of_uint63_spec.
  rewrite Uint63.of_Z_spec.
  rewrite Z.mod_small by (unfold Uint63.wB, Uint63.size; simpl; lia).
  destruct n as [| p | p]; try lia.
  cbn [SpecFloat.binary_normalize]. unfold SpecFloat.binary_round.
  set (d := SpecFloat.digits2_pos p).
  assert (Hd : (Zpos d <= 53)).
  { subst d. rewrite digits2_pos_size.
    pose proof (Pos.size_le p) as L.
    destruct (Z_le_gt_dec (Zpos (Pos.size p)) 53) as [? | G]; [assumption |].
    exfalso.
    assert (P : 2 ^ 54 <= 2 ^ Zpos (Pos.size p))
      by (apply Z.pow_le_mono_r; lia).
    apply Pos2Z.pos_le_pos in L. rewrite Pos2Z.inj_pow in L.
    change (2 ^ 54) with 18014398509481984 in P.
    change (2 ^ 53) with 9007199254740992 in Hn.
    lia. }
  assert (F : SpecFloat.fexp FloatOps.prec FloatOps.emax (Zpos d + 0) =
              Zpos d - 53).
  { unfold SpecFloat.fexp, SpecFloat.emin, FloatOps.prec, FloatOps.emax.
    lia. }
  rewrite F. unfold SpecFloat.shl_align.
  destruct (Zpos d - 53 - 0) as [| q | q] eqn:Q.
  - eexists _, _. apply binary_round_aux_exact; [| lia].
    fold d. lia.
  - lia.
  - eexists _, _. apply binary_round_aux_exact; [| lia].
    rewrite digits2_pos_shift. fold d. lia.
Qed.

(** The quotient of a finite double other than zero by itself is 1.0. *)
Lemma binary64_div_self x s m e :
  FloatOps.Prim2SF x = SpecFloat.S754_finite s m e ->
  (x / x)%float = 1%float.
Proof.
  intros H. apply FloatAxioms.Prim2SF_inj.
  rewrite FloatAxioms.div_spec, H.
  unfold FloatAxioms.SF64div, SpecFloat.SFdiv, SpecFloat.SFdiv_core_binary.
  replace (SpecFloat.Zdigits2 (Zpos m) + e - (SpecFloat.Zdigits2 (Zpos m) + e))
    with 0 by lia.
  replace (e - e) with 0 by lia.
  change (IntDef.Z.min (SpecFloat.fexp FloatOps.prec FloatOps.emax 0) 0)
    with (-53).
  change (IntDef.Z.sub 0 (-53)) with 53. cbv beta iota zeta.
  assert (E : IntDef.Z.div_eucl (IntDef.Z.shiftl (Zpos m) 53) (Zpos m) =
              (2 ^ 53, 0)).
  { change (Z.div_eucl (Z.shiftl (Zpos m) 53) (Zpos m) = (2 ^ 53, 0)).
    pose proof (Z.div_eucl_eq (Z.shiftl (Zpos m) 53) (Zpos m)
                  ltac:(discriminate)) as Eq.
    pose proof (Z.mod_pos_bound (Z.shiftl (Zpos m) 53) (Zpos m)
                  ltac:(lia)) as Bd.
    unfold Z.modulo in Bd.
    destruct (Z.div_eucl (Z.shiftl (Zpos m) 53) (Zpos m)) as [q r].
    rewrite Z.shiftl_mul_pow2 in Eq by lia.
    assert (q = 2 ^ 53) by nia. subst q.
    f_equal. lia. }
  rewrite E.
  assert (NL : SpecFloat.new_location (Zpos m) 0 = SpecFloat.loc_Exact)
    by (destruct m; reflexivity).
  rewrite NL. destruct s; vm_compute; reflexivity.
Qed.

(** In binary64, [n / n] is 1.0 and [1.0 - n / n] is 0.0 for every
    integer [n] of [1 .. 2^53 - 1], the integers that convert
    exactly. *)
Lemma binary64_unit_quotient n :
  1 <= n < 2 ^ 53 ->
  num_div (num_of_int n) (num_of_int n) = 1%float /\
  num_sub num_1 (num_div (num_of_int n) (num_of_int n)) = 0%float.
Proof.
  intros Hn. destruct (binary64_of_int_finite n Hn) as (m & e & F).
  assert (D : num_div (num_of_int (R := float) n) (num_of_int n) = 1%float)
    by (exact (binary64_div_self _ _ _ _ F)).
  rewrite D. split; reflexivity.
Qed.

(** *** One pass of a custom-bits loop, by the bases drawn *)


Lemma choice_reads n ent sh js :
  Random.choice BBM92Protocol.bases
    {| entropy := n :: ent; shots := sh; jobs := js |} =
  (Ok (chosen_basis n), {| entropy := ent; shots := sh; jobs := js |}).
Proof.
  unfold Random.choice, Random.word, bind, lift, chosen_basis.
  cbn [entropy shots jobs].
  change (Py.len BBM92Protocol.bases) with 2.
  pose proof (Z.mod_pos_bound n 2 ltac:(lia)) as B.
  destruct (n mod 2 =? 0) eqn:E.
  - apply Z.eqb_eq in E. rewrite E. reflexivity.
  - apply Z.eqb_neq in E. replace (n mod 2) with 1 by lia. reflexivity.
Qed.










(** *** Calls the engines accept *)

Lemma binary_long_accepted s k :
  forallb Py.in_01 (list_ascii_of_string s) = true ->
  k <= Z.of_nat (String.length s) ->
  ~ engine_rejects s k.
Proof.
  intros B L [D | S]; [| lia].
  rewrite (binary_digits _ B) in D. discriminate.
Qed.

Lemma not_rejected_accepted cb k :
  match Py.truthy cb with
  | Some s => ~ engine_rejects s k
  | None => True
  end -> accepted cb k.
Proof.
  unfold accepted. destruct (Py.truthy cb) as [s |]; [| trivial].
  intros N. destruct (custom_alice_key s k) as [x | ak] eqn:E; [| eauto].
  exfalso. apply N. apply custom_alice_key_rejects. eauto.
Qed.

Lemma scope_not_rejected p cb k :
  agreement_scope p cb -> long_enough cb k ->
  match Py.truthy cb with
  | Some s => ~ engine_rejects s k
  | None => True
  end.
Proof.
  unfold agreement_scope, long_enough.
  destruct (Py.truthy cb) as [s |]; [| trivial].
  destruct p; intros S L; try discriminate; try contradiction.
  apply binary_long_accepted; assumption.
Qed.

(** The three ways a run of an accepted call can end. *)
Lemma generate_key_ends p k e cb w r w' :
  accepted cb k ->
  generate_key p k e cb w = (r, w') ->
  match r with
  | Ok _ => True
  | Raise _ => ~ faithful (jobs w')
  | Stuck => entropy w' = [] \/ shots w' = []
  end.
Proof.
  intros Acc H. destruct r as [kp | x |].
  - exact I.
  - intros F. exact (generate_key_safe p k e cb Acc w _ w' H F).
  - eapply starved_generate_key. exact H.
Qed.

Lemma binary64_equal_keys a e :
  a <> [] -> Py.len a < 2 ^ 53 ->
  let m := QKDProtocol.calculate_security_metrics (R := float) a a e in
  agreement_rate m = 1%float /\ qber m = 0%float /\
  is_secure m = true /\ security_level m = "High"%string.
Proof.
  intros Ha Hl. cbv zeta. rewrite (metrics_nonempty a a e Ha Ha).
  cbn [agreement_rate qber is_secure security_level].
  rewrite agreeing_self, Z.min_id. fold (Py.len a).
  assert (P : 1 <= Py.len a).
  { unfold Py.len. destruct a; [contradiction | simpl; lia]. }
  destruct (binary64_unit_quotient (Py.len a) (conj P Hl)) as [Q1 Q0].
  rewrite Q0, Q1. repeat split; reflexivity.
Qed.

Lemma equal_keys_full_agreement k kp :
  1 <= k -> Py.len (alice_key kp) = k -> bob_key kp = alice_key kp ->
  full_agreement k kp.
Proof.
  intros Hk La E. split; [exact E |]. rewrite E.
  assert (Ne : alice_key kp <> []) by (apply len_pos_nonempty; lia).
  split.
  - pose proof (metrics_equal_keys (alice_key kp) false Ne) as M.
    cbv zeta in M |- *. tauto.
  - intros Hb.
    pose proof (binary64_equal_keys (alice_key kp) false Ne ltac:(lia)) as M.
    cbv zeta in M |- *. tauto.
Qed.

Lemma binary_custom_alice s k ak :
  1 <= k ->
  forallb Py.in_01 (list_ascii_of_string s) = true ->
  custom_alice_key s k = inr ak ->
  ak = bits_of (firstn (Z.to_nat k) (list_ascii_of_string s)).
Proof.
  intros Hk V H.
  apply custom_alice_key_inr in H. destruct H as (l & Hl & _ & ->).
  rewrite (binary_parse _ V) in Hl. inversion Hl; subst.
  unfold Py.slice_to. destruct (0 <=? k) eqn:E; [| apply Z.leb_gt in E; lia].
  unfold bits_of. apply firstn_map.
Qed.

(* ================================================================== *)
(** ** The claims *)
(* ================================================================== *)

(** C1, as stated, fails.  With eavesdropping off and every backend
    answer one the submitted circuit allows: Teleportation returns Bob's
    bit 1 for Alice's secret bit 0, in random and in custom-bits mode;
    E91 and BBM92 in custom-bits mode return Bob's key [0] for Alice's
    key [1]; BB84 with the custom bits ["2"] returns Bob's key [0] for
    Alice's key [2].  For the keys [0] and [1] the evaluator reports
    agreement 0 and QBER 1, in exact arithmetic and in binary64.  And
    BB84 with the custom bits ["1"] and [key_length = 2] returns no keys:
    it raises the [ValueError] of the validation. *)
Lemma keys_differ_without_eavesdropper :
  (let r := generate_key Teleportation 1 false None teleport_world in
   fst r = Ok (mkKeyPair [0] [1] "Teleportation QKD" false) /\
   faithful (jobs (snd r))) /\
  (let r := generate_key Teleportation 1 false (Some "0"%string)
              teleport_custom_world in
   fst r = Ok (mkKeyPair [0] [1] "Teleportation QKD" false) /\
   faithful (jobs (snd r))) /\
  (let r := generate_key E91 1 false (Some "1"%string) pair_world in
   fst r = Ok (mkKeyPair [1] [0] "E91" false) /\
   faithful (jobs (snd r))) /\
  (let r := generate_key BBM92 1 false (Some "1"%string) pair_world in
   fst r = Ok (mkKeyPair [1] [0] "BBM92" false) /\
   faithful (jobs (snd r))) /\
  (let r := generate_key BB84 1 false (Some "2"%string) bb84_world in
   fst r = Ok (mkKeyPair [2] [0] "BB84" false) /\
   faithful (jobs (snd r))) /\
  (let m := QKDProtocol.calculate_security_metrics (R := Q) [0] [1] false in
   (agreement_rate m == 0)%Q /\ (qber m == 1)%Q) /\
  QKDProtocol.calculate_security_metrics (R := float) [0] [1] false =
  {| agreement_rate := 0%float; qber := 1%float; is_secure := false;
     security_level := "Low" |} /\
  generate_key BB84 2 false (Some "1"%string) bb84_world =
  (Raise (Py.ValueError_custom_bits_too_short 2), bb84_world).
Proof.
  split; [run_closed |]. split; [run_closed |]. split; [run_closed |].
  split; [run_closed |]. split; [run_closed |].
  split; [split; vm_compute; reflexivity |].
  split; vm_compute; reflexivity.
Qed.

(** C1 (amended).  For BB84 in random mode or with custom bits over
    ['0'], ['1'] of at least [key_length] characters, and for E91 and
    BBM92 in random mode, with eavesdropping off and [key_length >= 1].
    On any draws and backend answers, every answer being one its
    circuit allows, [generate_key] raises nothing; when it returns,
    [bob_key] equals [alice_key] and the evaluator reports agreement 1
    and QBER 0 (in exact arithmetic, and in binary64 for every
    [key_length] below [2^53]); and it ends without a result only when
    the supplied draws or answers are used up while the loop is still
    sifting.  And it does return: there are draws and allowed answers on
    which the call returns such keys, whatever was logged before and
    whatever follows on the tapes. *)
Theorem keys_agree_without_eavesdropper p k cb :
  1 <= k -> agreement_scope p cb -> long_enough cb k ->
  (forall w r w',
      generate_key p k false cb w = (r, w') ->
      faithful (jobs w') ->
      match r with
      | Ok kp => full_agreement k kp
      | Raise _ => False
      | Stuck => entropy w' = [] \/ shots w' = []
      end) /\
  (exists ent sh kp new,
      drives (generate_key p k false cb) ent sh kp new /\
      all_allowed new /\ full_agreement k kp).
Proof.
  intros Hk Hs Hl.
  pose proof (scope_not_rejected p cb k Hs Hl) as NR.
  pose proof (not_rejected_accepted cb k NR) as Acc.
  assert (All : forall w r w',
             generate_key p k false cb w = (r, w') ->
             faithful (jobs w') ->
             match r with
             | Ok kp => full_agreement k kp
             | Raise _ => False
             | Stuck => entropy w' = [] \/ shots w' = []
             end).
  { intros w r w' H F.
    pose proof (generate_key_ends p k false cb w r w' Acc H) as E.
    destruct r as [kp | x |]; [| exact (E F) | exact E].
    apply equal_keys_full_agreement; [exact Hk | |].
    - exact (proj1 (generate_key_lengths _ _ _ _ _ _ _ Hk H)).
    - exact (noiseless_keys_equal _ _ _ _ _ _ Hk Hs H F). }
  split; [exact All |].
  destruct (generate_key_can_be_driven p k false cb NR)
    as (ent & sh & kp & new & D & A).
  exists ent, sh, kp, new. split; [exact D |]. split; [exact A |].
  specialize (D [] [] []).
  apply (All _ _ _ D). simpl. apply faithful_check. exact A.
Qed.

Lemma keys_agree_without_eavesdropper_witness :
  (exists kp w',
      generate_key E91 2 false None e91_world = (Ok kp, w') /\
      bob_key kp = alice_key kp /\
      (let m := QKDProtocol.calculate_security_metrics (R := Q)
                  (alice_key kp) (bob_key kp) false in
       (agreement_rate m == 1 /\ qber m == 0)%Q) /\
      (let m := QKDProtocol.calculate_security_metrics (R := float)
                  (alice_key kp) (bob_key kp) false in
       agreement_rate m = 1%float /\ qber m = 0%float)) /\
  (exists kp w',
      generate_key BB84 1 false (Some "10"%string) retry_world =
      (Ok kp, w') /\
      alice_key kp = [1] /\ bob_key kp = [1]).
Proof.
  split.
  - destruct (generate_key E91 2 false None e91_world)
      as [[kp | x |] w'] eqn:E; try (vm_compute in E; discriminate).
    exists kp, w'. split; [reflexivity |].
    assert (F : faithful (jobs w')).
    { vm_compute in E. inversion E; subst.
      apply faithful_check. vm_compute; reflexivity. }
    destruct (proj1 (keys_agree_without_eavesdropper E91 2 None
                       ltac:(lia) eq_refl I) _ _ _ E F)
      as (K & MQ & MF).
    split; [exact K |]. split; [exact MQ |]. apply MF. reflexivity.
  - destruct (generate_key BB84 1 false (Some "10"%string) retry_world)
      as [[kp | x |] w'] eqn:E; try (vm_compute in E; discriminate).
    exists kp, w'. split; [reflexivity |].
    assert (F : faithful (jobs w')).
    { vm_compute in E. inversion E; subst.
      apply faithful_check. vm_compute; reflexivity. }
    destruct (proj1 (keys_agree_without_eavesdropper BB84 1
                       (Some "10"%string)
                       ltac:(lia) eq_refl
                       ltac:(unfold long_enough; simpl; lia)) _ _ _ E F)
      as (K & _).
    vm_compute in E. inversion E; subst. split; reflexivity.
Defined.

(** C2.  Whenever [generate_key] completes, for any engine, any
    [key_length >= 1], with or without eavesdropping, in random mode and
    in custom-bits mode alike, [alice_key] and [bob_key] both have
    exactly [key_length] elements. *)
Theorem completed_keys_have_key_length p k e cb w kp w' :
  1 <= k ->
  generate_key p k e cb w = (Ok kp, w') ->
  List.length (alice_key kp) = Z.to_nat k /\
  List.length (bob_key kp) = Z.to_nat k.
Proof.
  intros Hk H. apply (generate_key_lengths _ _ _ _ _ _ _ Hk) in H.
  unfold Py.len in H. destruct H as [Ha Hb]. split; lia.
Qed.

Lemma completed_keys_have_key_length_witness :
  let r := generate_key BB84 2 true None tapped_world in
  exists kp, fst r = Ok kp /\
    List.length (alice_key kp) = 2%nat /\ List.length (bob_key kp) = 2%nat.
Proof.
  exists (mkKeyPair [1; 0] [1; 0] "BB84" true).
  split; [vm_compute; reflexivity |].
  apply (completed_keys_have_key_length BB84 2 true None tapped_world _
           (snd (generate_key BB84 2 true None tapped_world))).
  - lia.
  - vm_compute; reflexivity.
Defined.

(** C3, as stated, fails: BB84's [generate_key] accepts the custom bits
    ["2"] and returns Alice's key [2] (and Bob's key [0]). *)
Lemma engine_accepts_digit_2 :
  fst (generate_key BB84 1 false (Some "2"%string) bb84_world) =
  Ok (mkKeyPair [2] [0] "BB84" false).
Proof. vm_compute. reflexivity. Qed.

(** C3 (amended).  For non-empty [custom_bits]: every engine's
    [generate_key] fails before any draw or backend job, returning no
    key, if and only if [custom_bits] has a character that is not a
    decimal digit or is shorter than [key_length]; [run_simulation], when
    asked to use the custom bits, answers 400 before calling the engine
    if and only if [custom_bits] has a character outside ['0'], ['1'] or
    is shorter than [key_length]. *)
Theorem custom_bits_rejected p k e s w :
  s <> EmptyString ->
  ((exists x, generate_key p k e (Some s) w = (Raise x, w)) <->
   engine_rejects s k) /\
  (forall (R : Type) (N : Number R) name, protocols name = Some p ->
     ((exists err,
         run_simulation (R := R) name k e true s w =
         (Some (Http400 err), w)) <->
      route_rejects s k)).
Proof.
  intros Ne. split.
  - rewrite <- custom_alice_key_rejects. split.
    + intros [x H]. destruct (custom_alice_key s k) as [y | ak] eqn:E.
      * exists y. reflexivity.
      * exfalso. revert H. apply careful_never_at_once.
        eapply generate_key_accepted; eassumption.
    + intros [x H]. exists x. apply generate_key_rejected; assumption.
  - intros R N name Hp. exact (run_simulation_rejects name p k e s w Hp Ne).
Qed.

Lemma custom_bits_rejected_witness :
  (exists x, generate_key Teleportation 8 false (Some "01011"%string)
               teleport_world = (Raise x, teleport_world)) /\
  (exists err, run_simulation (R := float) "bb84" 8 false true "01011"
                 bb84_world = (Some (Http400 err), bb84_world)) /\
  (exists err, run_simulation (R := float) "bb84" 1 false true "2"
                 bb84_world = (Some (Http400 err), bb84_world)).
Proof.
  split; [| split].
  - apply (custom_bits_rejected Teleportation 8 false "01011" teleport_world).
    + discriminate.
    + right. simpl. lia.
  - apply (proj2 (custom_bits_rejected BB84 8 false "01011" bb84_world
                    ltac:(discriminate)) float binary64 "bb84"%string eq_refl).
    right. simpl. lia.
  - apply (proj2 (custom_bits_rejected BB84 1 false "2" bb84_world
                    ltac:(discriminate)) float binary64 "bb84"%string eq_refl).
    left. reflexivity.
Defined.

(** C4.  In custom-bits mode with a string over ['0'], ['1'] of at least
    [key_length >= 1] characters, for each of the four engines, with or
    without eavesdropping.  Whenever [generate_key] returns, [alice_key]
    is the first [key_length] bits of the string, in order; it raises
    only if the backend returned a memory the submitted circuit does not
    allow; it ends without a result only when the supplied draws or
    backend answers are used up.  And it does return: there are draws
    and allowed answers on which the call returns that [alice_key],
    whatever was logged before and whatever follows on the tapes. *)
Theorem alice_key_is_custom_prefix p k e s :
  1 <= k ->
  forallb Py.in_01 (list_ascii_of_string s) = true ->
  k <= Z.of_nat (String.length s) ->
  let prefix := bits_of (firstn (Z.to_nat k) (list_ascii_of_string s)) in
  (forall w r w',
      generate_key p k e (Some s) w = (r, w') ->
      match r with
      | Ok kp => alice_key kp = prefix
      | Raise _ => ~ faithful (jobs w')
      | Stuck => entropy w' = [] \/ shots w' = []
      end) /\
  (exists ent sh kp new,
      drives (generate_key p k e (Some s)) ent sh kp new /\
      all_allowed new /\ alice_key kp = prefix).
Proof.
  intros Hk V L prefix.
  assert (Ne : s <> EmptyString) by (intros ->; simpl in L; lia).
  assert (NR : match Py.truthy (Some s) with
               | Some s' => ~ engine_rejects s' k
               | None => True
               end).
  { rewrite (truthy_nonempty s Ne). apply binary_long_accepted; assumption. }
  pose proof (not_rejected_accepted (Some s) k NR) as Acc.
  assert (All : forall w r w',
             generate_key p k e (Some s) w = (r, w') ->
             match r with
             | Ok kp => alice_key kp = prefix
             | Raise _ => ~ faithful (jobs w')
             | Stuck => entropy w' = [] \/ shots w' = []
             end).
  { intros w r w' H.
    pose proof (generate_key_ends p k e (Some s) w r w' Acc H) as E.
    destruct r as [kp | x |]; [| exact E | exact E].
    apply generate_key_custom_alice in H; [| exact Ne].
    exact (binary_custom_alice s k _ Hk V H). }
  split; [exact All |].
  destruct (generate_key_can_be_driven p k e (Some s) NR)
    as (ent & sh & kp & new & D & A).
  exists ent, sh, kp, new. split; [exact D |]. split; [exact A |].
  exact (All _ _ _ (D [] [] [])).
Qed.

Lemma alice_key_is_custom_prefix_witness :
  (exists kp w',
      generate_key BB84 1 false (Some "10"%string) retry_world =
      (Ok kp, w') /\ alice_key kp = [1]) /\
  (exists kp w',
      generate_key E91 1 false (Some "10"%string) pair_world = (Ok kp, w') /\
      alice_key kp = [1]) /\
  (exists kp w',
      generate_key BBM92 1 true (Some "10"%string) tapped_pair_world =
      (Ok kp, w') /\ alice_key kp = [1]) /\
  (exists kp w',
      generate_key Teleportation 1 false (Some "01"%string)
        teleport_custom_world = (Ok kp, w') /\ alice_key kp = [0]).
Proof.
  split; [| split; [| split]].
  - destruct (generate_key BB84 1 false (Some "10"%string) retry_world)
      as [[kp | x |] w'] eqn:E; try (vm_compute in E; discriminate).
    exists kp, w'. split; [reflexivity |].
    exact (proj1 (alice_key_is_custom_prefix BB84 1 false "10"
                    ltac:(lia) eq_refl ltac:(simpl; lia)) _ _ _ E).
  - destruct (generate_key E91 1 false (Some "10"%string) pair_world)
      as [[kp | x |] w'] eqn:E; try (vm_compute in E; discriminate).
    exists kp, w'. split; [reflexivity |].
    exact (proj1 (alice_key_is_custom_prefix E91 1 false "10"
                    ltac:(lia) eq_refl ltac:(simpl; lia)) _ _ _ E).
  - destruct (generate_key BBM92 1 true (Some "10"%string) tapped_pair_world)
      as [[kp | x |] w'] eqn:E; try (vm_compute in E; discriminate).
    exists kp, w'. split; [reflexivity |].
    exact (proj1 (alice_key_is_custom_prefix BBM92 1 true "10"
                    ltac:(lia) eq_refl ltac:(simpl; lia)) _ _ _ E).
  - destruct (generate_key Teleportation 1 false (Some "01"%string)
                teleport_custom_world)
      as [[kp | x |] w'] eqn:E; try (vm_compute in E; discriminate).
    exists kp, w'. split; [reflexivity |].
    exact (proj1 (alice_key_is_custom_prefix Teleportation 1 false "01"
                    ltac:(lia) eq_refl ltac:(simpl; lia)) _ _ _ E).
Defined.



(** C6.  The evaluator classifies with strict comparisons: for
    non-empty keys [is_secure] is the outcome of [qber < 0.15] and
    [security_level] is ['High'] if [qber < 0.05], else ['Medium'] if
    [qber < 0.15], else ['Low'].  Read in exact arithmetic, for all
    keys: secure exactly when [qber < 0.15], ['High'] exactly when
    [qber < 0.05], ['Medium'] exactly when [0.05 <= qber < 0.15], ['Low']
    exactly when [0.15 <= qber].  Keys that disagree in 1 position of 20
    ([qber] exactly 0.05 in exact arithmetic) are ['Medium'], and keys
    that disagree in 3 of 20 ([qber] exactly 0.15) are ['Low'] and not
    secure, in exact arithmetic and in binary64; and in binary64 the
    value 0.05 is not below 0.05 but below 0.15, and 0.15 is not below
    0.15. *)
Theorem security_thresholds :
  (forall (R : Type) (N : Number R) x a y b e,
      let m := QKDProtocol.calculate_security_metrics (R := R)
                 (x :: a) (y :: b) e in
      is_secure m = num_lt (qber m) num_0_15 /\
      security_level m =
        if num_lt (qber m) num_0_05 then "High"%string
        else if num_lt (qber m) num_0_15 then "Medium"%string
        else "Low"%string) /\
  (forall a b e,
      let m := QKDProtocol.calculate_security_metrics (R := Q) a b e in
      (is_secure m = true <-> qber m < 15 # 100) /\
      (security_level m = "High"%string <-> qber m < 5 # 100) /\
      (security_level m = "Medium"%string <->
       5 # 100 <= qber m /\ qber m < 15 # 100) /\
      (security_level m = "Low"%string <-> 15 # 100 <= qber m))%Q /\
  (let m := QKDProtocol.calculate_security_metrics (R := Q)
              (repeat 1 20) (0 :: repeat 1 19) false in
   (qber m == 5 # 100)%Q /\ security_level m = "Medium"%string /\
   is_secure m = true) /\
  (let m := QKDProtocol.calculate_security_metrics (R := Q)
              (repeat 1 20) (0 :: 0 :: 0 :: repeat 1 17) false in
   (qber m == 15 # 100)%Q /\ security_level m = "Low"%string /\
   is_secure m = false) /\
  (let m := QKDProtocol.calculate_security_metrics (R := float)
              (repeat 1 20) (0 :: repeat 1 19) false in
   security_level m = "Medium"%string /\ is_secure m = true) /\
  (let m := QKDProtocol.calculate_security_metrics (R := float)
              (repeat 1 20) (0 :: 0 :: 0 :: repeat 1 17) false in
   security_level m = "Low"%string /\ is_secure m = false) /\
  (num_lt (R := float) num_0_05 num_0_05 = false /\
   num_lt (R := float) num_0_05 num_0_15 = true /\
   num_lt (R := float) num_0_15 num_0_15 = false).
Proof.
  split.
  { intros R N x a y b e m. subst m.
    rewrite (metrics_nonempty (x :: a) (y :: b) e) by discriminate.
    split; reflexivity. }
  split; [| repeat split; vm_compute; reflexivity].
  intros a b e m.
  assert (G : forall q : Q,
             let level := if Qltb q (5 # 100) then "High"%string
                          else if Qltb q (15 # 100) then "Medium"%string
                          else "Low"%string in
             (Qltb q (15 # 100) = true <-> q < 15 # 100)%Q /\
             (level = "High"%string <-> q < 5 # 100)%Q /\
             (level = "Medium"%string <->
              5 # 100 <= q /\ q < 15 # 100)%Q /\
             (level = "Low"%string <-> 15 # 100 <= q)%Q).
  { intros q. cbv zeta.
    pose proof (Qltb_lt q (5 # 100)) as L5.
    pose proof (Qltb_lt q (15 # 100)) as L15.
    destruct (Qltb q (5 # 100)) eqn:E5; destruct (Qltb q (15 # 100)) eqn:E15.
    - assert (q < 5 # 100)%Q by (apply L5; reflexivity).
      repeat split; intros; try discriminate; try tauto; try lra.
    - assert (q < 5 # 100)%Q by (apply L5; reflexivity).
      assert (~ (q < 15 # 100)%Q) by (intros C; apply L15 in C; discriminate).
      exfalso. lra.
    - assert (q < 15 # 100)%Q by (apply L15; reflexivity).
      assert (~ (q < 5 # 100)%Q) by (intros C; apply L5 in C; discriminate).
      repeat split; intros; try discriminate; try tauto; try lra.
    - assert (~ (q < 15 # 100)%Q) by (intros C; apply L15 in C; discriminate).
      assert (~ (q < 5 # 100)%Q) by (intros C; apply L5 in C; discriminate).
      repeat split; intros; try discriminate; try tauto; try lra. }
  destruct a as [| x a]; [| destruct b as [| y b]].
  - subst m. simpl. exact (G 1%Q).
  - subst m. simpl. exact (G 1%Q).
  - subst m.
    rewrite (metrics_nonempty (x :: a) (y :: b) e) by discriminate.
    cbv zeta. cbn [is_secure security_level qber]. apply G.
Qed.

(** C7.  For non-empty keys the evaluator compares positions [0] to
    [min(len(alice_key), len(bob_key)) - 1]: [agreement_rate] is the
    number of those positions where the keys agree divided by their
    number, and [qber] is [1 - agreement_rate]; keys of different
    lengths are compared over the shorter length, and no input makes the
    evaluator fail.  [[1,0,1,1]] against [[1,1,1,0]] gives agreement 0.5
    and QBER 0.5 (['Low'], not secure), in binary64 and in exact
    arithmetic. *)
Theorem metrics_compare_common_prefix :
  (forall (R : Type) (N : Number R) a b e,
      a <> [] -> b <> [] ->
      let m := QKDProtocol.calculate_security_metrics (R := R) a b e in
      let compared := Nat.min (List.length a) (List.length b) in
      agreement_rate m =
        num_div (num_of_int (Z.of_nat (agreeing_positions a b)))
          (num_of_int (Z.of_nat compared)) /\
      qber m = num_sub num_1 (agreement_rate m) /\
      (0 < compared)%nat /\ (agreeing_positions a b <= compared)%nat) /\
  (let m := QKDProtocol.calculate_security_metrics (R := float)
              [1; 0; 1; 1] [1; 1; 1; 0] false in
   agreement_rate m = 0.5%float /\ qber m = 0.5%float /\
   security_level m = "Low"%string /\ is_secure m = false) /\
  (let m := QKDProtocol.calculate_security_metrics (R := Q)
              [1; 0; 1; 1] [1; 1; 1; 0] false in
   (agreement_rate m == 5 # 10)%Q /\ (qber m == 5 # 10)%Q /\
   security_level m = "Low"%string /\ is_secure m = false).
Proof.
  split; [| split; repeat split; vm_compute; reflexivity].
  intros R N a b e Ha Hb m compared. subst m compared.
  rewrite (metrics_nonempty a b e Ha Hb).
  cbv zeta. cbn [agreement_rate qber].
  replace (Z.min (Py.len a) (Py.len b))
    with (Z.of_nat (Nat.min (List.length a) (List.length b)))
    by (unfold Py.len; lia).
  split; [reflexivity | split; [reflexivity | split]].
  - destruct a; [contradiction |]. destruct b; [contradiction |].
    simpl. lia.
  - unfold agreeing_positions.
    etransitivity; [apply filter_length_le |]. rewrite length_seq. lia.
Qed.

(** Keys of lengths 3 and 2 that agree on their first 2 positions:
    agreement 1.0 and QBER 0.0. *)
Lemma metrics_compare_common_prefix_witness :
  let m := QKDProtocol.calculate_security_metrics (R := float)
             [1; 0; 1] [1; 0] false in
  agreement_rate m = 1%float /\ qber m = 0%float.
Proof.
  destruct (proj1 metrics_compare_common_prefix float binary64
              [1; 0; 1] [1; 0] false
              ltac:(discriminate) ltac:(discriminate)) as (A & Q0 & _).
  cbv zeta in *. rewrite Q0, A. split; vm_compute; reflexivity.
Defined.

(** C8.  When either key is empty the evaluator returns agreement 0.0,
    QBER 1.0, not secure, level ['Low']. *)
Theorem metrics_of_empty_key (R : Type) (N : Number R) a b e :
  a = [] \/ b = [] ->
  QKDProtocol.calculate_security_metrics (R := R) a b e =
  {| agreement_rate := num_0; qber := num_1; is_secure := false;
     security_level := "Low" |}.
Proof.
  intros [-> | ->]; [reflexivity |]. destruct a; reflexivity.
Qed.

Lemma metrics_of_empty_key_witness :
  QKDProtocol.calculate_security_metrics (R := float) [] [] false =
  {| agreement_rate := 0%float; qber := 1%float; is_secure := false;
     security_level := "Low" |} /\
  QKDProtocol.calculate_security_metrics (R := Q) [1; 0] [] true =
  {| agreement_rate := 0%Q; qber := 1%Q; is_secure := false;
     security_level := "Low" |}.
Proof.
  split.
  - apply (metrics_of_empty_key float binary64 [] [] false). left. reflexivity.
  - apply (metrics_of_empty_key Q exact [1; 0] [] true). right. reflexivity.
Defined.

(** C9.  In the custom-bits mode of E91 and BBM92, two calls that differ
    only in their (accepted) custom bits, started on the same draws and
    backend answers, give Bob the same key, fail alike or run out alike,
    and leave the same world; Alice's keys are the respective custom
    bits. *)
Theorem bob_key_ignores_custom_bits p k e s1 s2 a1 a2 w :
  p = E91 \/ p = BBM92 ->
  s1 <> EmptyString -> s2 <> EmptyString ->
  custom_alice_key s1 k = inr a1 -> custom_alice_key s2 k = inr a2 ->
  bob_view (generate_key p k e (Some s1) w) =
  bob_view (generate_key p k e (Some s2) w) /\
  (forall kp w', generate_key p k e (Some s1) w = (Ok kp, w') ->
                 alice_key kp = a1) /\
  (forall kp w', generate_key p k e (Some s2) w = (Ok kp, w') ->
                 alice_key kp = a2).
Proof.
  intros Hp N1 N2 H1 H2. split; [| split].
  - rewrite (bob_view_pair_engines p k e s1 a1 w Hp N1 H1).
    rewrite (bob_view_pair_engines p k e s2 a2 w Hp N2 H2). reflexivity.
  - intros kp w' H. apply generate_key_custom_alice in H; [| exact N1].
    congruence.
  - intros kp w' H. apply generate_key_custom_alice in H; [| exact N2].
    congruence.
Qed.

Lemma bob_key_ignores_custom_bits_witness :
  bob_view (generate_key E91 1 false (Some "1"%string) pair_world) =
  bob_view (generate_key E91 1 false (Some "0"%string) pair_world) /\
  fst (bob_view (generate_key E91 1 false (Some "1"%string) pair_world)) =
  Ok [0].
Proof.
  split; [| vm_compute; reflexivity].
  apply (bob_key_ignores_custom_bits E91 1 false "1" "0" [1] [0] pair_world).
  - left; reflexivity.
  - discriminate.
  - discriminate.
  - reflexivity.
  - reflexivity.
Defined.

(** C10.  With [custom_bits = ''] every engine does exactly what it does
    with [custom_bits] absent: it runs in random mode, and raises
    nothing before its first draw, although [''] is shorter than any
    positive [key_length].  [run_simulation] passes an empty
    [custom_bits] on as absent whether or not custom bits were asked
    for. *)
Theorem empty_custom_bits_is_random_mode p k e w :
  generate_key p k e (Some EmptyString) w = generate_key p k e None w /\
  (forall x, generate_key p k e (Some EmptyString) w <> (Raise x, w)) /\
  (forall (R : Type) (N : Number R) name,
      run_simulation (R := R) name k e true EmptyString w =
      run_simulation (R := R) name k e false EmptyString w).
Proof.
  split; [| split].
  - destruct p; reflexivity.
  - intros x. apply careful_never_at_once.
    apply generate_key_random_careful. reflexivity.
  - intros R N name. unfold run_simulation.
    destruct (protocols name); reflexivity.
Qed.

(* ================================================================== *)
(** ** Further properties of the engines and the routes *)
(* ================================================================== *)

(** *** Exceptions and the backend *)

(** What [run_simulation] hands to the engine is accepted by it. *)
Lemma route_passes_accepted u s k :
  match (if u : bool then Py.truthy (Some s) else None) with
  | Some s' =>
      negb (forallb Py.in_01 (list_ascii_of_string s')) = false ->
      (Z.of_nat (String.length s') <? k) = false ->
      accepted (Some s') k
  | None => accepted None k
  end.
Proof.
  destruct (if u then Py.truthy (Some s) else None) as [s' |] eqn:T;
    [| exact I].
  intros B L. apply negb_false_iff in B. apply Z.ltb_ge in L.
  assert (Ne : s' <> EmptyString).
  { destruct u; [| discriminate]. apply truthy_Some in T. destruct T as [E N].
    inversion E; subst. exact N. }
  unfold accepted. rewrite (truthy_nonempty s' Ne).
  destruct (custom_alice_key s' k) as [x | ak] eqn:E; [| eauto].
  exfalso.
  assert (Rj : engine_rejects s' k)
    by (apply custom_alice_key_rejects; eauto).
  destruct Rj as [D | S]; [| lia].
  rewrite (binary_digits _ B) in D. discriminate.
Qed.

(** X1.  Whatever the backend answers within what the submitted
    circuits allow, the only exception an engine raises is the
    [ValueError] of the custom-bits validation, raised before any draw
    or job: no [IndexError] and no malformed literal arises once the
    loops have started, with or without an eavesdropper. *)
Theorem engines_raise_only_at_validation p k e cb w x w' :
  generate_key p k e cb w = (Raise x, w') ->
  faithful (jobs w') ->
  w' = w /\
  exists s, cb = Some s /\ s <> EmptyString /\
            custom_alice_key s k = inl x /\ engine_rejects s k.
Proof.
  intros H F.
  destruct (Py.truthy cb) as [s |] eqn:T.
  - destruct (truthy_Some _ _ T) as [-> Ne].
    destruct (custom_alice_key s k) as [y | ak] eqn:E.
    + rewrite (generate_key_rejected p k e s y w Ne E) in H.
      inversion H; subst. split; [reflexivity |].
      exists s. repeat split; try assumption.
      apply custom_alice_key_rejects. eauto.
    + assert (Acc : accepted (Some s) k)
        by (unfold accepted; rewrite T; eauto).
      destruct (generate_key_safe p k e (Some s) Acc w (Raise x) w' H F).
  - assert (Acc : accepted cb k) by (unfold accepted; rewrite T; exact I).
    destruct (generate_key_safe p k e cb Acc w (Raise x) w' H F).
Qed.

Lemma engines_raise_only_at_validation_witness :
  generate_key BB84 8 false (Some "01011"%string) bb84_world =
  (Raise (Py.ValueError_custom_bits_too_short 8), bb84_world) /\
  engine_rejects "01011" 8.
Proof.
  assert (H : generate_key BB84 8 false (Some "01011"%string) bb84_world =
              (Raise (Py.ValueError_custom_bits_too_short 8), bb84_world))
    by (vm_compute; reflexivity).
  split; [exact H |].
  destruct (engines_raise_only_at_validation BB84 8 false
              (Some "01011"%string) bb84_world _ bb84_world H)
    as (_ & s & E & _ & _ & R).
  - constructor.
  - inversion E; subst. exact R.
Defined.

(** X2.  Under the same condition on the backend, every element of
    [bob_key] is 0 or 1, and so is every element of [alice_key] in
    random mode; in custom-bits mode [alice_key] holds the decimal
    digits of the string, whatever the backend does. *)
Theorem keys_hold_bits p k e cb w kp w' :
  generate_key p k e cb w = (Ok kp, w') ->
  (faithful (jobs w') ->
   Forall is_bit (bob_key kp) /\
   (Py.truthy cb = None -> Forall is_bit (alice_key kp))) /\
  (Py.truthy cb <> None -> Forall (fun d => 0 <= d <= 9) (alice_key kp)).
Proof.
  intros H.
  assert (Acc : accepted cb k /\
                (Py.truthy cb <> None ->
                 Forall (fun d => 0 <= d <= 9) (alice_key kp))).
  { unfold accepted. destruct (Py.truthy cb) as [s |] eqn:T;
      [| split; [exact I | congruence]].
    destruct (truthy_Some _ _ T) as [-> Ne].
    apply generate_key_custom_alice in H; [| exact Ne].
    split; [eauto |]. intros _.
    apply custom_alice_key_inr in H. destruct H as (l & Hl & _ & ->).
    apply Forall_slice_to. clear - Hl. revert l Hl.
    induction (list_ascii_of_string s) as [| c cs IH]; simpl; intros l Hl.
    - inversion Hl. constructor.
    - rewrite int_of_char_digit in Hl.
      destruct (Py.digit_value c) as [d |] eqn:D; [| discriminate].
      destruct (map_exn Py.int_of_char cs) as [| ds]; [discriminate |].
      inversion Hl; subst. constructor; [| apply IH; reflexivity].
      unfold Py.digit_value in D.
      destruct (_ && _) eqn:B; [| discriminate]. inversion D.
      apply andb_true_iff in B. destruct B as [B1 B2].
      apply Z.leb_le in B1, B2. lia. }
  destruct Acc as [Acc Dig]. split; [| exact Dig].
  intros F. exact (generate_key_safe p k e cb Acc w (Ok kp) w' H F).
Qed.

Lemma keys_hold_bits_witness :
  let r := generate_key BB84 2 true None tapped_world in
  exists kp, fst r = Ok kp /\
    Forall is_bit (bob_key kp) /\ Forall is_bit (alice_key kp).
Proof.
  exists (mkKeyPair [1; 0] [1; 0] "BB84" true).
  split; [vm_compute; reflexivity |].
  destruct (keys_hold_bits BB84 2 true None tapped_world
              (mkKeyPair [1; 0] [1; 0] "BB84" true)
              (snd (generate_key BB84 2 true None tapped_world)))
    as [B _].
  - vm_compute; reflexivity.
  - destruct B as [Hb Ha].
    + apply faithful_check. vm_compute; reflexivity.
    + split; [exact Hb | apply Ha; reflexivity].
Defined.

(** X3.  For a request whose [protocol] and [custom_bits] fields are
    strings, [run_simulation] reaches its [except] branch, answering
    500, only if the backend returned a memory the submitted circuit
    does not allow: the custom bits it lets through are accepted by
    every engine. *)
Theorem run_simulation_500_needs_backend_fault (R : Type) (N : Number R)
  name k e u s w x w' :
  run_simulation (R := R) name k e u s w = (Some (Http500 x), w') ->
  ~ faithful (jobs w').
Proof.
  unfold run_simulation. intros H F.
  destruct (protocols name) as [p |]; [| discriminate].
  pose proof (route_passes_accepted u s k) as Acc.
  destruct (if u then Py.truthy (Some s) else None) as [s' |].
  - destruct (negb (forallb Py.in_01 (list_ascii_of_string s'))) eqn:B;
      [discriminate |].
    destruct (Z.of_nat (String.length s') <? k) eqn:L; [discriminate |].
    specialize (Acc eq_refl eq_refl).
    destruct (generate_key p k e (Some s') w) as [[kp | y |] w1] eqn:G;
      try discriminate.
    inversion H; subst.
    exact (generate_key_safe p k e (Some s') Acc w (Raise x) w' G F).
  - destruct (generate_key p k e None w) as [[kp | y |] w1] eqn:G;
      try discriminate.
    inversion H; subst.
    exact (generate_key_safe p k e None Acc w (Raise x) w' G F).
Qed.

Lemma run_simulation_500_needs_backend_fault_witness :
  let r := run_simulation (R := float) "bb84" 1 false false "" broken_world in
  fst r = Some (Http500 (Py.ValueError_invalid_literal "")) /\
  ~ faithful (jobs (snd r)).
Proof.
  split; [vm_compute; reflexivity |].
  apply (run_simulation_500_needs_backend_fault float binary64 "bb84" 1
           false false "" broken_world (Py.ValueError_invalid_literal "")).
  vm_compute; reflexivity.
Defined.

(** *** The evaluator *)

Lemma agreeing_positions_sym a b :
  agreeing_positions a b = agreeing_positions b a.
Proof.
  unfold agreeing_positions. rewrite (Nat.min_comm (List.length b)).
  f_equal. apply filter_ext. intros i. apply Z.eqb_sym.
Qed.

(** X4.  The evaluator does not distinguish the two parties: swapping
    [alice_key] and [bob_key] gives the same metrics, and the
    [eavesdropping] argument has no influence, in either arithmetic. *)
Theorem metrics_are_symmetric (R : Type) (N : Number R) a b e e' :
  QKDProtocol.calculate_security_metrics (R := R) a b e =
  QKDProtocol.calculate_security_metrics (R := R) b a e'.
Proof.
  destruct a as [| x a]; [destruct b; reflexivity |].
  destruct b as [| y b]; [reflexivity |].
  rewrite (metrics_nonempty (x :: a) (y :: b) e) by discriminate.
  rewrite (metrics_nonempty (y :: b) (x :: a) e') by discriminate.
  cbv zeta. rewrite agreeing_positions_sym, Z.min_comm. reflexivity.
Qed.

Lemma agreeing_positions_le a b :
  (agreeing_positions a b <= Nat.min (List.length a) (List.length b))%nat.
Proof.
  unfold agreeing_positions.
  etransitivity; [apply filter_length_le |]. rewrite length_seq. lia.
Qed.

Lemma filter_all {A : Type} (f : A -> bool) l :
  List.length (filter f l) = List.length l <-> forall x, In x l -> f x = true.
Proof.
  induction l as [| a l IH]; simpl.
  - split; [intros _ x [] | reflexivity].
  - destruct (f a) eqn:E; simpl.
    + split.
      * intros H x [<- | Hx]; [exact E |]. apply IH; [lia | exact Hx].
      * intros H. f_equal. apply IH. intros x Hx. apply H. right. exact Hx.
    + split.
      * intros H. pose proof (filter_length_le f l). lia.
      * intros H. specialize (H a (or_introl eq_refl)). congruence.
Qed.

Lemma firstn_eq_nth (a b : list Z) n :
  (n <= List.length a)%nat -> (n <= List.length b)%nat ->
  (firstn n a = firstn n b <->
   forall i, (i < n)%nat -> nth i a 0 = nth i b 0).
Proof.
  revert a b. induction n as [| n IH]; intros a b Ha Hb.
  - simpl. split; [intros _ i Hi; lia | reflexivity].
  - destruct a as [| x a]; [simpl in Ha; lia |].
    destruct b as [| y b]; [simpl in Hb; lia |].
    simpl in Ha, Hb. simpl. split.
    + intros H. inversion H; subst. intros [| i] Hi; [reflexivity |].
      simpl. apply (proj1 (IH a b ltac:(lia) ltac:(lia))); [assumption | lia].
    + intros H. f_equal.
      * apply (H 0%nat). lia.
      * apply IH; try lia. intros i Hi. apply (H (S i)). lia.
Qed.

Lemma agreeing_all a b :
  let n := Nat.min (List.length a) (List.length b) in
  agreeing_positions a b = n <-> firstn n a = firstn n b.
Proof.
  cbv zeta. rewrite firstn_eq_nth by lia.
  unfold agreeing_positions.
  pose proof (filter_all (fun i => nth i a 0 =? nth i b 0)
                (seq 0 (Nat.min (List.length a) (List.length b)))) as FA.
  rewrite length_seq in FA. rewrite FA. split.
  - intros H i Hi. apply Z.eqb_eq. apply H. apply in_seq. lia.
  - intros H i Hi. apply Z.eqb_eq. apply H. apply in_seq in Hi. lia.
Qed.

(** X5.  In exact arithmetic, for all keys: [agreement_rate] and [qber]
    lie between 0 and 1 and add up to 1; for non-empty keys the
    agreement is 1 (and the QBER 0) exactly when the keys coincide on
    the positions compared, the first [min(len, len)] of each. *)
Theorem rates_are_fractions a b e :
  let m := QKDProtocol.calculate_security_metrics (R := Q) a b e in
  let n := Nat.min (List.length a) (List.length b) in
  (0 <= agreement_rate m <= 1 /\ 0 <= qber m <= 1 /\
   agreement_rate m + qber m == 1 /\
   (n <> 0%nat ->
    ((agreement_rate m == 1 <-> firstn n a = firstn n b) /\
     (qber m == 0 <-> firstn n a = firstn n b))))%Q.
Proof.
  cbv zeta.
  destruct a as [| x a]; [| destruct b as [| y b]];
    try (simpl; repeat split; try lra; try discriminate;
         intros; contradiction).
  rewrite (metrics_nonempty (x :: a) (y :: b) e) by discriminate.
  cbv zeta. cbn [agreement_rate qber].
  cbn [num_div num_sub num_of_int num_1 exact].
  pose proof (agreeing_positions_le (x :: a) (y :: b)) as Le.
  pose proof (agreeing_all (x :: a) (y :: b)) as All. cbv zeta in All.
  set (n := agreeing_positions (x :: a) (y :: b)) in *.
  replace (Z.min (Py.len (x :: a)) (Py.len (y :: b)))
    with (Z.of_nat (Nat.min (List.length (x :: a)) (List.length (y :: b))))
    by (unfold Py.len; lia).
  set (t := Nat.min (List.length (x :: a)) (List.length (y :: b))) in *.
  assert (Tp : (0 < t)%nat) by (subst t; simpl; lia).
  clearbody n t.
  assert (Tq : (0 < inject_Z (Z.of_nat t))%Q)
    by (unfold Qlt, inject_Z; simpl; lia).
  assert (Nq : (0 <= inject_Z (Z.of_nat n))%Q)
    by (unfold Qle, inject_Z; simpl; lia).
  assert (NT : (inject_Z (Z.of_nat n) <= inject_Z (Z.of_nat t))%Q)
    by (unfold Qle, inject_Z; simpl; lia).
  assert (R0 : (0 <= inject_Z (Z.of_nat n) / inject_Z (Z.of_nat t))%Q).
  { apply Qle_shift_div_l; [exact Tq | lra]. }
  assert (R1 : (inject_Z (Z.of_nat n) / inject_Z (Z.of_nat t) <= 1)%Q).
  { apply Qle_shift_div_r; [exact Tq | lra]. }
  assert (One : (inject_Z (Z.of_nat n) / inject_Z (Z.of_nat t) == 1)%Q
                <-> n = t).
  { split.
    - intros H.
      assert (E : (inject_Z (Z.of_nat n) == inject_Z (Z.of_nat t))%Q).
      { rewrite <- (Qmult_div_r (inject_Z (Z.of_nat n))
                      (inject_Z (Z.of_nat t))) by lra.
        rewrite H. lra. }
      unfold Qeq, inject_Z in E. simpl in E. lia.
    - intros ->. apply Qmult_inv_r. lra. }
  repeat split; try lra.
  - intros E. apply All. apply One. exact E.
  - intros E. apply One. apply All. exact E.
  - intros E. apply All. apply One. lra.
  - intros E. apply All in E. apply One in E. lra.
Qed.

(** Below 0.05 is below 0.15, in binary64 as in exact arithmetic. *)
Lemma binary64_thresholds_ordered x :
  num_lt (R := float) x num_0_05 = true -> num_lt x num_0_15 = true.
Proof.
  cbn [num_lt num_0_05 num_0_15 binary64].
  rewrite !FloatAxioms.ltb_spec.
  replace (FloatOps.Prim2SF 0x1.999999999999ap-5%float)
    with (SpecFloat.S754_finite false 7205759403792794%positive (-57))
    by (vm_compute; reflexivity).
  replace (FloatOps.Prim2SF 0x1.3333333333333p-3%float)
    with (SpecFloat.S754_finite false 5404319552844595%positive (-55))
    by (vm_compute; reflexivity).
  unfold SpecFloat.SFltb, SpecFloat.SFcompare.
  destruct (FloatOps.Prim2SF x) as [s | s | | s m e]; try (destruct s); auto.
  destruct (e ?= -57) eqn:C1; try discriminate.
  - apply Z.compare_eq in C1. subst. reflexivity.
  - rewrite Z.compare_lt_iff in C1.
    assert (C2 : (e ?= -55) = Lt) by (apply Z.compare_lt_iff; lia).
    rewrite C2. reflexivity.
Qed.

Lemma exact_thresholds_ordered x :
  num_lt (R := Q) x num_0_05 = true -> num_lt x num_0_15 = true.
Proof.
  cbn [num_lt num_0_05 num_0_15 exact]. rewrite !Qltb_lt. lra.
Qed.

Lemma metrics_consistent {R : Type} {N : Number R} a b e :
  (forall x : R, num_lt x num_0_05 = true -> num_lt x num_0_15 = true) ->
  consistent (QKDProtocol.calculate_security_metrics (R := R) a b e).
Proof.
  intros Mono. unfold consistent.
  destruct a as [| x a]; [| destruct b as [| y b]];
    try (simpl; split; [split; [discriminate | intros H; contradiction]
                       | auto]).
  rewrite (metrics_nonempty (x :: a) (y :: b) e) by discriminate.
  cbv zeta. cbn [is_secure security_level].
  match goal with |- context [num_lt ?q num_0_05] =>
    pose proof (Mono q) as M;
    destruct (num_lt q num_0_05); [rewrite M by reflexivity |];
    [| destruct (num_lt q num_0_15)]
  end.
  - split; [split; [discriminate | reflexivity] | auto].
  - split; [split; [discriminate | reflexivity] | auto].
  - split; [split; [discriminate | intros H; contradiction] | auto].
Qed.

(** X6.  The fields of the evaluator's result never contradict each
    other: [security_level] is one of ['High'], ['Medium'], ['Low'], and
    [is_secure] holds exactly when it is not ['Low'], in exact
    arithmetic and in binary64; so the [status] of a 200 response of
    [run_simulation] announces a secure exchange exactly when the level
    reported beside it is not ['Low']. *)
Theorem status_matches_level :
  (forall a b e,
      consistent (QKDProtocol.calculate_security_metrics (R := Q) a b e) /\
      consistent (QKDProtocol.calculate_security_metrics (R := float) a b e))
  /\
  (forall name k e u s w r w',
      run_simulation (R := float) name k e u s w = (Some (Http200 r), w') ->
      consistent (res_metrics r) /\
      (res_status r = "Secure communication possible"%string <->
       security_level (res_metrics r) <> "Low"%string) /\
      (res_status r = "Security compromised - abort key exchange"%string <->
       security_level (res_metrics r) = "Low"%string)).
Proof.
  split.
  - intros a b e. split; apply metrics_consistent.
    + apply exact_thresholds_ordered.
    + apply binary64_thresholds_ordered.
  - intros name k e u s w r w' H.
    assert (G : exists kp,
               r = {| res_keys := kp;
                      res_key_length := Py.len (alice_key kp);
                      res_metrics :=
                        QKDProtocol.calculate_security_metrics
                          (alice_key kp) (bob_key kp) e;
                      res_status :=
                        if is_secure
                             (QKDProtocol.calculate_security_metrics
                                (R := float) (alice_key kp) (bob_key kp) e)
                        then "Secure communication possible"
                        else "Security compromised - abort key exchange" |}).
    { unfold run_simulation in H.
      destruct (protocols name) as [p |]; [| discriminate].
      destruct (if u then Py.truthy (Some s) else None) as [s' |].
      - destruct (negb _); [discriminate |].
        destruct (_ <? _); [discriminate |].
        destruct (generate_key p k e (Some s') w) as [[kp | x |] w1];
          inversion H. eexists. reflexivity.
      - destruct (generate_key p k e None w) as [[kp | x |] w1];
          inversion H. eexists. reflexivity. }
    destruct G as [kp ->]. cbn [res_metrics res_status].
    pose proof (metrics_consistent (alice_key kp) (bob_key kp) e
                  binary64_thresholds_ordered) as C.
    split; [exact C |]. destruct C as [[C1 C2] C3].
    destruct (is_secure _).
    + split; split; try discriminate; intros.
      * apply C1. reflexivity.
      * reflexivity.
      * exfalso. apply C1; [reflexivity | assumption].
    + split; split; try discriminate; intros.
      * exfalso. assert (false = true) by (apply C2; assumption).
        discriminate.
      * destruct C3 as [C3 | [C3 | C3]]; try exact C3;
          exfalso; assert (false = true)
            by (apply C2; rewrite C3; discriminate); discriminate.
      * reflexivity.
Qed.

(** *** Edge cases of [key_length] and of the validation *)

Lemma while_done {S : Type} (cond : S -> bool) (body : S -> M S) s w :
  cond s = false -> while cond body s w = (Ok s, w).
Proof. intros C. unfold while. simpl. rewrite C. reflexivity. Qed.

Lemma range_nonpositive k : k <= 0 -> range k = [].
Proof.
  intros H. unfold range. replace (Z.to_nat k) with 0%nat by lia. reflexivity.
Qed.

Lemma len_nil_ltb k : k <= 0 -> (Py.len (@nil Z) <? k) = false.
Proof. intros H. apply Z.ltb_ge. unfold Py.len. simpl. lia. Qed.

(** X7.  With [key_length <= 0] and no custom bits every engine returns
    two empty keys at once, without a draw or a job; [run_simulation]
    then answers 200 with [key_length] 0, agreement 0.0, QBER 1.0, level
    ['Low'] and the status of a compromised exchange. *)
Theorem nonpositive_key_length_gives_empty_keys p k e cb w :
  k <= 0 -> Py.truthy cb = None ->
  generate_key p k e cb w =
  (Ok (mkKeyPair [] [] (QKDProtocol.name p) e), w) /\
  (forall (R : Type) (N : Number R) name s,
      protocols name = Some p ->
      run_simulation (R := R) name k e false s w =
      (Some (Http200
         {| res_keys := mkKeyPair [] [] (QKDProtocol.name p) e;
            res_key_length := 0;
            res_metrics :=
              {| agreement_rate := num_0; qber := num_1;
                 is_secure := false; security_level := "Low" |};
            res_status := "Security compromised - abort key exchange" |}),
       w)).
Proof.
  intros Hk T.
  assert (G : forall cb', Py.truthy cb' = None ->
                generate_key p k e cb' w =
                (Ok (mkKeyPair [] [] (QKDProtocol.name p) e), w)).
  { intros cb' T'. destruct p; simpl;
      [ unfold BB84Protocol.generate_key
      | unfold E91Protocol.generate_key
      | unfold BBM92Protocol.generate_key
      | unfold TeleportationQKD.generate_key ];
      rewrite T'; unfold bind;
      try (rewrite while_done by (apply len_nil_ltb; exact Hk); reflexivity).
    rewrite (range_nonpositive k Hk). reflexivity. }
  split; [apply G; exact T |].
  intros R N name s Hp. unfold run_simulation. rewrite Hp.
  rewrite (G None eq_refl). reflexivity.
Qed.

Lemma nonpositive_key_length_gives_empty_keys_witness :
  generate_key E91 (-3) true (Some ""%string) bb84_world =
  (Ok (mkKeyPair [] [] "E91" true), bb84_world).
Proof.
  apply (nonpositive_key_length_gives_empty_keys E91 (-3) true
           (Some ""%string) bb84_world); [lia | reflexivity].
Defined.

Lemma slice_to_negative {A : Type} (l : list A) k :
  k < 0 ->
  Py.slice_to l k = firstn (List.length l - Z.to_nat (- k)) l.
Proof.
  intros H. unfold Py.slice_to, Py.len.
  destruct (0 <=? k) eqn:E; [apply Z.leb_le in E; lia |].
  f_equal. lia.
Qed.

(** X8.  With custom bits over ['0'], ['1'] and a negative
    [key_length] every engine accepts the string (it is not shorter than
    [key_length]), returns as [alice_key] its bits without the last
    [-key_length], and an empty [bob_key], without a draw or a job; with
    [key_length = 0] both keys are empty.  [run_simulation] lets such a
    request through and answers 200, its [key_length] field holding the
    length of [alice_key], with level ['Low']. *)
Theorem negative_key_length_drops_last_bits p k e s w :
  s <> EmptyString ->
  forallb Py.in_01 (list_ascii_of_string s) = true ->
  k <= 0 ->
  let bits := bits_of (list_ascii_of_string s) in
  let alice :=
    if k =? 0 then []
    else firstn (List.length bits - Z.to_nat (- k)) bits in
  generate_key p k e (Some s) w =
  (Ok (mkKeyPair alice [] (QKDProtocol.name p) e), w) /\
  (forall (R : Type) (N : Number R) name,
      protocols name = Some p ->
      run_simulation (R := R) name k e true s w =
      (Some (Http200
         {| res_keys := mkKeyPair alice [] (QKDProtocol.name p) e;
            res_key_length := Py.len alice;
            res_metrics :=
              {| agreement_rate := num_0; qber := num_1;
                 is_secure := false; security_level := "Low" |};
            res_status := "Security compromised - abort key exchange" |}),
       w)).
Proof.
  intros Ne V Hk bits alice.
  assert (L : (Py.len bits <? k) = false).
  { apply Z.ltb_ge. unfold Py.len. lia. }
  assert (A : custom_alice_key s k = inr alice).
  { unfold custom_alice_key. rewrite (binary_parse _ V). fold bits.
    rewrite L. f_equal. subst alice.
    destruct (k =? 0) eqn:E.
    - apply Z.eqb_eq in E. subst. reflexivity.
    - apply Z.eqb_neq in E. apply slice_to_negative. lia. }
  assert (G : generate_key p k e (Some s) w =
              (Ok (mkKeyPair alice [] (QKDProtocol.name p) e), w)).
  { destruct p; simpl;
      [ unfold BB84Protocol.generate_key
      | unfold E91Protocol.generate_key
      | unfold BBM92Protocol.generate_key
      | unfold TeleportationQKD.generate_key ];
      rewrite (truthy_nonempty s Ne); unfold bind, lift; rewrite A;
      try (rewrite while_done by (apply len_nil_ltb; exact Hk); reflexivity).
    rewrite (range_nonpositive k Hk). reflexivity. }
  split; [exact G |].
  intros R N name Hp. unfold run_simulation. rewrite Hp.
  rewrite (truthy_nonempty s Ne), V. cbn [negb].
  replace (Z.of_nat (String.length s) <? k) with false
    by (symmetry; apply Z.ltb_ge; lia).
  rewrite G. cbn [alice_key bob_key].
  replace (QKDProtocol.calculate_security_metrics alice [] e)
    with {| agreement_rate := num_0 (R := R); qber := num_1;
            is_secure := false; security_level := "Low" |}
    by (destruct alice; reflexivity).
  reflexivity.
Qed.

Lemma negative_key_length_drops_last_bits_witness :
  generate_key BB84 (-2) false (Some "10110"%string) bb84_world =
  (Ok (mkKeyPair [1; 0; 1] [] "BB84" false), bb84_world) /\
  run_simulation (R := float) "bb84" (-2) false true "10110" bb84_world =
  (Some (Http200
     {| res_keys := mkKeyPair [1; 0; 1] [] "BB84" false;
        res_key_length := 3;
        res_metrics :=
          {| agreement_rate := 0%float; qber := 1%float;
             is_secure := false; security_level := "Low" |};
        res_status := "Security compromised - abort key exchange" |}),
   bb84_world).
Proof.
  destruct (negative_key_length_drops_last_bits BB84 (-2) false "10110"
              bb84_world ltac:(discriminate) eq_refl ltac:(lia))
    as [G Rt].
  split; [exact G |].
  exact (Rt float binary64 "bb84"%string eq_refl).
Defined.

(** *** Which error is reported *)

Lemma map_exn_first_non_digit l :
  match find (fun c => negb (is_digit c)) l with
  | Some c =>
      map_exn Py.int_of_char l =
      inl (Py.ValueError_invalid_literal (String c EmptyString))
  | None => exists ds, map_exn Py.int_of_char l = inr ds
  end.
Proof.
  induction l as [| c l IH]; simpl; [eexists; reflexivity |].
  rewrite int_of_char_digit. unfold is_digit at 1.
  destruct (Py.digit_value c) as [d |]; simpl; [| reflexivity].
  destruct (find _ l) as [c' |].
  - rewrite IH. reflexivity.
  - destruct IH as [ds ->]. eexists. reflexivity.
Qed.

(** X9.  The [ValueError] of the engines' validation is determined by
    the string: if it has a character that is not a decimal digit, the
    error is [int]'s, for the first such character, also when the string
    is too short as well; otherwise, if it is shorter than [key_length],
    the error is the engines' own ('Custom bits must be at least N bits
    long').  In both cases nothing is drawn and no job is run. *)
Theorem validation_error_is_determined p k e s w :
  s <> EmptyString ->
  match first_non_digit s with
  | Some c =>
      generate_key p k e (Some s) w =
      (Raise (Py.ValueError_invalid_literal (String c EmptyString)), w)
  | None =>
      Z.of_nat (String.length s) < k ->
      generate_key p k e (Some s) w =
      (Raise (Py.ValueError_custom_bits_too_short k), w)
  end.
Proof.
  intros Ne. unfold first_non_digit.
  pose proof (map_exn_first_non_digit (list_ascii_of_string s)) as F.
  destruct (find _ (list_ascii_of_string s)) as [c |].
  - apply generate_key_rejected; [exact Ne |].
    unfold custom_alice_key. rewrite F. reflexivity.
  - intros L. destruct F as [ds F].
    apply generate_key_rejected; [exact Ne |].
    unfold custom_alice_key. rewrite F.
    apply map_exn_length in F. unfold Py.len. rewrite F, string_length_chars.
    replace (Z.of_nat (String.length s) <? k) with true
      by (symmetry; apply Z.ltb_lt; exact L).
    reflexivity.
Qed.

Lemma validation_error_is_determined_witness :
  generate_key E91 8 true (Some "01a1b"%string) e91_world =
  (Raise (Py.ValueError_invalid_literal "a"), e91_world) /\
  generate_key E91 8 true (Some "01011"%string) e91_world =
  (Raise (Py.ValueError_custom_bits_too_short 8), e91_world).
Proof.
  split.
  - apply (validation_error_is_determined E91 8 true "01a1b" e91_world).
    discriminate.
  - apply (validation_error_is_determined E91 8 true "01011" e91_world).
    + discriminate.
    + simpl. lia.
Defined.

Lemma invalid_protocol_iff {R : Type} {N : Number R} name k e u s w :
  run_simulation (R := R) name k e u s w =
  (Some (Http400 Invalid_protocol), w) <-> protocols name = None.
Proof.
  unfold run_simulation. destruct (protocols name) as [p |];
    [| split; reflexivity].
  split; [| discriminate]. intros H. exfalso.
  destruct (if u then Py.truthy (Some s) else None) as [s' |].
  - destruct (negb _); [discriminate |].
    destruct (_ <? _); [discriminate |].
    destruct (generate_key p k e (Some s') w) as [[kp | x |] w1];
      discriminate.
  - destruct (generate_key p k e None w) as [[kp | x |] w1]; discriminate.
Qed.

(** X10.  [run_simulation] answers 400 in exactly three cases, always
    before any draw or job: 'Invalid protocol' when the name is not one
    of the four keys (whatever the other fields are); 'only 0s and 1s'
    when custom bits are to be used, are not empty and have a character
    other than ['0'] and ['1'] (also when they are too short as well);
    'at least N characters long', with N the requested [key_length],
    when they are over ['0'], ['1'] but shorter than [key_length]. *)
Theorem bad_requests_are_classified (R : Type) (N : Number R)
  name k e u s w :
  (forall err w',
      run_simulation (R := R) name k e u s w = (Some (Http400 err), w') ->
      w' = w) /\
  (run_simulation (R := R) name k e u s w =
   (Some (Http400 Invalid_protocol), w) <-> protocols name = None) /\
  (run_simulation (R := R) name k e u s w =
   (Some (Http400 Custom_bits_not_binary), w) <->
   protocols name <> None /\ u = true /\ s <> EmptyString /\
   forallb Py.in_01 (list_ascii_of_string s) = false) /\
  (forall n,
      run_simulation (R := R) name k e u s w =
      (Some (Http400 (Custom_bits_too_short n)), w) <->
      n = k /\ protocols name <> None /\ u = true /\ s <> EmptyString /\
      forallb Py.in_01 (list_ascii_of_string s) = true /\
      Z.of_nat (String.length s) < k).
Proof.
  unfold run_simulation.
  destruct (protocols name) as [p |].
  2:{ split; [intros err w' H; inversion H; reflexivity |].
      split; [split; reflexivity |].
      split; [split; [discriminate | intros [H _]; contradiction] |].
      intros n. split; [discriminate | intros (_ & H & _); contradiction]. }
  assert (NoBad : forall cb err w',
             match generate_key p k e cb w with
             | (Ok key_data, w1) =>
                 (Some (Http200
                    {| res_keys := key_data;
                       res_key_length := Py.len (alice_key key_data);
                       res_metrics :=
                         QKDProtocol.calculate_security_metrics (R := R)
                           (alice_key key_data) (bob_key key_data) e;
                       res_status :=
                         if is_secure
                              (QKDProtocol.calculate_security_metrics
                                 (R := R) (alice_key key_data)
                                 (bob_key key_data) e)
                         then "Secure communication possible"
                         else "Security compromised - abort key exchange" |}),
                  w1)
             | (Raise x, w1) => (Some (Http500 x), w1)
             | (Stuck, w1) => (None, w1)
             end <> (Some (Http400 err), w')).
  { intros cb err w'.
    destruct (generate_key p k e cb w) as [[kp | x |] w1]; discriminate. }
  destruct u.
  2:{ split; [intros err w' H; exfalso; exact (NoBad _ _ _ H) |].
      split; [split; [intros H; exfalso; exact (NoBad _ _ _ H)
                     | discriminate] |].
      split; [split; [intros H; exfalso; exact (NoBad _ _ _ H)
                     | intros (_ & H & _); discriminate] |].
      intros n. split; [intros H; exfalso; exact (NoBad _ _ _ H)
                       | intros (_ & _ & H & _); discriminate]. }
  destruct s as [| c s].
  { split; [intros err w' H; exfalso; exact (NoBad _ _ _ H) |].
    split; [split; [intros H; exfalso; exact (NoBad _ _ _ H)
                   | discriminate] |].
    split; [split; [intros H; exfalso; exact (NoBad _ _ _ H)
                   | intros (_ & _ & H & _); contradiction] |].
    intros n. split; [intros H; exfalso; exact (NoBad _ _ _ H)
                     | intros (_ & _ & _ & H & _); contradiction]. }
  cbn [Py.truthy].
  destruct (forallb Py.in_01 (list_ascii_of_string (String c s))) eqn:B;
    cbn [negb].
  2:{ split; [intros err w' H; inversion H; reflexivity |].
      split; [split; discriminate |].
      split; [split; [intros _; repeat split; discriminate | reflexivity] |].
      intros n. split; [discriminate
                       | intros (_ & _ & _ & _ & H & _); discriminate]. }
  destruct (Z.of_nat (String.length (String c s)) <? k) eqn:L.
  - apply Z.ltb_lt in L.
    split; [intros err w' H; inversion H; reflexivity |].
    split; [split; discriminate |].
    split; [split; [discriminate
                   | intros (_ & _ & _ & H); discriminate] |].
    intros n. split.
    + intros H. inversion H. subst.
      repeat split; try discriminate; assumption.
    + intros (-> & _). reflexivity.
  - apply Z.ltb_ge in L.
    split; [intros err w' H; exfalso; exact (NoBad _ _ _ H) |].
    split; [split; [intros H; exfalso; exact (NoBad _ _ _ H)
                   | discriminate] |].
    split; [split; [intros H; exfalso; exact (NoBad _ _ _ H)
                   | intros (_ & _ & _ & H); discriminate] |].
    intros n. split; [intros H; exfalso; exact (NoBad _ _ _ H)
                     | intros (_ & _ & _ & _ & _ & H); lia].
Qed.

(** *** The comparison route *)

Lemma steady_generate_key p k e cb : steady (generate_key p k e cb).
Proof.
  destruct p; simpl;
    [ unfold BB84Protocol.generate_key
    | unfold E91Protocol.generate_key
    | unfold BBM92Protocol.generate_key
    | unfold TeleportationQKD.generate_key ];
    destruct (Py.truthy cb);
    repeat first
      [ apply steady_ret | apply steady_lift
      | apply steady_bb84_custom_body | apply steady_bb84_random_attempt
      | apply steady_e91_custom_body | apply steady_e91_random_attempt
      | apply steady_bbm92_custom_body | apply steady_bbm92_random_attempt
      | apply steady_teleport_custom_round
      | apply steady_teleport_random_round
      | apply steady_while; intros
      | apply steady_for_each; intros
      | apply steady_bind; [| intros] ].
Qed.

Lemma generate_key_protocol_field p k e cb w kp w' :
  generate_key p k e cb w = (Ok kp, w') ->
  protocol kp = QKDProtocol.name p /\ eavesdropping kp = e.
Proof.
  intros H. destruct p; simpl in H;
    [ unfold BB84Protocol.generate_key in H
    | unfold E91Protocol.generate_key in H
    | unfold BBM92Protocol.generate_key in H
    | unfold TeleportationQKD.generate_key in H ];
    destruct (Py.truthy cb); runs; split; reflexivity.
Qed.

Lemma compare_loop_after {R : Type} {N : Number R} items k e cb :
  forall results w r w',
    compare_loop (R := R) items k e cb results w = (r, w') -> after w w'.
Proof.
  induction items as [| [n p] items IH]; intros results w r w' H; simpl in H.
  - inversion H. apply after_refl.
  - destruct (generate_key p k e cb w) as [[kp | x |] w1] eqn:G;
      pose proof (steady_generate_key p k e cb _ _ _ G) as A1.
    + eapply after_trans; [exact A1 | eapply IH; exact H].
    + eapply after_trans; [exact A1 | eapply IH; exact H].
    + inversion H; subst. exact A1.
Qed.

Lemma compare_loop_keys {R : Type} {N : Number R} items k e cb :
  forall results w res w',
    compare_loop (R := R) items k e cb results w = (Some res, w') ->
    map fst res = map fst results ++ map fst items /\
    (forall n c, In (n, inr c) res ->
       In (n, inr c) results \/
       exists p, In (n, p) items /\ cmp_name c = QKDProtocol.name p /\
                 0 <= cmp_key_length c).
Proof.
  induction items as [| [n p] items IH]; intros results w res w' H;
    simpl in H.
  - inversion H; subst. rewrite app_nil_r. split; [reflexivity | auto].
  - destruct (generate_key p k e cb w) as [[kp | x |] w1] eqn:G;
      try discriminate;
      apply IH in H; destruct H as [K E]; rewrite map_app in K; simpl in K;
      rewrite <- app_assoc in K; simpl in K; (split; [exact K |]);
      intros n' c Hc; apply E in Hc;
      destruct Hc as [Hc | (p' & Hin & Hn)];
      try (right; exists p'; split; [right; exact Hin | exact Hn]);
      apply in_app_or in Hc; destruct Hc as [Hc | [Hc | []]];
      try (left; exact Hc); inversion Hc; subst.
    right. exists p. split; [left; reflexivity |]. simpl.
    split; [reflexivity | unfold Py.len; lia].
Qed.

(** X11.  When [compare_protocols] answers, its dictionary [results] has
    exactly one entry for each of the four protocols and no other,
    whether the engines succeeded or raised: an exception of one engine
    becomes its entry and the others are still run.  The response lists
    them as [jsonify] sorts them: ['bb84'], ['bbm92'], ['e91'],
    ['teleportation'].  An entry that is not an error carries the
    display name of its engine. *)
Theorem comparison_covers_all_protocols (R : Type) (N : Number R)
  k e u s w res w' :
  compare_protocols (R := R) k e u s w = (Some res, w') ->
  List.length res = 4%nat /\ NoDup (map fst res) /\
  (forall n, In n (map fst res) <-> protocols n <> None) /\
  map fst (jsonify res) =
  ["bb84"; "bbm92"; "e91"; "teleportation"]%string /\
  (forall n c, In (n, inr c) res ->
     exists p, protocols n = Some p /\ cmp_name c = QKDProtocol.name p) /\
  after w w'.
Proof.
  unfold compare_protocols. intros H.
  pose proof (compare_loop_after _ _ _ _ _ _ _ _ H) as A.
  apply compare_loop_keys in H. destruct H as [K E].
  simpl in K.
  split; [apply (f_equal (@List.length string)) in K;
          rewrite length_map in K; exact K |].
  split; [rewrite K; repeat constructor; simpl; intuition discriminate |].
  split.
  { intros n. rewrite K. split.
    - intros [<- | [<- | [<- | [<- | []]]]]; discriminate.
    - intros P. unfold protocols in P. simpl.
      destruct (String.eqb n "bb84") eqn:E1;
        [apply String.eqb_eq in E1; auto |].
      destruct (String.eqb n "e91") eqn:E2;
        [apply String.eqb_eq in E2; auto |].
      destruct (String.eqb n "bbm92") eqn:E3;
        [apply String.eqb_eq in E3; auto |].
      destruct (String.eqb n "teleportation") eqn:E4;
        [apply String.eqb_eq in E4; auto 6 |].
      contradiction. }
  split.
  { destruct res as [| [n1 v1] [| [n2 v2] [| [n3 v3] [| [n4 v4] [| ? ?]]]]];
      try discriminate.
    simpl in K. inversion K; subst. reflexivity. }
  split; [| exact A].
  intros n c Hc. apply E in Hc. destruct Hc as [[] | (p & Hin & Hn & _)].
  exists p. split; [| exact Hn].
  simpl in Hin.
  destruct Hin as [Hin | [Hin | [Hin | [Hin | []]]]]; inversion Hin;
    reflexivity.
Qed.

Lemma comparison_covers_all_protocols_witness :
  exists res w',
    compare_protocols (R := Q) 1 false false "" comparison_world =
    (Some res, w') /\
    map fst (jsonify res) =
    ["bb84"; "bbm92"; "e91"; "teleportation"]%string /\
    List.length (jobs w') = 5%nat.
Proof.
  destruct (compare_protocols (R := Q) 1 false false "" comparison_world)
    as [[res |] w'] eqn:E; [| vm_compute in E; discriminate].
  exists res, w'. split; [reflexivity |].
  split.
  - exact (proj1 (proj2 (proj2 (proj2
             (comparison_covers_all_protocols Q exact 1 false false
                "" comparison_world res w' E))))).
  - vm_compute in E. injection E as _ <-. reflexivity.
Defined.

Lemma compare_loop_rejected {R : Type} {N : Number R} items k e s x w :
  s <> EmptyString -> custom_alice_key s k = inl x ->
  forall results,
    compare_loop (R := R) items k e (Some s) results w =
    (Some (results ++ map (fun item => (fst item, inl x)) items), w).
Proof.
  intros Ne H. induction items as [| [n p] items IH]; intros results; simpl.
  - rewrite app_nil_r. reflexivity.
  - rewrite (generate_key_rejected p k e s x w Ne H), IH, <- app_assoc.
    reflexivity.
Qed.

(** X12.  [compare_protocols] does not validate the custom bits itself.
    With custom bits the engines reject (a character that is not a
    decimal digit, or fewer characters than [key_length]) it still
    answers, without a draw or a job, with four entries that all hold
    the engines' [ValueError]; [run_simulation] answers 400 to the same
    request. *)
Theorem comparison_reports_rejected_bits (R : Type) (N : Number R)
  k e s w :
  s <> EmptyString -> engine_rejects s k ->
  exists x,
    custom_alice_key s k = inl x /\
    compare_protocols (R := R) k e true s w =
    (Some [("bb84"%string, inl x); ("e91"%string, inl x);
           ("bbm92"%string, inl x); ("teleportation"%string, inl x)], w) /\
    (forall name p, protocols name = Some p ->
       exists err,
         run_simulation (R := R) name k e true s w =
         (Some (Http400 err), w)).
Proof.
  intros Ne Rj. pose proof Rj as Rj'.
  apply custom_alice_key_rejects in Rj'. destruct Rj' as [x H].
  exists x. split; [exact H |]. split.
  - unfold compare_protocols. rewrite (truthy_nonempty s Ne).
    rewrite (compare_loop_rejected _ _ _ _ _ _ Ne H). reflexivity.
  - intros name p Hp. apply (run_simulation_rejects name p k e s w Hp Ne).
    destruct Rj as [D | L]; [left | right; exact L].
    destruct (forallb Py.in_01 (list_ascii_of_string s)) eqn:B;
      [| reflexivity].
    rewrite (binary_digits _ B) in D. discriminate.
Qed.

Lemma comparison_reports_rejected_bits_witness :
  compare_protocols (R := float) 8 true true "01011" tapped_world =
  (Some [("bb84"%string, inl (Py.ValueError_custom_bits_too_short 8));
         ("e91"%string, inl (Py.ValueError_custom_bits_too_short 8));
         ("bbm92"%string, inl (Py.ValueError_custom_bits_too_short 8));
         ("teleportation"%string,
          inl (Py.ValueError_custom_bits_too_short 8))], tapped_world).
Proof.
  destruct (comparison_reports_rejected_bits float binary64 8 true "01011"
              tapped_world ltac:(discriminate))
    as (x & Hx & C & _).
  - right. simpl. lia.
  - vm_compute in Hx. inversion Hx; subst. exact C.
Defined.

Lemma compare_loop_errors {R : Type} {N : Number R} items k e cb :
  accepted cb k ->
  forall results w res w',
    compare_loop (R := R) items k e cb results w = (Some res, w') ->
    faithful (jobs w') ->
    forall n x, In (n, inl x) res -> In (n, inl x) results.
Proof.
  intros Acc.
  induction items as [| [n p] items IH]; intros results w res w' H F n' x Hx;
    simpl in H.
  - inversion H; subst. exact Hx.
  - destruct (generate_key p k e cb w) as [[kp | y |] w1] eqn:G;
      try discriminate.
    + specialize (IH _ _ _ _ H F _ _ Hx).
      apply in_app_or in IH. destruct IH as [IH | [IH | []]];
        [exact IH | inversion IH].
    + exfalso.
      apply (generate_key_safe p k e cb Acc w (Raise y) w1 G).
      eapply faithful_before; [| exact F].
      eapply compare_loop_after. exact H.
Qed.

(** X13.  If every backend answer is one the submitted circuit allows,
    an entry of [compare_protocols] is an error only when the custom
    bits were to be used and the engines reject them: there is no
    request for which some protocols are compared and others fail. *)
Theorem comparison_errors_come_from_validation (R : Type) (N : Number R)
  k e u s w res w' n x :
  compare_protocols (R := R) k e u s w = (Some res, w') ->
  faithful (jobs w') ->
  In (n, inl x) res ->
  u = true /\ s <> EmptyString /\ custom_alice_key s k = inl x /\
  w' = w /\ forall n' entry, In (n', entry) res -> entry = inl x.
Proof.
  unfold compare_protocols. intros H F Hx.
  destruct (if u then Py.truthy (Some s) else None) as [s' |] eqn:T.
  - assert (U : u = true /\ s' = s /\ s <> EmptyString).
    { destruct u; [| discriminate]. apply truthy_Some in T.
      destruct T as [E Ne]. inversion E; subst. auto. }
    destruct U as (-> & -> & Ne).
    destruct (custom_alice_key s k) as [y | ak] eqn:E.
    + rewrite (compare_loop_rejected _ _ _ _ _ _ Ne E) in H.
      inversion H; subst. clear H.
      assert (All : forall n' entry,
                 In (n', entry)
                   ([] ++ map (fun item : string * Protocol =>
                                 (fst item, inl y)) protocols_items) ->
                 entry = @inl Py.exn (Comparison R) y).
      { intros n' entry Hin. simpl in Hin.
        destruct Hin as [Hin | [Hin | [Hin | [Hin | []]]]];
          inversion Hin; reflexivity. }
      pose proof (All _ _ Hx) as Ex. inversion Ex; subst.
      repeat split; try assumption; reflexivity.
    + exfalso.
      assert (Acc : accepted (Some s) k)
        by (unfold accepted; rewrite (truthy_nonempty s Ne); eauto).
      exact (compare_loop_errors _ _ _ _ Acc _ _ _ _ H F _ _ Hx).
  - exfalso.
    exact (compare_loop_errors _ _ _ None I _ _ _ _ H F _ _ Hx).
Qed.

Lemma comparison_errors_come_from_validation_witness :
  custom_alice_key "01011" 8 = inl (Py.ValueError_custom_bits_too_short 8).
Proof.
  refine (proj1 (proj2 (proj2
    (comparison_errors_come_from_validation float binary64 8 true true
       "01011" tapped_world
       [("bb84"%string, inl (Py.ValueError_custom_bits_too_short 8));
        ("e91"%string, inl (Py.ValueError_custom_bits_too_short 8));
        ("bbm92"%string, inl (Py.ValueError_custom_bits_too_short 8));
        ("teleportation"%string,
         inl (Py.ValueError_custom_bits_too_short 8))]
       tapped_world "e91"%string (Py.ValueError_custom_bits_too_short 8)
       _ _ _)))).
  - vm_compute; reflexivity.
  - constructor.
  - right; left; reflexivity.
Defined.

(** What [run_simulation] does once the request has passed its checks:
    the same call of the engine that [compare_protocols] makes. *)
Lemma run_simulation_passes {R : Type} {N : Number R} name p k e u s w :
  protocols name = Some p ->
  (u = false \/ s = EmptyString \/ ~ route_rejects s k) ->
  run_simulation (R := R) name k e u s w =
  match generate_key p k e
          (if u then Py.truthy (Some s) else None) w with
  | (Ok key_data, w') =>
      let metrics :=
        QKDProtocol.calculate_security_metrics
          (alice_key key_data) (bob_key key_data) e in
      (Some (Http200
         {| res_keys := key_data;
            res_key_length := Py.len (alice_key key_data);
            res_metrics := metrics;
            res_status :=
              if is_secure metrics
              then "Secure communication possible"
              else "Security compromised - abort key exchange" |}),
       w')
  | (Raise x, w') => (Some (Http500 x), w')
  | (Stuck, w') => (None, w')
  end.
Proof.
  intros Hp Ok. unfold run_simulation. rewrite Hp.
  destruct u; [| reflexivity].
  destruct s as [| c s]; [reflexivity |]. cbn [Py.truthy].
  destruct Ok as [Ok | [Ok | Ok]]; try discriminate.
  unfold route_rejects in Ok.
  destruct (forallb Py.in_01 (list_ascii_of_string (String c s)));
    [| exfalso; apply Ok; left; reflexivity].
  cbn [negb].
  destruct (Z.of_nat (String.length (String c s)) <? k) eqn:L;
    [| reflexivity].
  exfalso. apply Ok. right. apply Z.ltb_lt. exact L.
Qed.

Lemma compare_loop_simulate {R : Type} {N : Number R} items k e u s :
  (forall n p, In (n, p) items -> protocols n = Some p) ->
  (u = false \/ s = EmptyString \/ ~ route_rejects s k) ->
  forall results w,
    compare_loop (R := R) items k e
      (if u then Py.truthy (Some s) else None) results w =
    simulate_each (map fst items) k e u s results w.
Proof.
  intros Hi Ok. induction items as [| [n p] items IH]; intros results w;
    simpl; [reflexivity |].
  rewrite (run_simulation_passes n p k e u s w
             (Hi n p (or_introl eq_refl)) Ok).
  destruct (generate_key p k e _ w) as [[kp | x |] w1] eqn:G;
    cbv zeta; cbn [entry_of res_keys res_metrics res_key_length];
    try reflexivity.
  - apply generate_key_protocol_field in G. destruct G as [-> _].
    apply IH. intros n' p' Hin. apply Hi. right. exact Hin.
  - apply IH. intros n' p' Hin. apply Hi. right. exact Hin.
Qed.

(** X14.  For a request [run_simulation] would not answer with 400 (no
    custom bits to use, or custom bits over ['0'], ['1'] that are long
    enough), [compare_protocols] returns what four successive calls of
    [run_simulation] return, for ['bb84'], ['e91'], ['bbm92'] and
    ['teleportation'] in this order, each call starting with the
    generator and the backend as the call before left them: the same
    protocol name, metrics and key length, or the same exception. *)
Theorem comparison_is_four_simulations (R : Type) (N : Number R)
  k e u s w :
  (u = false \/ s = EmptyString \/ ~ route_rejects s k) ->
  compare_protocols (R := R) k e u s w =
  simulate_each ["bb84"; "e91"; "bbm92"; "teleportation"]%string
    k e u s [] w.
Proof.
  intros Ok. unfold compare_protocols.
  apply (compare_loop_simulate protocols_items k e u s); [| exact Ok].
  intros n p Hin. simpl in Hin.
  destruct Hin as [Hin | [Hin | [Hin | [Hin | []]]]]; inversion Hin;
    reflexivity.
Qed.

Lemma comparison_is_four_simulations_witness :
  compare_protocols (R := Q) 1 false false "" comparison_world =
  simulate_each ["bb84"; "e91"; "bbm92"; "teleportation"]%string
    1 false false "" [] comparison_world /\
  fst (compare_protocols (R := Q) 1 false false "" comparison_world) <> None.
Proof.
  split.
  - apply (comparison_is_four_simulations Q exact 1 false false ""
             comparison_world).
    left. reflexivity.
  - vm_compute. discriminate.
Defined.

(** *** The listing and the circuit route *)

Lemma protocols_Some name p :
  protocols name = Some p <-> In (name, p) protocols_items.
Proof.
  unfold protocols, protocols_items. split.
  - destruct (String.eqb name "bb84") eqn:E1;
      [apply String.eqb_eq in E1; intros H; inversion H; subst; simpl; auto |].
    destruct (String.eqb name "e91") eqn:E2;
      [apply String.eqb_eq in E2; intros H; inversion H; subst; simpl; auto |].
    destruct (String.eqb name "bbm92") eqn:E3;
      [apply String.eqb_eq in E3; intros H; inversion H; subst; simpl; auto |].
    destruct (String.eqb name "teleportation") eqn:E4;
      [apply String.eqb_eq in E4; intros H; inversion H; subst; simpl;
       auto 6 |].
    discriminate.
  - intros [H | [H | [H | [H | []]]]]; inversion H; reflexivity.
Qed.

(** X15.  [get_protocols] lists exactly the names [run_simulation] and
    [protocol_circuit] accept, names being case-sensitive, and the
    [name] it shows for a key is the [protocol] field of every 200
    response of [run_simulation] for that key. *)
Theorem listing_matches_the_routes :
  map fst get_protocols = ["bb84"; "e91"; "bbm92"; "teleportation"]%string /\
  (forall name,
      In name (map fst get_protocols) <-> protocols name <> None) /\
  (forall name k,
      In name (map fst get_protocols) <->
      protocol_circuit name k <> Circuit400) /\
  (forall (R : Type) (N : Number R) name k e u s w,
      In name (map fst get_protocols) <->
      run_simulation (R := R) name k e u s w <>
      (Some (Http400 Invalid_protocol), w)) /\
  (forall (R : Type) (N : Number R) name k e u s w r w',
      run_simulation (R := R) name k e u s w = (Some (Http200 r), w') ->
      exists description,
        In (name, (protocol (res_keys r), description)) get_protocols) /\
  protocols "BB84" = None.
Proof.
  assert (L : forall name,
             In name (map fst get_protocols) <-> protocols name <> None).
  { intros name. unfold get_protocols. rewrite map_map. simpl. split.
    - intros [<- | [<- | [<- | [<- | []]]]]; discriminate.
    - intros H. destruct (protocols name) as [p |] eqn:E; [| contradiction].
      apply protocols_Some in E. simpl in E.
      destruct E as [E | [E | [E | [E | []]]]]; inversion E; auto 6. }
  split; [reflexivity |]. split; [exact L |]. split; [| split; [| split]].
  - intros name k. rewrite L. unfold protocol_circuit.
    destruct (protocols name) as [p |]; [| tauto].
    split; [| discriminate].
    intros _. destruct (QKDProtocol.get_circuit_text p k); discriminate.
  - intros R N name k e u s w. rewrite L, invalid_protocol_iff.
    reflexivity.
  - intros R N name k e u s w r w' H.
    unfold run_simulation in H.
    destruct (protocols name) as [p |] eqn:Hp; [| discriminate].
    exists (QKDProtocol.description p).
    assert (G : exists cb w0,
               generate_key p k e cb w0 = (Ok (res_keys r), w')).
    { destruct (if u then Py.truthy (Some s) else None) as [s' |].
      - destruct (negb _); [discriminate |].
        destruct (_ <? _); [discriminate |].
        destruct (generate_key p k e (Some s') w) as [[kp | x |] w1] eqn:G;
          inversion H; subst. eauto.
      - destruct (generate_key p k e None w) as [[kp | x |] w1] eqn:G;
          inversion H; subst. eauto. }
    destruct G as (cb & w0 & G).
    apply generate_key_protocol_field in G. destruct G as [-> _].
    apply protocols_Some in Hp. unfold get_protocols.
    apply in_map_iff. exists (name, p). split; [reflexivity | exact Hp].
  - reflexivity.
Qed.

Lemma build_loop_data l qc :
  let qc' :=
    fold_left
      (fun qc i =>
         if (i mod 2 =? 0)%nat then Qiskit.measure i i qc
         else Qiskit.measure i i (Qiskit.h i qc)) l qc in
  Qiskit.data qc' = Qiskit.data qc ++ flat_map bb84_gates l /\
  Qiskit.num_qubits qc' = Qiskit.num_qubits qc /\
  Qiskit.cregs qc' = Qiskit.cregs qc.
Proof.
  cbv zeta. revert qc.
  induction l as [| i l IH]; intros qc; cbn [fold_left flat_map].
  - rewrite app_nil_r. auto.
  - destruct (IH (if (i mod 2 =? 0)%nat then Qiskit.measure i i qc
                  else Qiskit.measure i i (Qiskit.h i qc)))
      as (D & Q & C).
    rewrite D, Q, C. unfold bb84_gates.
    destruct (i mod 2 =? 0)%nat; cbn; rewrite <- ?app_assoc; auto.
Qed.

Lemma bb84_gates_length l :
  (forall i, In i l -> True) ->
  List.length (flat_map bb84_gates l) =
  (List.length l + List.length (filter (fun i => negb (i mod 2 =? 0)%nat) l))%nat.
Proof.
  intros _. induction l as [| i l IH]; [reflexivity |].
  cbn [flat_map filter List.length]. rewrite length_app, IH.
  unfold bb84_gates.
  destruct (i mod 2 =? 0)%nat; cbn [negb List.length]; lia.
Qed.

Lemma odd_below n :
  List.length (filter (fun i => negb (i mod 2 =? 0)%nat) (seq 0 n)) =
  (n / 2)%nat.
Proof.
  induction n as [| n IH]; [reflexivity |].
  rewrite seq_S, filter_app, length_app, IH.
  cbn [Nat.add filter].
  destruct (n mod 2 =? 0)%nat eqn:E; cbn [negb List.length].
  - apply Nat.eqb_eq in E.
    pose proof (Nat.div_mod_eq n 2). pose proof (Nat.div_mod_eq (S n) 2).
    pose proof (Nat.mod_upper_bound (S n) 2). lia.
  - apply Nat.eqb_neq in E.
    pose proof (Nat.div_mod_eq n 2). pose proof (Nat.div_mod_eq (S n) 2).
    pose proof (Nat.mod_upper_bound n 2). pose proof (Nat.mod_upper_bound (S n) 2).
    lia.
Qed.

(** X16.  For [key_length >= 0] BB84's [build_circuit] returns a circuit
    of [key_length] qubits and as many classical bits in which every
    qubit is measured exactly once, into the classical bit of its own
    index, qubits being handled in increasing order; a Hadamard gate is
    applied to a qubit, right before its measurement, exactly when its
    index is odd; there are no other instructions, so the circuit has
    [key_length + key_length // 2] of them.  A negative [key_length] is
    refused by the circuit constructor. *)
Theorem bb84_circuit_measures_every_qubit k :
  (0 <= k ->
   exists qc,
     BB84Protocol.build_circuit k = inr qc /\
     Qiskit.num_qubits qc = Z.to_nat k /\
     Qiskit.num_clbits qc = Z.to_nat k /\
     Qiskit.data qc = flat_map bb84_gates (seq 0 (Z.to_nat k)) /\
     List.length (Qiskit.data qc) = (Z.to_nat k + Z.to_nat k / 2)%nat /\
     (forall q c, In (Qiskit.Measure q c) (Qiskit.data qc) <->
                  c = q /\ (q < Z.to_nat k)%nat) /\
     (forall q, In (Qiskit.HGate q) (Qiskit.data qc) <->
                (q < Z.to_nat k)%nat /\ (q mod 2 = 1)%nat) /\
     NoDup (Qiskit.data qc) /\
     (forall i, In i (Qiskit.data qc) ->
        exists q, i = Qiskit.Measure q q \/ i = Qiskit.HGate q)) /\
  (k < 0 ->
   BB84Protocol.build_circuit k = inl (Qiskit.Register_size_negative k)).
Proof.
  unfold BB84Protocol.build_circuit, Qiskit.QuantumCircuit_of. cbv zeta.
  split.
  2:{ intros H. replace (k <? 0) with true by (symmetry; apply Z.ltb_lt; lia).
      reflexivity. }
  intros H. replace (k <? 0) with false by (symmetry; apply Z.ltb_ge; lia).
  eexists. split; [reflexivity |].
  match goal with |- context [fold_left ?f ?l ?q] =>
    destruct (build_loop_data l q) as (D & Q & C) end.
  cbv zeta in D, Q, C. unfold range in *.
  cbn [Qiskit.data Qiskit.num_qubits Qiskit.cregs app] in D, Q, C.
  set (n := Z.to_nat k) in *.
  assert (In_gates : forall i, In i (flat_map bb84_gates (seq 0 n)) <->
            exists q, (q < n)%nat /\
              (i = Qiskit.Measure q q \/
               (i = Qiskit.HGate q /\ (q mod 2 = 1)%nat))).
  { intros i. rewrite in_flat_map. split.
    - intros (q & Hq & Hi). apply in_seq in Hq. exists q. split; [lia |].
      unfold bb84_gates in Hi. destruct (q mod 2 =? 0)%nat eqn:E.
      + destruct Hi as [<- | []]. left. reflexivity.
      + apply Nat.eqb_neq in E. pose proof (Nat.mod_upper_bound q 2).
        destruct Hi as [<- | [<- | []]]; [right | left; reflexivity].
        split; [reflexivity | lia].
    - intros (q & Hq & Hi). exists q. split; [apply in_seq; lia |].
      unfold bb84_gates. destruct (q mod 2 =? 0)%nat eqn:E.
      + apply Nat.eqb_eq in E. destruct Hi as [-> | [-> Ho]];
          [left; reflexivity | lia].
      + destruct Hi as [-> | [-> Ho]]; simpl; auto. }
  rewrite D. split; [exact Q |]. split.
  { unfold Qiskit.num_clbits. rewrite C.
    destruct (k =? 0) eqn:E; simpl; [| lia].
    apply Z.eqb_eq in E. subst n. rewrite E. reflexivity. }
  split; [reflexivity |]. split.
  { rewrite bb84_gates_length by auto. rewrite length_seq, odd_below.
    reflexivity. }
  split; [| split; [| split]].
  - intros q c. rewrite In_gates. split.
    + intros (q' & Hq & [E | [E _]]); inversion E; subst. auto.
    + intros [-> Hq]. exists q. auto.
  - intros q. rewrite In_gates. split.
    + intros (q' & Hq & [E | [E Ho]]); inversion E; subst. auto.
    + intros [Hq Ho]. exists q. auto.
  - assert (G : forall s m,
               NoDup (flat_map bb84_gates (seq s m)) /\
               forall i, In i (flat_map bb84_gates (seq s m)) ->
                 exists q, (s <= q)%nat /\
                   (i = Qiskit.Measure q q \/ i = Qiskit.HGate q)).
    { intros s m. revert s. induction m as [| m IH]; intros s; simpl.
      - split; [constructor | intros i []].
      - destruct (IH (S s)) as [ND Inn]. split.
        + unfold bb84_gates at 1. destruct (s mod 2 =? 0)%nat; simpl.
          * constructor; [| exact ND]. intros Hin. apply Inn in Hin.
            destruct Hin as (q & Hq & [E | E]); inversion E; lia.
          * constructor.
            { intros [E | Hin]; [discriminate |]. apply Inn in Hin.
              destruct Hin as (q & Hq & [E | E]); inversion E; lia. }
            constructor; [| exact ND]. intros Hin. apply Inn in Hin.
            destruct Hin as (q & Hq & [E | E]); inversion E; lia.
        + intros i Hi. apply in_app_or in Hi. destruct Hi as [Hi | Hi].
          * exists s. split; [lia |]. unfold bb84_gates in Hi.
            destruct (s mod 2 =? 0)%nat; simpl in Hi;
              intuition (subst; auto).
          * apply Inn in Hi. destruct Hi as (q & Hq & E).
            exists q. split; [lia | exact E]. }
    apply G.
  - intros i Hi. apply In_gates in Hi.
    destruct Hi as (q & _ & [E | [E _]]); exists q; auto.
Qed.

Lemma bb84_circuit_measures_every_qubit_witness :
  BB84Protocol.build_circuit 4 =
  inr {| Qiskit.num_qubits := 4; Qiskit.cregs := [4%nat];
         Qiskit.data := [Qiskit.Measure 0 0;
                         Qiskit.HGate 1; Qiskit.Measure 1 1;
                         Qiskit.Measure 2 2;
                         Qiskit.HGate 3; Qiskit.Measure 3 3] |} /\
  BB84Protocol.build_circuit (-1) = inl (Qiskit.Register_size_negative (-1)).
Proof.
  destruct (bb84_circuit_measures_every_qubit 4) as [P _].
  destruct (bb84_circuit_measures_every_qubit (-1)) as [_ Ng].
  split; [| apply Ng; lia].
  destruct P as (qc & E & _); [lia |].
  rewrite E. vm_compute in E. inversion E. reflexivity.
Defined.

(** X17.  [protocol_circuit] serves BB84 only.  For ['e91'], ['bbm92']
    and ['teleportation'], which [get_protocols] lists as available, it
    answers 500 for every [key_length]: these engines do not override
    [build_circuit], and the base method does not take the [key_length]
    that [get_circuit_text] passes.  For ['bb84'] it answers 200 with
    the protocol name ['BB84'], the drawing of BB84's circuit and the
    [key_length] it was given when [key_length >= 0], and 500 when
    [key_length] is negative. *)
Theorem circuit_route_serves_bb84_only name k :
  (In name (map fst get_protocols) -> name <> "bb84"%string ->
   protocol_circuit name k =
   Circuit500 (QKDProtocol.TypeError_positional_arguments 1 2)) /\
  (name = "bb84"%string -> 0 <= k ->
   exists qc,
     BB84Protocol.build_circuit k = inr qc /\
     protocol_circuit name k =
     Circuit200 "BB84" (QKDProtocol.text_of qc) k) /\
  (name = "bb84"%string -> k < 0 ->
   protocol_circuit name k =
   Circuit500 (QKDProtocol.Circuit_refused
                 (Qiskit.Register_size_negative k))).
Proof.
  split; [| split].
  - intros Hin Hn. unfold get_protocols in Hin. rewrite map_map in Hin.
    simpl in Hin.
    destruct Hin as [<- | [<- | [<- | [<- | []]]]];
      try reflexivity. contradiction.
  - intros -> Hk.
    unfold protocol_circuit, QKDProtocol.get_circuit_text,
      QKDProtocol.build_circuit. simpl protocols. cbv iota.
    unfold BB84Protocol.build_circuit, Qiskit.QuantumCircuit_of. cbv zeta.
    replace (k <? 0) with false by (symmetry; apply Z.ltb_ge; lia).
    eexists. split; reflexivity.
  - intros -> Hk.
    unfold protocol_circuit, QKDProtocol.get_circuit_text,
      QKDProtocol.build_circuit. simpl protocols. cbv iota.
    unfold BB84Protocol.build_circuit, Qiskit.QuantumCircuit_of. cbv zeta.
    replace (k <? 0) with true by (symmetry; apply Z.ltb_lt; lia).
    reflexivity.
Qed.

Lemma circuit_route_serves_bb84_only_witness :
  protocol_circuit "e91" 4 =
  Circuit500 (QKDProtocol.TypeError_positional_arguments 1 2) /\
  (exists qc, protocol_circuit "bb84" 4 =
              Circuit200 "BB84" (QKDProtocol.text_of qc) 4) /\
  protocol_circuit "bb84" (-1) =
  Circuit500 (QKDProtocol.Circuit_refused (Qiskit.Register_size_negative (-1))).
Proof.
  split; [| split].
  - apply (proj1 (circuit_route_serves_bb84_only "e91" 4)).
    + right; left; reflexivity.
    + discriminate.
  - destruct (proj1 (proj2 (circuit_route_serves_bb84_only "bb84" 4))
                eq_refl ltac:(lia)) as (qc & _ & H).
    exists qc. exact H.
  - apply (proj2 (proj2 (circuit_route_serves_bb84_only "bb84" (-1))));
      [reflexivity | lia].
Defined.

(** *** The eavesdropper of BB84 *)

Lemma transmit_intercepted bit ab bb u eve m1 m2 ent sh js :
  Qltb (random_value u) (3 # 10) = true ->
  BB84Protocol.transmit true bit ab bb
    {| entropy := u :: eve :: ent; shots := m1 :: m2 :: sh; jobs := js |} =
  match Py.int (Qiskit.memory_string m1) with
  | inr eve_result =>
      match Py.int (Qiskit.memory_string m2) with
      | inr r =>
          (Ok r,
           {| entropy := ent; shots := sh;
              jobs := js ++ [(eve_circuit bit ab (eve mod 2), m1);
                             (resent_circuit eve_result (eve mod 2) bb, m2)] |})
      | inl x =>
          (Raise x,
           {| entropy := ent; shots := sh;
              jobs := js ++ [(eve_circuit bit ab (eve mod 2), m1);
                             (resent_circuit eve_result (eve mod 2) bb, m2)] |})
      end
  | inl x =>
      (Raise x,
       {| entropy := ent; shots := m2 :: sh;
          jobs := js ++ [(eve_circuit bit ab (eve mod 2), m1)] |})
  end.
Proof.
  intros Hi.
  unfold BB84Protocol.transmit, eve_acts, Random.random, Random.randint,
    Random.word, Backend.run, bind, ret, lift.
  cbn [entropy shots jobs]. fold (random_value u). rewrite Hi.
  cbn [entropy shots jobs].
  destruct (Py.int (Qiskit.memory_string m1)) as [x | eve_result];
    [reflexivity |].
  cbn [entropy shots jobs].
  destruct (Py.int (Qiskit.memory_string m2)) as [x | r];
    rewrite <- app_assoc; reflexivity.
Qed.

Lemma int_memory_bit b :
  Py.int (Qiskit.memory_string [[b]]) = inr (bit_value b).
Proof. destruct b; reflexivity. Qed.

(** X18.  An eavesdropper who measures in Alice's basis leaves no
    trace.  In a BB84 round where Eve intercepts ([random.random() <
    0.3]), draws Alice's basis, and Bob measures in that basis too, Bob
    reads Alice's bit, whatever the backend answers within what the
    two circuits allow. *)
Theorem interception_in_alices_basis_is_invisible
  bit basis u eve rest sh js r w' :
  is_bit bit -> is_bit basis ->
  Qltb (random_value u) (3 # 10) = true ->
  eve mod 2 = basis ->
  BB84Protocol.transmit true bit basis basis
    {| entropy := u :: eve :: rest; shots := sh; jobs := js |} = (Ok r, w') ->
  faithful (jobs w') ->
  r = bit.
Proof.
  intros Hbit Hbasis Hi He H F.
  destruct sh as [| m1 [| m2 sh]].
  - apply (f_equal fst) in H. revert H.
    unfold BB84Protocol.transmit, eve_acts, Random.random, Random.randint,
      Random.word, Backend.run, bind, ret, lift.
    cbn [entropy shots jobs]. fold (random_value u). rewrite Hi.
    cbn [entropy shots jobs fst]. discriminate.
  - apply (f_equal fst) in H. revert H.
    unfold BB84Protocol.transmit, eve_acts, Random.random, Random.randint,
      Random.word, Backend.run, bind, ret, lift.
    cbn [entropy shots jobs]. fold (random_value u). rewrite Hi.
    cbn [entropy shots jobs fst].
    destruct (Py.int (Qiskit.memory_string m1)); cbn [fst]; discriminate.
  - rewrite (transmit_intercepted _ _ _ _ _ _ _ _ _ _ Hi), He in H.
    destruct (Py.int (Qiskit.memory_string m1)) as [x | eve_result] eqn:E1;
      [discriminate |].
    destruct (Py.int (Qiskit.memory_string m2)) as [x | r'] eqn:E2;
      [discriminate |].
    inversion H; subst. clear H. simpl in F.
    unfold faithful in F. apply Forall_app in F. destruct F as [_ F].
    inversion F as [| ? ? A1 F2]; subst. inversion F2 as [| ? ? A2 _]; subst.
    simpl in A1, A2. apply allowed_In in A1.
    assert (M1 : m1 = [[bit =? 1]]).
    { destruct Hbit as [-> | ->]; destruct Hbasis as [Hb | Hb]; rewrite Hb in *;
        vm_compute in A1; destruct A1 as [<- | []]; reflexivity. }
    subst m1. rewrite int_memory_bit in E1. inversion E1; subst. clear E1.
    apply allowed_In in A2.
    assert (M2 : m2 = [[bit =? 1]]).
    { destruct Hbit as [-> | ->]; destruct Hbasis as [Hb | Hb]; rewrite Hb in *;
        vm_compute in A2; destruct A2 as [<- | []]; reflexivity. }
    subst m2. rewrite int_memory_bit in E2. inversion E2; subst.
    destruct Hbit as [-> | ->]; reflexivity.
Qed.

Lemma interception_in_alices_basis_is_invisible_witness :
  fst (BB84Protocol.transmit true 1 0 0
         {| entropy := [0; 0]; shots := [ [[true]]; [[true]] ]; jobs := [] |})
  = Ok 1.
Proof.
  destruct (BB84Protocol.transmit true 1 0 0
              {| entropy := [0; 0]; shots := [ [[true]]; [[true]] ];
                 jobs := [] |}) as [[r | x |] w'] eqn:E;
    try (vm_compute in E; discriminate).
  simpl. f_equal.
  apply (interception_in_alices_basis_is_invisible 1 0 0 0 []
           [ [[true]]; [[true]] ] [] r w').
  - right; reflexivity.
  - left; reflexivity.
  - reflexivity.
  - reflexivity.
  - exact E.
  - vm_compute in E. inversion E; subst.
    apply faithful_check. vm_compute. reflexivity.
Defined.

(** X19.  An eavesdropper who measures in the other basis can be
    noticed.  In a BB84 round where Eve intercepts and draws the basis
    Alice did not use, while Bob measures in Alice's basis, both values
    of Bob's bit occur with answers the two circuits allow: in
    particular Bob can read the complement of Alice's bit although the
    bases match. *)
Theorem interception_in_the_other_basis_shows bit basis u eve r :
  is_bit bit -> is_bit basis ->
  Qltb (random_value u) (3 # 10) = true ->
  eve mod 2 = 1 - basis ->
  is_bit r ->
  exists m1 m2 qc1 qc2,
    Qiskit.allowed qc1 m1 = true /\ Qiskit.allowed qc2 m2 = true /\
    drives (BB84Protocol.transmit true bit basis basis) [u; eve] [m1; m2] r
      [(qc1, m1); (qc2, m2)].
Proof.
  intros Hbit Hbasis Hi He Hr.
  exists [[false]], [[r =? 1]],
    (eve_circuit bit basis (1 - basis)), (resent_circuit 0 (1 - basis) basis).
  split; [| split].
  - destruct Hbit as [-> | ->]; destruct Hbasis as [-> | ->];
      vm_compute; reflexivity.
  - destruct Hr as [-> | ->]; destruct Hbasis as [-> | ->];
      vm_compute; reflexivity.
  - intros ent' sh' js. cbn [app].
    rewrite (transmit_intercepted _ _ _ _ _ _ _ _ _ _ Hi), He.
    rewrite !int_memory_bit. cbn [bit_value].
    destruct Hr as [-> | ->]; reflexivity.
Qed.

Lemma interception_in_the_other_basis_shows_witness :
  exists m1 m2 qc1 qc2,
    Qiskit.allowed qc1 m1 = true /\ Qiskit.allowed qc2 m2 = true /\
    drives (BB84Protocol.transmit true 1 0 0) [0; 1] [m1; m2] 0
      [(qc1, m1); (qc2, m2)].
Proof.
  apply (interception_in_the_other_basis_shows 1 0 0 1 0).
  - right; reflexivity.
  - left; reflexivity.
  - reflexivity.
  - reflexivity.
  - left; reflexivity.
Defined.

(** *** What a run consumes *)

Lemma word_uses w n w' :
  Random.word w = (Ok n, w') ->
  entropy w = n :: entropy w' /\ shots w' = shots w /\ jobs w' = jobs w.
Proof.
  unfold Random.word. destruct (entropy w) as [| m rest]; intros H;
    inversion H; subst. simpl. auto.
Qed.

Lemma randint_uses a b w v w' :
  Random.randint a b w = (Ok v, w') ->
  List.length (entropy w) = S (List.length (entropy w')) /\
  shots w' = shots w /\ jobs w' = jobs w.
Proof.
  unfold Random.randint. intros H. runs.
  match goal with G : Random.word _ = _ |- _ =>
    apply word_uses in G; destruct G as (E & S & J) end.
  rewrite E. simpl. auto.
Qed.

Lemma random_uses w v w' :
  Random.random w = (Ok v, w') ->
  List.length (entropy w) = S (List.length (entropy w')) /\
  shots w' = shots w /\ jobs w' = jobs w.
Proof.
  unfold Random.random. intros H. runs.
  match goal with G : Random.word _ = _ |- _ =>
    apply word_uses in G; destruct G as (E & S & J) end.
  rewrite E. simpl. auto.
Qed.

Lemma run_uses qc w s w' :
  Backend.run qc w = (Ok s, w') ->
  entropy w' = entropy w /\
  List.length (shots w) = S (List.length (shots w')) /\
  List.length (jobs w') = S (List.length (jobs w)).
Proof.
  intros H. apply run_Ok in H. destruct H as (m & _ & S & E & J).
  rewrite S, J, length_app. simpl. split; [exact E | lia].
Qed.

(** Inversion of a completed run through the branches taken. *)
Ltac runs_branching :=
  repeat (runs;
          try match goal with
            | H : (if ?b then _ else _) _ = (Ok _, _) |- _ => destruct b
            end).

Ltac uses :=
  repeat match goal with
    | G : Random.randint _ _ _ = (Ok _, _) |- _ =>
        apply randint_uses in G; destruct G as (? & ? & ?)
    | G : Random.random _ = (Ok _, _) |- _ =>
        apply random_uses in G; destruct G as (? & ? & ?)
    | G : Backend.run _ _ = (Ok _, _) |- _ =>
        apply run_uses in G; destruct G as (? & ? & ?)
    end.

Ltac lengths :=
  repeat match goal with
    | H : entropy _ = entropy _ |- _ =>
        apply (f_equal (@List.length Z)) in H
    | H : shots _ = shots _ |- _ =>
        apply (f_equal (@List.length Qiskit.Memory)) in H
    | H : jobs _ = jobs _ |- _ =>
        apply (f_equal
                 (@List.length (Qiskit.QuantumCircuit * Qiskit.Memory))) in H
    end.

Lemma teleport_uses e s w b w' :
  TeleportationQKD.teleport e s w = (Ok b, w') ->
  List.length (jobs w') = (2 + List.length (jobs w))%nat /\
  List.length (shots w) = (2 + List.length (shots w'))%nat /\
  (List.length (entropy w') <= List.length (entropy w))%nat /\
  (e = false -> entropy w' = entropy w).
Proof.
  intros H. unfold TeleportationQKD.teleport, eve_acts in H.
  destruct e; runs_branching; uses;
    repeat split; try congruence; try discriminate; lengths; lia.
Qed.

(** X20.  The Teleportation engine runs exactly two backend jobs for
    every key bit, [2 * key_length] in all, with or without an
    eavesdropper; without one it draws one random number per bit in
    random mode and none at all in custom-bits mode, where the run is
    determined by the backend alone. *)
Theorem teleportation_runs_two_jobs_per_bit k e cb w kp w' :
  generate_key Teleportation k e cb w = (Ok kp, w') ->
  List.length (jobs w') = (List.length (jobs w) + 2 * Z.to_nat k)%nat /\
  List.length (shots w) = (List.length (shots w') + 2 * Z.to_nat k)%nat /\
  (e = false -> Py.truthy cb = None ->
   List.length (entropy w) = (List.length (entropy w') + Z.to_nat k)%nat) /\
  (e = false -> Py.truthy cb <> None -> entropy w' = entropy w).
Proof.
  intros H. simpl in H. unfold TeleportationQKD.generate_key in H.
  destruct (Py.truthy cb) as [s |].
  - runs.
    match goal with G : for_each _ _ _ _ = _ |- _ =>
      apply (for_each_inv
               (fun done (_ : list Z) w1 =>
                  List.length (jobs w1) =
                  (List.length (jobs w) + 2 * List.length done)%nat /\
                  List.length (shots w) =
                  (List.length (shots w1) + 2 * List.length done)%nat /\
                  (e = false -> entropy w1 = entropy w)))
        with (done := []) in G
    end.
    + simpl in *. unfold range in *. rewrite length_seq in *.
      intuition (try lia; try congruence).
    + intros done i bob w1 bob' w1' (I1 & I2 & I3) B.
      unfold TeleportationQKD.custom_round in B. runs.
      match goal with G : TeleportationQKD.teleport _ _ _ = _ |- _ =>
        apply teleport_uses in G; destruct G as (T1 & T2 & _ & T4) end.
      rewrite length_app. simpl. repeat split; try lia.
      intros E. rewrite (T4 E). apply I3. exact E.
    + simpl. repeat split; try lia.
  - runs.
    match goal with G : for_each _ _ _ _ = _ |- _ =>
      apply (for_each_inv
               (fun done (_ : list Z * list Z) w1 =>
                  List.length (jobs w1) =
                  (List.length (jobs w) + 2 * List.length done)%nat /\
                  List.length (shots w) =
                  (List.length (shots w1) + 2 * List.length done)%nat /\
                  (e = false ->
                   List.length (entropy w) =
                   (List.length (entropy w1) + List.length done)%nat)))
        with (done := []) in G
    end.
    + simpl in *. unfold range in *. rewrite length_seq in *.
      intuition (try lia; try congruence).
    + intros done i keys w1 keys' w1' (I1 & I2 & I3) B.
      unfold TeleportationQKD.random_round in B. runs.
      match goal with G : TeleportationQKD.teleport _ _ _ = _ |- _ =>
        apply teleport_uses in G; destruct G as (T1 & T2 & _ & T4) end.
      match goal with G : Random.randint _ _ _ = _ |- _ =>
        apply randint_uses in G; destruct G as (R1 & R2 & R3) end.
      rewrite length_app. simpl. rewrite R2, R3 in *.
      repeat split; try lia.
      intros E. rewrite (T4 E). specialize (I3 E). lia.
    + simpl. repeat split; try lia.
Qed.

Lemma teleportation_runs_two_jobs_per_bit_witness :
  let r := generate_key Teleportation 1 false (Some "0"%string)
             teleport_custom_world in
  List.length (jobs (snd r)) = 2%nat /\ entropy (snd r) = [].
Proof.
  destruct (teleportation_runs_two_jobs_per_bit 1 false (Some "0"%string)
              teleport_custom_world (mkKeyPair [0] [1] "Teleportation QKD" false)
              (snd (generate_key Teleportation 1 false (Some "0"%string)
                      teleport_custom_world)))
    as (J & _ & _ & E).
  - vm_compute; reflexivity.
  - split; [exact J |]. apply E; [reflexivity | discriminate].
Defined.

Lemma bb84_transmit_spent e a ab bb w r w' :
  BB84Protocol.transmit e a ab bb w = (Ok r, w') -> spent 0 e w w'.
Proof.
  intros H. unfold BB84Protocol.transmit, eve_acts in H.
  destruct e; runs_branching; uses;
    repeat split; try congruence; try discriminate; lengths; lia.
Qed.

Lemma e91_exchange_spent e w r w' :
  E91Protocol.exchange e w = (Ok r, w') -> spent 2 e w w'.
Proof.
  intros H. unfold E91Protocol.exchange, eve_acts in H.
  destruct e; runs_branching; uses;
    repeat split; try congruence; try discriminate; lengths; lia.
Qed.

Lemma choice_uses {A : Type} (l : list A) w v w' :
  Random.choice l w = (Ok v, w') ->
  List.length (entropy w) = S (List.length (entropy w')) /\
  shots w' = shots w /\ jobs w' = jobs w.
Proof.
  unfold Random.choice. intros H. runs.
  match goal with G : Random.word _ = _ |- _ =>
    apply word_uses in G; destruct G as (E & S & J) end.
  rewrite E. simpl. auto.
Qed.

Lemma bbm92_exchange_spent e w r w' :
  BBM92Protocol.exchange e w = (Ok r, w') -> spent 2 e w w'.
Proof.
  intros H. unfold BBM92Protocol.exchange, eve_acts in H.
  destruct e; runs_branching;
    repeat match goal with
      | G : Random.choice _ _ = (Ok _, _) |- _ =>
          apply choice_uses in G; destruct G as (? & ? & ?)
      end; uses;
    repeat split; try congruence; try discriminate; lengths; lia.
Qed.

Lemma cost_loop {St : Type} (key : St -> list Z) c e (cond : St -> bool)
  (body : St -> M St) s0 w0 s' w' :
  (forall s w s1 w1,
      body s w = (Ok s1, w1) ->
      spent c e w w1 /\
      (List.length (key s1) <= S (List.length (key s)))%nat) ->
  key s0 = [] ->
  while cond body s0 w0 = (Ok s', w') ->
  (List.length (jobs w0) + List.length (key s') <= List.length (jobs w'))%nat /\
  (List.length (entropy w') <= List.length (entropy w0))%nat /\
  (e = false ->
   (List.length (entropy w0) + c * List.length (jobs w0) =
    List.length (entropy w') + c * List.length (jobs w'))%nat) /\
  cond s' = false.
Proof.
  intros Hb K0 H.
  apply (while_inv
           (fun s w =>
              (List.length (jobs w0) + List.length (key s)
               <= List.length (jobs w))%nat /\
              (List.length (entropy w) <= List.length (entropy w0))%nat /\
              (e = false ->
               (List.length (entropy w0) + c * List.length (jobs w0) =
                List.length (entropy w) + c * List.length (jobs w))%nat)))
    in H.
  - destruct H as [(I1 & I2 & I3) C]. auto.
  - intros s w s1 w1 _ (I1 & I2 & I3) B.
    destruct (Hb _ _ _ _ B) as [(S1 & S2 & S3) L].
    split; [lia |]. split; [lia |].
    intros E. specialize (I3 E). destruct (S3 E) as [J1 J2].
    rewrite J1. lia.
  - rewrite K0. simpl. split; [lia |]. split; [lia |]. intros _. lia.
Qed.

Lemma sifted_length {B : Type} (r : Round B) st st' :
  sifted r st st' ->
  (List.length (sift_bob_key st') <= S (List.length (sift_bob_key st)))%nat.
Proof.
  intros [[_ [b ->]] | [_ ->]]; simpl; [rewrite length_app; simpl |]; lia.
Qed.

Lemma grown_length keys keys' :
  grown keys keys' ->
  (List.length (fst keys') <= S (List.length (fst keys)))%nat.
Proof.
  intros [-> | (a & b & ->)]; simpl; [| rewrite length_app; simpl]; lia.
Qed.

Lemma spent_after_draws c e w w1 w2 n :
  List.length (entropy w) = (n + List.length (entropy w1))%nat ->
  jobs w1 = jobs w ->
  spent c e w1 w2 -> spent (n + c) e w w2.
Proof.
  intros E J (S1 & S2 & S3). unfold spent. rewrite <- J.
  split; [exact S1 |]. split; [lia |].
  intros Ef. destruct (S3 Ef) as [J1 J2]. split; [exact J1 | lia].
Qed.

Lemma spent_then_same c e w w1 w2 :
  spent c e w w1 -> entropy w2 = entropy w1 -> jobs w2 = jobs w1 ->
  spent c e w w2.
Proof. unfold spent. intros S E J. rewrite E, J. exact S. Qed.

Lemma bb84_custom_body_cost e ak st w st' w' :
  (r <- BB84Protocol.custom_attempt e ak st ;; ret (snd r)) w = (Ok st', w') ->
  spent 2 e w w' /\
  (List.length (sift_bob_key st') <= S (List.length (sift_bob_key st)))%nat.
Proof.
  intros H. runs.
  match goal with G : BB84Protocol.custom_attempt _ _ _ _ = (Ok ?x, _) |- _ =>
    destruct x as [r s1]; pose proof (bb84_custom_attempt_Ok _ _ _ _ _ _ _ G)
      as [_ Sf]; unfold BB84Protocol.custom_attempt in G end.
  split; [| eapply sifted_length; exact Sf].
  runs.
  match goal with G : BB84Protocol.transmit _ _ _ _ _ = _ |- _ =>
    apply bb84_transmit_spent in G end.
  uses. eapply (spent_after_draws 0 e _ _ _ 2); [| | eassumption];
    first [congruence | lengths; lia].
Qed.

Lemma bb84_random_attempt_cost e keys w keys' w' :
  BB84Protocol.random_attempt e keys w = (Ok keys', w') ->
  spent 3 e w w' /\
  (List.length (fst keys') <= S (List.length (fst keys)))%nat.
Proof.
  intros H.
  split; [| eapply grown_length; eapply bb84_random_attempt_Ok; exact H].
  unfold BB84Protocol.random_attempt in H. runs.
  match goal with G : BB84Protocol.transmit _ _ _ _ _ = _ |- _ =>
    apply bb84_transmit_spent in G end.
  uses. eapply (spent_after_draws 0 e _ _ _ 3); [| | eassumption];
    first [congruence | lengths; lia].
Qed.

Lemma e91_custom_body_cost e st w st' w' :
  (r <- E91Protocol.custom_attempt e st ;; ret (snd r)) w = (Ok st', w') ->
  spent 2 e w w' /\
  (List.length (sift_bob_key st') <= S (List.length (sift_bob_key st)))%nat.
Proof.
  intros H. runs.
  match goal with G : E91Protocol.custom_attempt _ _ _ = (Ok ?x, _) |- _ =>
    destruct x as [r s1]; pose proof (e91_custom_attempt_Ok _ _ _ _ _ _ G)
      as [_ Sf]; unfold E91Protocol.custom_attempt in G end.
  split; [| eapply sifted_length; exact Sf].
  run_inv H0.
  match goal with G : E91Protocol.exchange _ _ = (Ok ?x, _) |- _ =>
    destruct x as [[ab bb] ms]; apply e91_exchange_spent in G end.
  unfold E91Protocol.bob_bit_of in *.
  destruct (ab =? bb); runs; assumption.
Qed.

Lemma e91_random_attempt_cost e keys w keys' w' :
  E91Protocol.random_attempt e keys w = (Ok keys', w') ->
  spent 2 e w w' /\
  (List.length (fst keys') <= S (List.length (fst keys)))%nat.
Proof.
  intros H.
  split; [| eapply grown_length; eapply e91_random_attempt_Ok; exact H].
  unfold E91Protocol.random_attempt in H. run_inv H.
  match goal with G : E91Protocol.exchange _ _ = (Ok ?x, _) |- _ =>
    destruct x as [[ab bb] ms]; apply e91_exchange_spent in G end.
  unfold E91Protocol.bob_bit_of in *.
  destruct (ab =? bb); runs; assumption.
Qed.

Lemma bbm92_custom_body_cost e st w st' w' :
  (r <- BBM92Protocol.custom_attempt e st ;; ret (snd r)) w = (Ok st', w') ->
  spent 2 e w w' /\
  (List.length (sift_bob_key st') <= S (List.length (sift_bob_key st)))%nat.
Proof.
  intros H. runs.
  match goal with G : BBM92Protocol.custom_attempt _ _ _ = (Ok ?x, _) |- _ =>
    destruct x as [r s1]; pose proof (bbm92_custom_attempt_Ok _ _ _ _ _ _ G)
      as [_ Sf]; unfold BBM92Protocol.custom_attempt in G end.
  split; [| eapply sifted_length; exact Sf].
  run_inv H0.
  match goal with G : BBM92Protocol.exchange _ _ = (Ok ?x, _) |- _ =>
    destruct x as [[ab bb] ms]; apply bbm92_exchange_spent in G end.
  destruct (String.eqb ab bb); runs; assumption.
Qed.

Lemma bbm92_random_attempt_cost e keys w keys' w' :
  BBM92Protocol.random_attempt e keys w = (Ok keys', w') ->
  spent 2 e w w' /\
  (List.length (fst keys') <= S (List.length (fst keys)))%nat.
Proof.
  intros H.
  split; [| eapply grown_length; eapply bbm92_random_attempt_Ok; exact H].
  unfold BBM92Protocol.random_attempt in H. run_inv H.
  match goal with G : BBM92Protocol.exchange _ _ = (Ok ?x, _) |- _ =>
    destruct x as [[ab bb] ms]; apply bbm92_exchange_spent in G end.
  destruct (String.eqb ab bb); runs; assumption.
Qed.

(** X21.  BB84, E91 and BBM92 run at least [key_length] backend jobs,
    one for every round.  Without an eavesdropper the random numbers
    drawn are exactly two for every job (the two bases), and three in
    BB84's random mode (Alice's bit as well): the jobs beyond
    [key_length] are the rounds sifting discarded. *)
Theorem sifting_engines_cost p k e cb w kp w' :
  p <> Teleportation ->
  generate_key p k e cb w = (Ok kp, w') ->
  exists rounds draws,
    List.length (jobs w') = (List.length (jobs w) + rounds)%nat /\
    List.length (entropy w) = (List.length (entropy w') + draws)%nat /\
    (Z.to_nat k <= rounds)%nat /\
    (e = false -> draws = (draws_per_job p cb * rounds)%nat).
Proof.
  intros Hp H.
  assert (G : (List.length (jobs w) + Z.to_nat k <= List.length (jobs w'))%nat
              /\ (List.length (entropy w') <= List.length (entropy w))%nat /\
              (e = false ->
               (List.length (entropy w) +
                draws_per_job p cb * List.length (jobs w) =
                List.length (entropy w') +
                draws_per_job p cb * List.length (jobs w'))%nat)).
  { unfold draws_per_job.
    destruct p; [| | | contradiction]; simpl in H;
      [ unfold BB84Protocol.generate_key in H
      | unfold E91Protocol.generate_key in H
      | unfold BBM92Protocol.generate_key in H ];
      destruct (Py.truthy cb) as [s |]; runs;
      match goal with G : while _ _ _ _ = _ |- _ =>
        first
          [ apply (cost_loop sift_bob_key 2 e) in G;
            [| first [ apply bb84_custom_body_cost
                     | apply e91_custom_body_cost
                     | apply bbm92_custom_body_cost ] | reflexivity ]
          | apply (cost_loop fst 3 e) in G;
            [| apply bb84_random_attempt_cost | reflexivity ]
          | apply (cost_loop fst 2 e) in G;
            [| first [ apply e91_random_attempt_cost
                     | apply bbm92_random_attempt_cost ] | reflexivity ] ];
        destruct G as (G1 & G2 & G3 & C); apply Z.ltb_ge in C;
        unfold Py.len in C
      end;
      (split; [lia | split; [lia | exact G3]]). }
  destruct G as (G1 & G2 & G3).
  exists (List.length (jobs w') - List.length (jobs w))%nat,
         (List.length (entropy w) - List.length (entropy w'))%nat.
  split; [lia |]. split; [lia |]. split; [lia |].
  intros E. specialize (G3 E). nia.
Qed.

Lemma sifting_engines_cost_witness :
  let r := generate_key E91 2 false None e91_world in
  List.length (jobs (snd r)) = 3%nat /\
  List.length (entropy e91_world) = (List.length (entropy (snd r)) + 6)%nat.
Proof.
  destruct (sifting_engines_cost E91 2 false None e91_world
              (mkKeyPair [1; 0] [1; 0] "E91" false)
              (snd (generate_key E91 2 false None e91_world)))
    as (rounds & draws & J & E & K & D).
  - discriminate.
  - vm_compute; reflexivity.
  - assert (R : rounds = 3%nat) by (vm_compute in J; lia).
    specialize (D eq_refl). subst rounds.
    split; [vm_compute; reflexivity |].
    rewrite E, D. reflexivity.
Defined.

(** *** Rounds that sifting discards *)

Lemma drives_stall {S : Type} (cond : S -> bool) (body : S -> M S) s
  e1 s1 n1 ent sh r new :
  cond s = true -> e1 <> [] ->
  drives (body s) e1 s1 s n1 ->
  drives_loop cond body s ent sh r new ->
  drives_loop cond body s (e1 ++ ent) (s1 ++ sh) r (n1 ++ new).
Proof.
  intros C Ne D DL fuel Hf. destruct fuel as [| fuel]; [lia |].
  simpl. rewrite C. eapply drives_bind; [exact D |].
  apply DL. rewrite length_app in Hf.
  destruct e1; [contradiction | simpl in Hf; lia].
Qed.

(** A loop that can finish from [s], and has a pass that leaves [s] as
    it is, can also make any number of such passes first. *)
Lemma loop_can_run_long {S : Type} (cond : S -> bool) (body : S -> M S) s
  e1 s1 n1 (n : nat) :
  drives (body s) e1 s1 s n1 ->
  (exists ent sh r new,
      drives_loop cond body s ent sh r new /\ all_allowed new) ->
  cond s = true -> e1 <> [] -> n1 <> [] -> all_allowed n1 ->
  exists ent sh r new,
    drives_loop cond body s ent sh r new /\ all_allowed new /\
    (n <= List.length new)%nat.
Proof.
  intros D Fin C Ne Nn A1. induction n as [| n IH].
  - destruct Fin as (ent & sh & r & new & DL & A).
    exists ent, sh, r, new. repeat split; [exact DL | exact A | lia].
  - destruct IH as (ent & sh & r & new & DL & A & L).
    exists (e1 ++ ent), (s1 ++ sh), r, (n1 ++ new).
    split; [apply drives_stall; assumption |].
    split; [apply all_allowed_app; assumption |].
    rewrite length_app. destruct n1; [contradiction | simpl; lia].
Qed.

Lemma sifting_loop_can_finish (body : sift -> M sift) k st
  (circuit : Qiskit.QuantumCircuit) (m : Qiskit.Memory) e :
  (forall st, drives (body st) ([0; 0] ++ quiet e) [m]
                {| sift_bob_key := sift_bob_key st ++ [0];
                   bit_index := S (bit_index st) |} [(circuit, m)]) ->
  Qiskit.allowed circuit m = true ->
  exists ent sh r new,
    drives_loop (fun st => Py.len (sift_bob_key st) <? k) body st
      ent sh r new /\ all_allowed new.
Proof.
  intros D A.
  apply (loop_can_finish (fun st => Py.len (sift_bob_key st) <? k) body
           (fun _ => True) (fun st => to_go k (sift_bob_key st)));
    [| exact I].
  intros s _ C. eexists _, _, _, _.
  refine (conj _ (conj (D s) (conj _ (conj I _)))).
  - apply quiet_round_nonempty; discriminate.
  - unfold all_allowed; simpl; rewrite A; reflexivity.
  - simpl. apply to_go_app. exact C.
Qed.

Lemma growing_loop_can_finish
  (body : list Z * list Z -> M (list Z * list Z)) k
  keys (round : list Z) (sh1 : list Qiskit.Memory)
  (new1 : list (Qiskit.QuantumCircuit * Qiskit.Memory)) e :
  round <> [] ->
  (forall keys, drives (body keys) (round ++ quiet e) sh1
                  (fst keys ++ [0], snd keys ++ [0]) new1) ->
  all_allowed new1 ->
  exists ent sh r new,
    drives_loop (fun keys => Py.len (fst keys) <? k) body keys
      ent sh r new /\ all_allowed new.
Proof.
  intros Ne D A.
  apply (loop_can_finish (fun keys => Py.len (fst keys) <? k) body
           (fun _ => True) (fun keys => to_go k (fst keys)));
    [| exact I].
  intros s _ C. eexists _, _, _, _.
  refine (conj _ (conj (D s) (conj A (conj I _)))).
  - apply quiet_round_nonempty; exact Ne.
  - simpl. apply to_go_app. exact C.
Qed.

Lemma bb84_custom_loop_can_finish e ak k :
  (Py.len ak = k \/ k <= 0) ->
  exists ent sh r new,
    drives_loop (fun st => Py.len (sift_bob_key st) <? k)
      (fun st => r <- BB84Protocol.custom_attempt e ak st ;; ret (snd r))
      {| sift_bob_key := []; bit_index := 0 |}
      ent sh r new /\ all_allowed new.
Proof.
  intros Hk.
  apply (loop_can_finish (fun st => Py.len (sift_bob_key st) <? k)
           (fun st => r <- BB84Protocol.custom_attempt e ak st ;;
                      ret (snd r))
           (fun st => bit_index st = List.length (sift_bob_key st))
           (fun st => to_go k (sift_bob_key st)));
    [| reflexivity].
  intros s Is C.
  assert (Lt : (bit_index s < List.length ak)%nat).
  { apply Z.ltb_lt in C. unfold Py.len in *. lia. }
  destruct (nth_error ak (bit_index s)) as [b |] eqn:N;
    [| apply nth_error_None in N; lia].
  eexists _, _, _, _.
  refine (conj _ (conj (bb84_custom_body_drives e ak s b N)
                    (conj _ (conj _ _)))).
  - apply quiet_round_nonempty; discriminate.
  - unfold all_allowed; simpl; destruct (b =? 1); reflexivity.
  - simpl; rewrite length_app; simpl; lia.
  - simpl. apply to_go_app. exact C.
Qed.

Lemma first_pass_needed k : 1 <= k -> (Py.len (@nil Z) <? k) = true.
Proof. intros H. apply Z.ltb_lt. unfold Py.len. simpl. lia. Qed.

(** X22.  The sifting loops have no bound on their rounds.  For BB84,
    E91 and BBM92, any [key_length >= 1], with or without an
    eavesdropper, in random mode and with any custom bits the engine
    accepts, and for every number [n], there is a completed run, every
    backend answer being one the submitted circuit allows, that ran at
    least [n] jobs: the draws can make the bases differ any number of
    times before a key bit is kept. *)
Theorem rounds_are_unbounded p k e cb (n : nat) :
  p <> Teleportation -> 1 <= k ->
  match Py.truthy cb with
  | Some s => ~ engine_rejects s k
  | None => True
  end ->
  exists w kp w',
    generate_key p k e cb w = (Ok kp, w') /\ jobs w = [] /\
    faithful (jobs w') /\ (n <= List.length (jobs w'))%nat.
Proof.
  intros Hp Hk Acc.
  pose proof (first_pass_needed k Hk) as C0.
  assert (G : exists ent sh kp new,
             drives (generate_key p k e cb) ent sh kp new /\
             all_allowed new /\ (n <= List.length new)%nat).
  { destruct (Py.truthy cb) as [s |] eqn:T.
    - destruct (custom_alice_key s k) as [x | ak] eqn:E.
      { exfalso. apply Acc. apply custom_alice_key_rejects. eauto. }
      assert (Len : Py.len ak = k)
        by (eapply custom_alice_key_len; [| exact E]; lia).
      destruct p; [| | | contradiction]; simpl;
        [ unfold BB84Protocol.generate_key
        | unfold E91Protocol.generate_key
        | unfold BBM92Protocol.generate_key ]; rewrite T, E.
      + destruct (nth_error ak 0) as [b |] eqn:N;
          [| apply nth_error_None in N; unfold Py.len in Len; lia].
        destruct (loop_can_run_long
                    (fun st => Py.len (sift_bob_key st) <? k)
                    (fun st => r <- BB84Protocol.custom_attempt e ak st ;;
                               ret (snd r))
                    {| sift_bob_key := []; bit_index := 0 |}
                    _ _ _ n
                    (bb84_custom_body_stalls e ak
                       {| sift_bob_key := []; bit_index := 0 |} b N)
                    (bb84_custom_loop_can_finish e ak k (or_introl Len)) C0)
          as (ent & sh & r & new & D & A & L);
          try (apply quiet_round_nonempty; discriminate);
          try discriminate;
          try (unfold all_allowed; simpl; try destruct (b =? 1);
               reflexivity).
        eexists ent, sh, _, new. split; [| split; [exact A | exact L]].
        apply drives_after_lift.
        rewrite <- (app_nil_r ent), <- (app_nil_r sh), <- (app_nil_r new).
        eapply drives_bind; [apply drives_loop_while; exact D
                            | apply drives_ret].
      + destruct (loop_can_run_long
                    (fun st => Py.len (sift_bob_key st) <? k)
                    (fun st => r <- E91Protocol.custom_attempt e st ;;
                               ret (snd r))
                    {| sift_bob_key := []; bit_index := 0 |}
                    _ _ _ n
                    (e91_custom_body_stalls e _)
                    (sifting_loop_can_finish _ k _ _ _ e
                       (e91_custom_body_drives e) eq_refl) C0)
          as (ent & sh & r & new & D & A & L);
          try (apply quiet_round_nonempty; discriminate);
          try discriminate;
          try (unfold all_allowed; simpl; try destruct (b =? 1);
               reflexivity).
        eexists ent, sh, _, new. split; [| split; [exact A | exact L]].
        apply drives_after_lift.
        rewrite <- (app_nil_r ent), <- (app_nil_r sh), <- (app_nil_r new).
        eapply drives_bind; [apply drives_loop_while; exact D
                            | apply drives_ret].
      + destruct (loop_can_run_long
                    (fun st => Py.len (sift_bob_key st) <? k)
                    (fun st => r <- BBM92Protocol.custom_attempt e st ;;
                               ret (snd r))
                    {| sift_bob_key := []; bit_index := 0 |}
                    _ _ _ n
                    (bbm92_custom_body_stalls e _)
                    (sifting_loop_can_finish _ k _ _ _ e
                       (bbm92_custom_body_drives e) eq_refl) C0)
          as (ent & sh & r & new & D & A & L);
          try (apply quiet_round_nonempty; discriminate);
          try discriminate;
          try (unfold all_allowed; simpl; try destruct (b =? 1);
               reflexivity).
        eexists ent, sh, _, new. split; [| split; [exact A | exact L]].
        apply drives_after_lift.
        rewrite <- (app_nil_r ent), <- (app_nil_r sh), <- (app_nil_r new).
        eapply drives_bind; [apply drives_loop_while; exact D
                            | apply drives_ret].
    - destruct p; [| | | contradiction]; simpl;
        [ unfold BB84Protocol.generate_key
        | unfold E91Protocol.generate_key
        | unfold BBM92Protocol.generate_key ]; rewrite T.
      + destruct (loop_can_run_long
                    (fun keys : list Z * list Z => Py.len (fst keys) <? k)
                    (BB84Protocol.random_attempt e) ([], [])
                    _ _ _ n
                    (bb84_random_attempt_stalls e _)
                    (growing_loop_can_finish _ k _ [0; 0; 0] _ _ e
                       ltac:(discriminate)
                       (bb84_random_attempt_drives e) eq_refl) C0)
          as (ent & sh & r & new & D & A & L);
          try (apply quiet_round_nonempty; discriminate);
          try discriminate;
          try (unfold all_allowed; simpl; try destruct (b =? 1);
               reflexivity).
        eexists ent, sh, _, new. split; [| split; [exact A | exact L]].
        rewrite <- (app_nil_r ent), <- (app_nil_r sh), <- (app_nil_r new).
        eapply drives_bind; [apply drives_loop_while; exact D
                            | apply drives_ret].
      + destruct (loop_can_run_long
                    (fun keys : list Z * list Z => Py.len (fst keys) <? k)
                    (E91Protocol.random_attempt e) ([], [])
                    _ _ _ n
                    (e91_random_attempt_stalls e _)
                    (growing_loop_can_finish _ k _ [0; 0] _ _ e
                       ltac:(discriminate)
                       (e91_random_attempt_drives e) eq_refl) C0)
          as (ent & sh & r & new & D & A & L);
          try (apply quiet_round_nonempty; discriminate);
          try discriminate;
          try (unfold all_allowed; simpl; try destruct (b =? 1);
               reflexivity).
        eexists ent, sh, _, new. split; [| split; [exact A | exact L]].
        rewrite <- (app_nil_r ent), <- (app_nil_r sh), <- (app_nil_r new).
        eapply drives_bind; [apply drives_loop_while; exact D
                            | apply drives_ret].
      + destruct (loop_can_run_long
                    (fun keys : list Z * list Z => Py.len (fst keys) <? k)
                    (BBM92Protocol.random_attempt e) ([], [])
                    _ _ _ n
                    (bbm92_random_attempt_stalls e _)
                    (growing_loop_can_finish _ k _ [0; 0] _ _ e
                       ltac:(discriminate)
                       (bbm92_random_attempt_drives e) eq_refl) C0)
          as (ent & sh & r & new & D & A & L);
          try (apply quiet_round_nonempty; discriminate);
          try discriminate;
          try (unfold all_allowed; simpl; try destruct (b =? 1);
               reflexivity).
        eexists ent, sh, _, new. split; [| split; [exact A | exact L]].
        rewrite <- (app_nil_r ent), <- (app_nil_r sh), <- (app_nil_r new).
        eapply drives_bind; [apply drives_loop_while; exact D
                            | apply drives_ret]. }
  destruct G as (ent & sh & kp & new & D & A & L).
  exists {| entropy := ent ++ []; shots := sh ++ []; jobs := [] |}, kp,
         {| entropy := []; shots := []; jobs := [] ++ new |}.
  split; [apply D |]. split; [reflexivity |].
  simpl. split; [apply faithful_check; exact A | exact L].
Qed.

Lemma rounds_are_unbounded_witness :
  exists w kp w',
    generate_key BB84 1 false None w = (Ok kp, w') /\ jobs w = [] /\
    faithful (jobs w') /\ (100 <= List.length (jobs w'))%nat.
Proof.
  apply (rounds_are_unbounded BB84 1 false None 100).
  - discriminate.
  - lia.
  - exact I.
Defined.

(** *** The rates as the responses show them *)

Lemma digit_char_zero d : 0 <= d <= 9 -> digit_char d = "0"%char -> d = 0.
Proof.
  intros Hd H. unfold digit_char in H.
  assert (E : (48 + Z.to_nat d = 48)%nat).
  { rewrite <- (nat_ascii_embedding (48 + Z.to_nat d)) by lia.
    rewrite H. reflexivity. }
  lia.
Qed.

Lemma thousandths_one n :
  0 <= n <= 1000 -> (thousandths_string n = "1.000"%string <-> n = 1000).
Proof.
  intros Hn. split; [| intros ->; reflexivity].
  intros H. destruct (Z.eq_dec n 1000) as [E | E]; [exact E | exfalso].
  unfold thousandths_string in H.
  rewrite (Z.div_small n 1000) in H by lia. discriminate.
Qed.

Lemma thousandths_zero n :
  0 <= n <= 1000 -> (thousandths_string n = "0.000"%string <-> n = 0).
Proof.
  intros Hn. split; [| intros ->; reflexivity].
  intros H. destruct (Z.eq_dec n 1000) as [E | E];
    [subst; discriminate |].
  unfold thousandths_string in H.
  rewrite (Z.div_small n 1000) in H by lia. simpl in H.
  injection H as H1 H2 H3.
  assert (B : forall x, 0 <= x mod 10 <= 9).
  { intros x. pose proof (Z.mod_pos_bound x 10 ltac:(lia)). lia. }
  apply digit_char_zero in H1, H2, H3; try apply B.
  pose proof (Z.div_mod n 10 ltac:(lia)).
  pose proof (Z.div_mod (n / 10) 10 ltac:(lia)).
  assert (D : n / 10 / 10 = n / 100)
    by (rewrite Z.div_div by lia; reflexivity).
  assert (0 <= n / 100 < 10).
  { split; [apply Z.div_pos; lia | apply Z.div_lt_upper_bound; lia]. }
  rewrite Z.mod_small in H1 by lia. lia.
Qed.

Lemma rounded_thousandths (N : Z) (p : positive) :
  0 <= N <= 1000 * Zpos p ->
  let n := round_half_even (N # p) in
  0 <= n <= 1000 /\
  (n = 1000 <-> 1999 * Zpos p <= 2 * N) /\
  (n = 0 <-> 2 * N <= Zpos p).
Proof.
  intros HN. unfold round_half_even. cbn [Qnum Qden].
  pose proof (Z.div_mod N (Zpos p) ltac:(lia)) as DM.
  pose proof (Z.mod_pos_bound N (Zpos p) ltac:(lia)) as MB.
  set (fl := N / Zpos p) in *. set (r := N mod Zpos p) in *.
  assert (F0 : 0 <= fl) by (subst fl; apply Z.div_pos; lia).
  assert (F1 : fl <= 1000) by nia.
  assert (F2 : fl = 1000 -> r = 0) by nia.
  clearbody fl r.
  destruct (2 * r ?= Zpos p) eqn:C.
  - apply Z.compare_eq in C.
    destruct (Z.even fl) eqn:Ev.
    + apply Z.even_spec in Ev. destruct Ev as [h Eh].
      repeat split; try lia; try nia.
    + assert (Od : Z.odd fl = true) by (rewrite <- Z.negb_even, Ev; reflexivity).
      apply Z.odd_spec in Od. destruct Od as [h Eh].
      repeat split; try lia; try nia.
  - rewrite Z.compare_lt_iff in C. repeat split; try lia; try nia.
  - rewrite Z.compare_gt_iff in C. repeat split; try lia; try nia.
Qed.

Lemma exact_format (q : Q) :
  0 <= Qnum q ->
  num_format_3f (R := Q) q =
  thousandths_string (round_half_even (Qnum q * 1000 # Qden q)).
Proof.
  intros H. cbn [num_format_3f exact_shown].
  assert (L : Qltb q 0 = false).
  { unfold Qltb, Qle_bool. cbn [Qnum Qden]. apply negb_false_iff.
    apply Z.leb_le. lia. }
  rewrite L. unfold format_3f. cbn [append]. unfold Qmult.
  cbn [Qnum Qden]. rewrite Pos.mul_1_r. reflexivity.
Qed.

Lemma exact_rates_shown a b e :
  a <> [] -> b <> [] ->
  let m := QKDProtocol.calculate_security_metrics (R := Q) a b e in
  let t := Z.of_nat (Nat.min (List.length a) (List.length b)) in
  let d := Z.of_nat (differing_positions a b) in
  (fst (shown_rates m) = "1.000"%string <-> 2000 * d <= t) /\
  (snd (shown_rates m) = "0.000"%string <-> 2000 * d <= t).
Proof.
  intros Ha Hb. cbv zeta. rewrite (metrics_nonempty a b e Ha Hb).
  cbv zeta. unfold shown_rates. cbn [agreement_rate qber fst snd].
  cbn [num_div num_sub num_of_int num_1 exact].
  pose proof (agreeing_positions_le a b) as Le.
  unfold differing_positions.
  replace (Z.min (Py.len a) (Py.len b))
    with (Z.of_nat (Nat.min (List.length a) (List.length b)))
    by (unfold Py.len; lia).
  assert (Tp : (0 < Nat.min (List.length a) (List.length b))%nat).
  { destruct a; [contradiction |]. destruct b; [contradiction |].
    simpl. lia. }
  set (A := agreeing_positions a b) in *.
  set (T := Nat.min (List.length a) (List.length b)) in *.
  clearbody A T.
  destruct (Z.of_nat T) as [| p |] eqn:ET; try lia.
  assert (EA : 0 <= Z.of_nat A <= Zpos p) by lia.
  replace (Z.of_nat (T - A)) with (Zpos p - Z.of_nat A) by lia.
  set (x := Z.of_nat A) in *. clearbody x.
  rewrite !exact_format;
    [| unfold Qminus, Qplus, Qopp, Qdiv, Qmult, Qinv, inject_Z;
       cbn [Qnum Qden]; lia
     | unfold Qdiv, Qmult, Qinv, inject_Z; cbn [Qnum Qden]; lia ].
  unfold Qminus, Qplus, Qopp, Qdiv, Qmult, Qinv, inject_Z.
  cbn [Qnum Qden Pos.mul].
  split.
  - destruct (rounded_thousandths (x * 1 * 1000) p ltac:(lia))
      as (B & One & _).
    rewrite (thousandths_one _ B), One. lia.
  - destruct (rounded_thousandths
                ((1 * Zpos p + - (x * 1) * 1) * 1000) p ltac:(lia))
      as (B & _ & Zero).
    rewrite (thousandths_zero _ B), Zero. lia.
Qed.

(** X23.  The two rates are shown rounded to three decimals
    ([f"{x:.3f}"]), so rare errors do not show.  In exact arithmetic,
    for all non-empty keys: the agreement rate is shown as ['1.000'],
    and the QBER as ['0.000'], exactly when at most one compared
    position in 2000 differs.  In binary64, keys of 2000 bits that
    differ in one position are shown with agreement ['1.000'] and QBER
    ['0.000'], as equal keys are; keys that agree in one position of
    three with ['0.333'] and ['0.667']; empty keys with ['0.000'] and
    ['1.000']. *)
Theorem shown_rates_hide_rare_errors :
  (forall a b e,
      a <> [] -> b <> [] ->
      let m := QKDProtocol.calculate_security_metrics (R := Q) a b e in
      let t := Z.of_nat (Nat.min (List.length a) (List.length b)) in
      let d := Z.of_nat (differing_positions a b) in
      (fst (shown_rates m) = "1.000"%string <-> 2000 * d <= t) /\
      (snd (shown_rates m) = "0.000"%string <-> 2000 * d <= t)) /\
  (let m := QKDProtocol.calculate_security_metrics (R := float)
              (repeat 1 2000) (0 :: repeat 1 1999) false in
   shown_rates m = ("1.000", "0.000")%string /\
   security_level m = "High"%string /\ is_secure m = true) /\
  shown_rates (QKDProtocol.calculate_security_metrics (R := float)
                 (repeat 1 2000) (repeat 1 2000) false) =
  ("1.000", "0.000")%string /\
  shown_rates (QKDProtocol.calculate_security_metrics (R := float)
                 [1; 0; 1] [1; 1; 0] false) =
  ("0.333", "0.667")%string /\
  shown_rates (QKDProtocol.calculate_security_metrics (R := float)
                 [] [1; 1; 0] false) =
  ("0.000", "1.000")%string.
Proof.
  split; [exact exact_rates_shown |].
  repeat split; vm_compute; reflexivity.
Qed.

(** *** Two runs side by side *)

Lemma similar_refl w : similar w w.
Proof.
  split; [reflexivity |]. split; [reflexivity |].
  induction (jobs w) as [| j js IH]; constructor; [| exact IH].
  split; [intros m; reflexivity | reflexivity].
Qed.

Lemma similar_faithful w1 w2 :
  similar w1 w2 -> (faithful (jobs w1) <-> faithful (jobs w2)).
Proof.
  intros (_ & _ & J). unfold faithful.
  induction J as [| j1 j2 l1 l2 [E M] J IH]; [tauto |].
  split; intros F; inversion F; subst; constructor; try (apply IH; assumption).
  - rewrite <- E, <- M. assumption.
  - rewrite E, M. assumption.
Qed.

Section Alike.

Context {A B : Type}.

Lemma alike_ret (R : A -> A -> Prop) a1 a2 :
  R a1 a2 -> alike R (ret a1) (ret a2).
Proof. intros H w1 w2 S. simpl. auto. Qed.

Lemma alike_lift (R : A -> A -> Prop) (v1 v2 : Py.exn + A) :
  match v1, v2 with
  | inr a1, inr a2 => R a1 a2
  | inl x1, inl x2 => x1 = x2
  | _, _ => False
  end ->
  alike R (lift v1) (lift v2).
Proof.
  intros H w1 w2 S. unfold lift.
  destruct v1, v2; simpl; try contradiction; auto.
Qed.

Lemma alike_bind (R : A -> A -> Prop) (Q : B -> B -> Prop)
  (m1 m2 : M A) (f1 f2 : A -> M B) :
  alike R m1 m2 ->
  (forall a1 a2, R a1 a2 -> alike Q (f1 a1) (f2 a2)) ->
  alike Q (bind m1 f1) (bind m2 f2).
Proof.
  intros Hm Hf w1 w2 S. unfold bind.
  destruct (Hm w1 w2 S) as [S' Rr].
  destruct (m1 w1) as [[a1 | x1 |] w1'], (m2 w2) as [[a2 | x2 |] w2'];
    simpl in *; try contradiction; auto.
  apply Hf; assumption.
Qed.

End Alike.

Lemma alike_word : alike eq Random.word Random.word.
Proof.
  intros w1 w2 (E & S & J). unfold Random.word.
  destruct (entropy w1) as [| n rest] eqn:E1; rewrite <- E; simpl.
  - split; [| exact I]. split; [congruence | split; assumption].
  - split; [| reflexivity]. split; [reflexivity | split; assumption].
Qed.

Lemma alike_randint a b :
  a <= b ->
  alike (fun v1 v2 => v1 = v2 /\ a <= v1 <= b)
    (Random.randint a b) (Random.randint a b).
Proof.
  intros Hab. unfold Random.randint.
  eapply alike_bind; [apply alike_word |].
  intros n ? <-. apply alike_ret. split; [reflexivity |].
  pose proof (Z.mod_pos_bound n (b - a + 1)). lia.
Qed.

Lemma alike_random : alike eq Random.random Random.random.
Proof.
  unfold Random.random. eapply alike_bind; [apply alike_word |].
  intros n ? <-. apply alike_ret. reflexivity.
Qed.

Lemma alike_eve_acts e p : alike eq (eve_acts e p) (eve_acts e p).
Proof.
  unfold eve_acts. destruct e; [| apply alike_ret; reflexivity].
  eapply alike_bind; [apply alike_random |].
  intros u ? <-. apply alike_ret. reflexivity.
Qed.

Lemma alike_run qc1 qc2 :
  equi_allowed qc1 qc2 -> alike eq (Backend.run qc1) (Backend.run qc2).
Proof.
  intros Q w1 w2 (E & S & J). unfold Backend.run.
  destruct (shots w1) as [| m rest] eqn:S1; rewrite <- S; simpl.
  - split; [| exact I]. split; [exact E | split; [congruence | exact J]].
  - split; [| reflexivity].
    split; [exact E |]. split; [reflexivity |].
    apply Forall2_app; [exact J |]. constructor; [| constructor].
    split; [exact Q | reflexivity].
Qed.

Lemma alike_for_each {A S : Type} (R : S -> S -> Prop)
  (body1 body2 : A -> S -> M S) l :
  (forall a s1 s2, In a l -> R s1 s2 -> alike R (body1 a s1) (body2 a s2)) ->
  forall s1 s2, R s1 s2 -> alike R (for_each l body1 s1) (for_each l body2 s2).
Proof.
  induction l as [| a l IH]; intros Hb s1 s2 Hs; simpl.
  - apply alike_ret. exact Hs.
  - eapply alike_bind; [apply Hb; [left; reflexivity | exact Hs] |].
    intros s1' s2' Hs'. apply IH; [| exact Hs'].
    intros. apply Hb; [right |]; assumption.
Qed.

Lemma equi_allowed_outcomes qc1 qc2 :
  (forall m, In m (Qiskit.outcomes qc1) <-> In m (Qiskit.outcomes qc2)) ->
  equi_allowed qc1 qc2.
Proof.
  intros H m. unfold Qiskit.allowed.
  destruct (existsb (Qiskit.memory_eqb m) (Qiskit.outcomes qc1)) eqn:E1;
    destruct (existsb (Qiskit.memory_eqb m) (Qiskit.outcomes qc2)) eqn:E2;
    try reflexivity; exfalso.
  - apply existsb_exists in E1. destruct E1 as (m' & Hin & Eq).
    apply H in Hin.
    assert (C : existsb (Qiskit.memory_eqb m) (Qiskit.outcomes qc2) = true)
      by (apply existsb_exists; eauto).
    congruence.
  - apply existsb_exists in E2. destruct E2 as (m' & Hin & Eq).
    apply H in Hin.
    assert (C : existsb (Qiskit.memory_eqb m) (Qiskit.outcomes qc1) = true)
      by (apply existsb_exists; eauto).
    congruence.
Qed.

Lemma alice_teleport_circuits_alike b1 b2 (q : nat) :
  (q <= 2)%nat ->
  equi_allowed (alice_teleport_circuit b1 None)
    (alice_teleport_circuit b2 None) /\
  equi_allowed (alice_teleport_circuit b1 (Some q))
    (alice_teleport_circuit b2 (Some q)).
Proof.
  intros Hq.
  split; apply equi_allowed_outcomes; intros m;
    destruct b1, b2;
    try (destruct q as [| [| [| q]]]; [| | | lia]);
    vm_compute; tauto.
Qed.

Lemma alike_lift_same {A : Type} (v : Py.exn + A) :
  alike eq (lift v) (lift v).
Proof. apply alike_lift. destruct v; reflexivity. Qed.

Lemma alike_teleport e s1 s2 :
  alike eq (TeleportationQKD.teleport e s1) (TeleportationQKD.teleport e s2).
Proof.
  unfold TeleportationQKD.teleport.
  eapply alike_bind; [apply alike_eve_acts |]. intros attempt ? <-.
  apply (alike_bind
           (fun qc1 qc2 =>
              equi_allowed (Qiskit.measure 1 1 (Qiskit.measure 0 0 qc1))
                (Qiskit.measure 1 1 (Qiskit.measure 0 0 qc2)))).
  - destruct attempt.
    + eapply alike_bind; [apply alike_random |]. intros u ? <-.
      destruct (Qltb u (3 # 10)).
      * eapply alike_bind; [apply alike_randint; lia |].
        intros q ? [<- Hq]. apply alike_ret.
        exact (proj2 (alice_teleport_circuits_alike (s1 =? 1) (s2 =? 1)
                        (Z.to_nat q) ltac:(lia))).
      * apply alike_ret.
        exact (proj1 (alice_teleport_circuits_alike (s1 =? 1) (s2 =? 1)
                        0%nat ltac:(lia))).
    + apply alike_ret.
      exact (proj1 (alice_teleport_circuits_alike (s1 =? 1) (s2 =? 1)
                      0%nat ltac:(lia))).
  - intros qc1 qc2 Hq.
    eapply alike_bind; [apply alike_run; exact Hq |].
    intros alice_measurements ? <-.
    eapply alike_bind; [apply alike_lift_same |]. intros c1 ? <-.
    eapply alike_bind; [apply alike_lift_same |]. intros c0 ? <-.
    eapply alike_bind; [apply alike_run; intros m; reflexivity |].
    intros memory ? <-. apply alike_lift_same.
Qed.

Lemma alike_teleport_custom_round e ak1 ak2 i bob :
  (i < List.length ak1)%nat -> (i < List.length ak2)%nat ->
  alike eq (TeleportationQKD.custom_round e ak1 i bob)
    (TeleportationQKD.custom_round e ak2 i bob).
Proof.
  intros H1 H2. unfold TeleportationQKD.custom_round.
  apply (alike_bind (fun _ _ => True)).
  - apply alike_lift. unfold Py.list_getitem.
    destruct (nth_error ak1 i) eqn:N1;
      [| apply nth_error_None in N1; lia].
    destruct (nth_error ak2 i) eqn:N2;
      [| apply nth_error_None in N2; lia].
    exact I.
  - intros b1 b2 _.
    eapply alike_bind; [apply alike_teleport |].
    intros bob_bit ? <-. apply alike_ret. reflexivity.
Qed.

Lemma alike_after_lift {A B : Type} (Q : B -> B -> Prop) (a1 a2 : A)
  (f1 f2 : A -> M B) :
  alike Q (f1 a1) (f2 a2) ->
  alike Q (bind (lift (inr a1)) f1) (bind (lift (inr a2)) f2).
Proof. intros H w1 w2 S. unfold bind, lift. apply H. exact S. Qed.

Lemma alike_teleportation_custom k e s1 s2 a1 a2 :
  s1 <> EmptyString -> s2 <> EmptyString ->
  custom_alice_key s1 k = inr a1 -> custom_alice_key s2 k = inr a2 ->
  alike (fun kp1 kp2 => bob_key kp1 = bob_key kp2)
    (generate_key Teleportation k e (Some s1))
    (generate_key Teleportation k e (Some s2)).
Proof.
  intros N1 N2 H1 H2. simpl. unfold TeleportationQKD.generate_key.
  rewrite (truthy_nonempty s1 N1), (truthy_nonempty s2 N2), H1, H2.
  apply alike_after_lift.
  pose proof (custom_alice_key_long _ _ _ H1) as L1.
  pose proof (custom_alice_key_long _ _ _ H2) as L2.
  eapply alike_bind.
  - apply (alike_for_each eq); [| reflexivity].
    intros i bob ? Hi <-. unfold range in Hi. apply in_seq in Hi.
    apply alike_teleport_custom_round; unfold Py.len in *; lia.
  - intros bob ? <-. apply alike_ret. reflexivity.
Qed.

(** X24.  In the Teleportation engine Bob's key does not depend on the
    secret bits.  Two calls in custom-bits mode that differ only in
    their (accepted) custom bits, started on the same draws and backend
    answers, with or without an eavesdropper, give Bob the same key,
    fail alike or run out alike, and leave the same tapes; and the
    answers are ones the submitted circuits allow in one run exactly
    when they are in the other.  Alice's keys are the respective custom
    bits. *)
Theorem teleported_key_ignores_the_secret k e s1 s2 a1 a2 w :
  s1 <> EmptyString -> s2 <> EmptyString ->
  custom_alice_key s1 k = inr a1 -> custom_alice_key s2 k = inr a2 ->
  let r1 := generate_key Teleportation k e (Some s1) w in
  let r2 := generate_key Teleportation k e (Some s2) w in
  fst (bob_view r1) = fst (bob_view r2) /\
  entropy (snd r1) = entropy (snd r2) /\
  shots (snd r1) = shots (snd r2) /\
  (faithful (jobs (snd r1)) <-> faithful (jobs (snd r2))) /\
  (forall kp, fst r1 = Ok kp -> alice_key kp = a1) /\
  (forall kp, fst r2 = Ok kp -> alice_key kp = a2).
Proof.
  intros N1 N2 H1 H2. cbv zeta.
  destruct (alike_teleportation_custom k e s1 s2 a1 a2 N1 N2 H1 H2 w w
              (similar_refl w)) as [S R].
  destruct (generate_key Teleportation k e (Some s1) w) as [o1 w1] eqn:G1.
  destruct (generate_key Teleportation k e (Some s2) w) as [o2 w2] eqn:G2.
  unfold bob_view. cbn [fst snd] in *.
  split.
  { destruct o1 as [kp1 | x1 |], o2 as [kp2 | x2 |];
      try contradiction; congruence. }
  split; [apply S |]. split; [apply S |].
  split; [apply similar_faithful; exact S |].
  split; intros kp E; subst.
  - apply generate_key_custom_alice in G1; [congruence | exact N1].
  - apply generate_key_custom_alice in G2; [congruence | exact N2].
Qed.

Lemma teleported_key_ignores_the_secret_witness :
  let r1 := generate_key Teleportation 1 false (Some "0"%string)
              teleport_custom_world in
  let r2 := generate_key Teleportation 1 false (Some "1"%string)
              teleport_custom_world in
  fst (bob_view r1) = Ok [1] /\ fst (bob_view r2) = Ok [1] /\
  faithful (jobs (snd r1)) /\ faithful (jobs (snd r2)).
Proof.
  destruct (teleported_key_ignores_the_secret 1 false "0" "1" [0] [1]
              teleport_custom_world ltac:(discriminate) ltac:(discriminate)
              eq_refl eq_refl) as (B & _ & _ & F & _).
  cbv zeta in *.
  assert (B1 : fst (bob_view (generate_key Teleportation 1 false
                                (Some "0"%string) teleport_custom_world))
               = Ok [1]) by (vm_compute; reflexivity).
  assert (F1 : faithful (jobs (snd (generate_key Teleportation 1 false
                                      (Some "0"%string)
                                      teleport_custom_world))))
    by (apply faithful_check; vm_compute; reflexivity).
  split; [exact B1 |]. split; [rewrite <- B; exact B1 |].
  split; [exact F1 | apply F; exact F1].
Defined.

(** *** The eavesdropper of BBM92 *)

Lemma bbm92_exchange_intercepted a b u q0 q1 c0 c1 m2 ent sh js :
  Qltb (random_value u) (3 # 10) = true ->
  BBM92Protocol.exchange true
    {| entropy := a :: b :: u :: ent;
       shots := [[c0; c1]; [q0; q1]] :: m2 :: sh; jobs := js |} =
  (Ok (chosen_basis a, chosen_basis b, Qiskit.memory_string m2),
   {| entropy := ent; shots := sh;
      jobs := js ++
              [(bbm92_eve_circuit (chosen_basis a) (chosen_basis b),
                [[c0; c1]; [q0; q1]]);
               (bbm92_resent_circuit (chosen_basis a) (chosen_basis b) q0 q1,
                m2)] |}).
Proof.
  intros Hi. unfold BBM92Protocol.exchange.
  unfold bind at 1. rewrite choice_reads.
  unfold bind at 1. rewrite choice_reads.
  unfold eve_acts, Random.random, Random.word, Backend.run, bind, ret, lift.
  cbn [entropy shots jobs]. fold (random_value u). rewrite Hi.
  cbn [entropy shots jobs].
  replace (js ++
           [(bbm92_eve_circuit (chosen_basis a) (chosen_basis b),
             [[c0; c1]; [q0; q1]]);
            (bbm92_resent_circuit (chosen_basis a) (chosen_basis b) q0 q1,
             m2)])
    with ((js ++
           [(bbm92_eve_circuit (chosen_basis a) (chosen_basis b),
             [[c0; c1]; [q0; q1]])]) ++
          [(bbm92_resent_circuit (chosen_basis a) (chosen_basis b) q0 q1,
            m2)])
    by (rewrite <- app_assoc; reflexivity).
  destruct q0, q1, c0, c1; reflexivity.
Qed.

(** X25.  An intercepted BBM92 round (one in which two jobs were run)
    shows the eavesdropper only in the diagonal basis.  When both
    parties drew the rectilinear basis the two measured bits are equal,
    as without interception, whatever the backend answers within what
    the circuits allow; when both drew the diagonal basis all four
    pairs of bits occur, so Alice's and Bob's bits can differ although
    the bases match. *)
Theorem bbm92_interception_shows_in_diagonal_rounds :
  (forall w alice_basis bob_basis measurements w',
      BBM92Protocol.exchange true w =
      (Ok (alice_basis, bob_basis, measurements), w') ->
      List.length (jobs w') = (2 + List.length (jobs w))%nat ->
      faithful (jobs w') ->
      alice_basis = "rectilinear"%string ->
      bob_basis = "rectilinear"%string ->
      measurements = "00"%string \/ measurements = "11"%string) /\
  (forall a b u (alice_bit bob_bit : bool),
      a mod 2 = 1 -> b mod 2 = 1 ->
      Qltb (random_value u) (3 # 10) = true ->
      exists m1 m2 qc1 qc2,
        Qiskit.allowed qc1 m1 = true /\ Qiskit.allowed qc2 m2 = true /\
        drives (BBM92Protocol.exchange true) [a; b; u] [m1; m2]
          ("diagonal"%string, "diagonal"%string,
           String (Qiskit.bit_char bob_bit)
             (String (Qiskit.bit_char alice_bit) EmptyString))
          [(qc1, m1); (qc2, m2)]).
Proof.
  split.
  - intros w ab bb ms w' H L F -> ->.
    unfold BBM92Protocol.exchange, eve_acts in H.
    runs_branching.
    + repeat match goal with G : Backend.run _ _ = _ |- _ =>
        apply run_Ok in G; destruct G as (? & ? & ? & ? & ?) end.
      repeat match goal with
        | G : Random.choice _ _ = (Ok _, _) |- _ =>
            apply choice_uses in G; destruct G as (_ & _ & ?)
        | G : Random.random _ = (Ok _, _) |- _ =>
            apply random_uses in G; destruct G as (_ & _ & ?)
        end.
      subst.
      match goal with
      | F : faithful (jobs ?wf),
        J2 : jobs ?wf = jobs ?w1 ++ [(?qc2, ?m2)],
        J1 : jobs ?w1 = jobs ?w0 ++ [(?qc1, ?m1)] |- _ =>
          rewrite J2 in F; pose proof (faithful_last _ _ _ F) as A2;
          unfold faithful in F; apply Forall_app in F; destruct F as [F _];
          rewrite J1 in F; apply faithful_last in F
      end.
      vm_compute in F.
      destruct F as [<- | [<- | []]];
        repeat match goal with
          | G : Py.getitem _ _ = inr _ |- _ =>
              vm_compute in G; inversion G; clear G
          end; subst;
        vm_compute in A2; destruct A2 as [<- | []]; vm_compute; auto.
    + exfalso.
      repeat match goal with
        | G : Random.choice _ _ = (Ok _, _) |- _ =>
            apply choice_uses in G; destruct G as (_ & _ & ?)
        | G : Random.random _ = (Ok _, _) |- _ =>
            apply random_uses in G; destruct G as (_ & _ & ?)
        | G : Backend.run _ _ = (Ok _, _) |- _ =>
            apply run_uses in G; destruct G as (_ & _ & ?)
        end.
      lengths. lia.
  - intros a b u x y Ha Hb Hi.
    exists [[false; false]; [false; false]], [[x; y]],
      (bbm92_eve_circuit "diagonal" "diagonal"),
      (bbm92_resent_circuit "diagonal" "diagonal" false false).
    split; [vm_compute; reflexivity |].
    split; [destruct x, y; vm_compute; reflexivity |].
    intros ent' sh' js. cbn [app].
    rewrite (bbm92_exchange_intercepted _ _ _ _ _ _ _ _ _ _ _ Hi).
    unfold chosen_basis. rewrite Ha, Hb. cbn [Z.eqb].
    destruct x, y; reflexivity.
Qed.
